(** * calcos / cosutil.py: data-quality flagging, dispersion solver, statistics

    A shallow embedding of the parts of [lib/cosutil.py] that decide the
    behaviour of

    - [getTable], [activeArea]   (reference-table row selection),
    - [evalDisp], [evalDerivDisp], [evalInvDisp]   (dispersion relation),
    - [minmaxDoppler]         (Doppler-shift envelope),
    - [updateDQArray], [flagOutOfBounds], [clearSubarray], [applyOffsets],
      [getGeoData], [flagOutsideActiveArea], [getInputDQ] (data-quality array),
    - [computeStat], [combineStat]                 (statistics),
    - [getTemplate]           (template spectrum),
    - [cmpVersion], [cmpPart] (version strings),
    - [tableHeaderToImage], [imageHeaderToTable], [delCorrtagWCS],
      [modifyAsnMtyp]         (header keywords).

    Conventions of the embedding.

    - Python floats are modelled by exact rationals ([Qc], canonical
      rationals with Leibniz equality).  Every statement below is about that
      exact arithmetic; where a concrete input is evaluated, its values are
      small integers or dyadic rationals, so binary64 arithmetic is exact on them.
    - Python integers are [Z]; numpy integer arrays are lists of [Z].
    - A raised exception is a value [Raise e] of [result]; stateful code is a
      function of an explicit [world] (see the [M] monad further down).
    - The unbounded [while] loop of [evalInvDisp] is run with a fuel
      argument; [OutOfFuel] means: still iterating after that many passes. *)

From stdpp Require Import gmap strings list pretty.
From Stdlib Require Import Ascii QArith Qcanon Qround Qabs Field.

Local Open Scope Z_scope.

(** ** Python values and exceptions *)

Inductive exn : Type :=
| ValueError
| ZeroDivisionError
| TypeError
| NameError
| IndexError
| IOError (file : string)
| KeyError (key : string)
| RuntimeError (msg : string).

Inductive result (A : Type) : Type :=
| Ok (a : A)
| Raise (e : exn).
Arguments Ok {A} a.
Arguments Raise {A} e.

#[global] Instance result_ret : MRet result := fun A a => Ok a.
#[global] Instance result_bind : MBind result := fun A B k r =>
  match r with
  | Ok a => k a
  | Raise e => Raise e
  end.

(** ** Floats as exact rationals *)

Definition Qcabs (q : Qc) : Qc := if bool_decide (q < 0)%Qc then (- q)%Qc else q.

Definition Qcmax (a b : Qc) : Qc := if bool_decide (a < b)%Qc then b else a.
Definition Qcmin (a b : Qc) : Qc := if bool_decide (b < a)%Qc then b else a.

(** Python 2 [round]: to the nearest integer, halves away from zero;
    [py_round q] is [int (round (q))]. *)
Definition py_round (q : Qc) : Z :=
  if bool_decide (0 <= q)%Qc
  then Qfloor (this q + (1 # 2))
  else - Qfloor (- this q + (1 # 2)).

(** [float (z)] *)
Definition Zf (z : Z) : Qc := Qc_of_Z z.

(** ** numpy scalars and 1-D arrays, with broadcasting *)

Inductive ndval : Type :=
| Scalar (q : Qc)
| Array (a : list Qc).

Definition nd_map (f : Qc -> Qc) (v : ndval) : ndval :=
  match v with
  | Scalar q => Scalar (f q)
  | Array a => Array (map f a)
  end.

(** Element-wise binary operation.  Two arrays are combined position by
    position; in every use below they have the same length. *)
Definition nd_map2 (f : Qc -> Qc -> Qc) (v w : ndval) : ndval :=
  match v, w with
  | Scalar p, Scalar q => Scalar (f p q)
  | Scalar p, Array b => Array (map (f p) b)
  | Array a, Scalar q => Array (map (fun x => f x q) a)
  | Array a, Array b => Array (zip_with f a b)
  end.

Definition nd_elems (v : ndval) : list Qc :=
  match v with
  | Scalar q => [q]
  | Array a => a
  end.

(** [v / w]; a zero divisor raises (Python floats) -- numpy's inf/nan are
    outside exact arithmetic, so the model stops there as well. *)
Definition nd_div (v w : ndval) : result ndval :=
  if bool_decide (Exists (fun q => q = 0%Qc) (nd_elems w))
  then Raise ZeroDivisionError
  else Ok (nd_map2 Qcdiv v w).

(** [v.max ()]: the largest element; numpy raises ValueError on an empty
    array. *)
Definition nd_max (v : ndval) : result Qc :=
  match nd_elems v with
  | [] => Raise ValueError
  | q :: qs => Ok (foldl Qcmax q qs)
  end.

(** [N.arange (n, dtype=N.float64)] *)
Definition arange (n : nat) : list Qc := map (fun i => Zf (Z.of_nat i)) (seq 0 n).

(** ** DispersionSolver *)

(** [evalDisp (x, coeff, delta)]: Horner evaluation at [x - delta];
    [range (ncoeff-2, -1, -1)] is [rev (seq 0 (ncoeff-1))]. *)
Definition evalDisp (x : ndval) (coeff : list Qc) (delta : Qc) : result ndval :=
  let ncoeff := length coeff in
  if bool_decide (ncoeff < 2)%nat then Raise ValueError
  else
    let x_prime := nd_map (fun v => v - delta)%Qc x in
    let sum := Scalar (nth (ncoeff - 1) coeff 0%Qc) in
    Ok (foldl (fun sum i =>
                 nd_map2 Qcplus (nd_map2 Qcmult sum x_prime)
                                (Scalar (nth i coeff 0%Qc)))
              sum (rev (seq 0 (ncoeff - 1)))).

(** [evalDerivDisp (x, coeff, delta)]; [range (ncoeff-2, 0, -1)] is
    [rev (seq 1 (ncoeff-2))]. *)
Definition evalDerivDisp (x : ndval) (coeff : list Qc) (delta : Qc) : result ndval :=
  let ncoeff := length coeff in
  if bool_decide (ncoeff < 2)%nat then Raise ValueError
  else
    let x_prime := nd_map (fun v => v - delta)%Qc x in
    let sum := Scalar (Zf (Z.of_nat ncoeff - 1) * nth (ncoeff - 1) coeff 0)%Qc in
    Ok (foldl (fun sum n =>
                 nd_map2 Qcplus (nd_map2 Qcmult sum x_prime)
                                (Scalar (Zf (Z.of_nat n) * nth n coeff 0)%Qc))
              sum (rev (seq 1 (ncoeff - 2)))).

(** What a run of the [while] loop can end in. *)
Inductive outcome (A : Type) : Type :=
| Done (a : A)
| Raised (e : exn)
| OutOfFuel.
Arguments Done {A} a.
Arguments Raised {A} e.
Arguments OutOfFuel {A}.

(** One pass of the loop body of [evalInvDisp]: the new [x] and
    [diff.max ()]. *)
Definition newton_pass (wavelength : ndval) (coeff : list Qc) (delta : Qc)
    (x : ndval) : result (ndval * Qc) :=
  let x_prev := x in
  wl ← evalDisp x coeff delta;
  slope ← evalDerivDisp x coeff delta;
  let wl_diff := nd_map2 Qcminus wavelength wl in
  step ← nd_div wl_diff slope;
  let x := nd_map2 Qcplus x step in
  let diff := nd_map Qcabs (nd_map2 Qcminus x x_prev) in
  d ← nd_max diff;
  Ok (x, d).

(** [while not done: ...]; there is no other exit than [done = 1] or an
    exception. *)
Fixpoint newton_loop (fuel : nat) (wavelength : ndval) (coeff : list Qc)
    (delta tiny : Qc) (x : ndval) : outcome ndval :=
  match fuel with
  | O => OutOfFuel
  | S fuel' =>
      match newton_pass wavelength coeff delta x with
      | Raise e => Raised e
      | Ok (x', d) =>
          if bool_decide (d < tiny)%Qc then Done x'
          else newton_loop fuel' wavelength coeff delta tiny x'
      end
  end.

(** The initial value: [N.arange (len (wavelength))] for an array, [0.] for
    a scalar ([len] raises TypeError). *)
Definition initial_x (wavelength : ndval) : ndval :=
  match wavelength with
  | Scalar _ => Scalar 0%Qc
  | Array a => Array (arange (length a))
  end.

Definition evalInvDisp (fuel : nat) (wavelength : ndval) (coeff : list Qc)
    (delta tiny : Qc) : outcome ndval :=
  let tiny := Qcabs tiny in
  newton_loop fuel wavelength coeff delta tiny (initial_x wavelength).

(** The default [tiny=1.e-8]. *)
Definition default_tiny : Qc := Q2Qc (1 # 100000000).

(** ** Dictionaries, headers and Python numbers *)

(** The values a header card or a dictionary entry holds. *)
Inductive pyval : Type :=
| PBool (b : bool)
| PInt (z : Z)
| PFloat (q : Qc)
| PStr (s : string).

#[global] Instance pyval_eq_dec : EqDecision pyval.
Proof. solve_decision. Defined.

(** [phdr], [hdr], [info], [switches]: dictionaries keyed by strings. *)
Abbreviation pydict := (gmap string pyval).

(** Python numbers: an int stays an int until it meets a float. *)
Inductive num : Type :=
| Int (z : Z)
| Float (q : Qc).

Definition num_Q (n : num) : Qc :=
  match n with
  | Int z => Zf z
  | Float q => q
  end.

Definition num_arith (fz : Z -> Z -> Z) (fq : Qc -> Qc -> Qc) (a b : num) : num :=
  match a, b with
  | Int x, Int y => Int (fz x y)
  | _, _ => Float (fq (num_Q a) (num_Q b))
  end.

Definition num_add : num -> num -> num := num_arith Z.add Qcplus.
Definition num_sub : num -> num -> num := num_arith Z.sub Qcminus.
Definition num_mul : num -> num -> num := num_arith Z.mul Qcmult.

Definition num_ltb (a b : num) : bool :=
  match a, b with
  | Int x, Int y => bool_decide (x < y)
  | _, _ => bool_decide (num_Q a < num_Q b)%Qc
  end.
Definition num_leb (a b : num) : bool := negb (num_ltb b a).
Definition num_eqb (a b : num) : bool :=
  match a, b with
  | Int x, Int y => bool_decide (x = y)
  | _, _ => bool_decide (num_Q a = num_Q b)
  end.

(** The builtins [max (a, b)] and [min (a, b)] return their first argument
    unless the second is strictly larger (smaller). *)
Definition py_max (a b : num) : num := if num_ltb a b then b else a.
Definition py_min (a b : num) : num := if num_ltb b a then b else a.

(** A bool is an int in Python; a string is not a number. *)
Definition as_num (v : pyval) : option num :=
  match v with
  | PBool b => Some (Int (if b then 1 else 0))
  | PInt z => Some (Int z)
  | PFloat q => Some (Float q)
  | PStr _ => None
  end.

(** [==] between dictionary values: numbers by value, strings by content. *)
Definition py_eqb (v w : pyval) : bool :=
  match as_num v, as_num w with
  | Some a, Some b => num_eqb a b
  | None, None => bool_decide (v = w)
  | _, _ => false
  end.

(** [v <= n] and [v < n] for a number [n]: Python 2 orders every string
    after every number. *)
Definition py_le_num (v : pyval) (n : num) : bool :=
  match as_num v with
  | Some a => num_leb a n
  | None => false
  end.
Definition py_lt_num (v : pyval) (n : num) : bool :=
  match as_num v with
  | Some a => num_ltb a n
  | None => false
  end.

(** Truth value of [not v]'s operand. *)
Definition py_truth (v : pyval) : bool :=
  match v with
  | PBool b => b
  | PInt z => negb (bool_decide (z = 0))
  | PFloat q => negb (bool_decide (q = 0%Qc))
  | PStr s => negb (bool_decide (s = ""%string))
  end.

(** [d[key]] *)
Definition getitem (d : pydict) (key : string) : result pyval :=
  match d !! key with
  | Some v => Ok v
  | None => Raise (KeyError key)
  end.

(** A value used in arithmetic: a string operand raises TypeError. *)
Definition need_num (v : pyval) : result num :=
  match as_num v with
  | Some n => Ok n
  | None => Raise TypeError
  end.

(** An index or a count: an integer; a float is truncated as [int ()] does. *)
Definition num_index (n : num) : Z :=
  match n with
  | Int z => z
  | Float q => Z.quot (Qnum (this q)) (Z.pos (Qden (this q)))
  end.

(** ** Reference files and the state the functions act on *)

(** A table column as pyfits returns it: a character array or an integer
    array. *)
Inductive column : Type :=
| StrCol (c : list string)
| IntCol (c : list Z).

(** [fd[1].data] of a reference table. *)
Record fits_rec : Type := FitsRec {
  nrows : nat;
  fields : gmap string column
}.

(** One image extension of the geometric-correction file. *)
Record image_hdu : Type := ImageHdu {
  hdu_header : pydict;
  hdu_data : list (list Qc)
}.

(** A 2-D data-quality array: a list of rows, [shape = (ny, nx)]. *)
Abbreviation dqgrid := (list (list Z)).

Record world : Type := World {
  tables : gmap string fits_rec;                       (* reference tables, by file name *)
  images : gmap string (gmap (string * Z) image_hdu);  (* image files: (extname, extver) *)
  dq_array : dqgrid;                                   (* the caller's DQ array *)
  opened : list string;                                (* files opened, latest first *)
  warnings : list string                               (* printWarning / printContinuation *)
}.

(** State and exceptions. *)
Definition M (A : Type) : Type := world -> result A * world.

#[global] Instance M_ret : MRet M := fun A a w => (Ok a, w).
#[global] Instance M_bind : MBind M := fun A B k m w =>
  match m w with
  | (Ok a, w') => k a w'
  | (Raise e, w') => (Raise e, w')
  end.

Definition raise {A} (e : exn) : M A := fun w => (Raise e, w).
Definition lift {A} (r : result A) : M A := fun w => (r, w).

Definition log_open (file : string) : M unit := fun w =>
  (Ok tt, World (tables w) (images w) (dq_array w) (file :: opened w) (warnings w)).

Definition printWarning (msg : string) : M unit := fun w =>
  (Ok tt, World (tables w) (images w) (dq_array w) (opened w) (msg :: warnings w)).
Definition printContinuation := printWarning.

Definition get_dq : M dqgrid := fun w => (Ok (dq_array w), w).
Definition put_dq (g : dqgrid) : M unit := fun w =>
  (Ok tt, World (tables w) (images w) g (opened w) (warnings w)).

Definition the_world : M world := fun w => (Ok w, w).

(** [pyfits.open (table, mode="readonly")] followed by [fd[1].data]. *)
Definition open_table (table : string) : M fits_rec :=
  w ← the_world;
  match tables w !! table with
  | Some data => _ ← log_open table; mret data
  | None => raise (IOError table)
  end.

Definition open_image (file : string) : M (gmap (string * Z) image_hdu) :=
  w ← the_world;
  match images w !! file with
  | Some fd => _ ← log_open file; mret fd
  | None => raise (IOError file)
  end.

(** ** Constants of [calcosparam] and functions of the C extension [ccos]

    [cosutil.py] takes its constants from [calcosparam] and calls into the
    C extension [ccos]; both are outside this file, and enter as
    parameters. *)

Class Calcosparam : Type := {
  STRING_WILDCARD : string;
  NOT_APPLICABLE : string;
  INT_WILDCARD : Z;
  FUV_X : Z;
  FUV_Y : Z;
  NUV_X : Z;
  NUV_Y : Z;
  DQ_OK : Z;
  DQ_OUT_OF_BOUNDS : Z;
  SEC_PER_DAY : Qc
}.

(** [ccos.geocorrection] rewrites its coordinate arrays [x], [y];
    [ccos.interp1d] fills its last argument; [ccos.clear_rows] rewrites
    [temp].  Nothing more is assumed of them. *)
Class Ccos : Type := {
  geocorrection :
    list Qc -> list Qc -> list (list Qc) -> list (list Qc) -> bool ->
    pyval -> pyval -> pyval -> pyval -> result (list Qc * list Qc);
  interp1d : list Qc -> list Qc -> list Qc -> list Qc -> result (list Qc);
  clear_rows :
    dqgrid -> list Qc -> list Qc -> list Qc -> list Qc -> result dqgrid
}.

(** [N.sin] and [N.pi] in the arithmetic of the model. *)
Class Libm : Type := {
  sin : Qc -> Qc;
  pi : Qc
}.

(** ** ReferenceTableLookup: [getTable] *)

Section ReferenceTableLookup.
Context `{Calcosparam}.

(** [data.field (key)] *)
Definition field (data : fits_rec) (key : string) : result column :=
  match fields data !! key with
  | Some c => Ok c
  | None => Raise (KeyError key)
  end.

(** [column == value], element by element.  A character column holds no
    number and an integer column no string: such a comparison is false in
    every row. *)
Definition column_eq (c : column) (v : pyval) : list bool :=
  match c, v with
  | StrCol l, PStr s => map (fun x => bool_decide (x = s)) l
  | IntCol l, _ =>
      match as_num v with
      | Some n => map (fun x => num_eqb (Int x) n) l
      | None => map (fun _ => false) l
      end
  | StrCol l, _ => map (fun _ => false) l
  end.

(** The body of [for key in filter.keys ()]: one array of flags for each
    non-trivial criterion.  The test for [INT_WILDCARD] in an integer column
    is commented out in the source, so [wild] stays [None] there. *)
Fixpoint select_arrays (data : fits_rec) (items : list (string * pyval))
    : result (list (list bool)) :=
  match items with
  | [] => Ok []
  | (key, v) :: rest =>
      if py_eqb v (PStr STRING_WILDCARD) || py_eqb v (PStr NOT_APPLICABLE)
      then select_arrays data rest
      else
        column ← field data key;
        let selected := column_eq column v in
        let wild :=
          match column with
          | StrCol l => Some (map (fun x => bool_decide (x = STRING_WILDCARD)) l)
          | IntCol _ => None
          end in
        let selected :=
          match wild with
          | Some wild => zip_with orb selected wild
          | None => selected
          end in
        arrays ← select_arrays data rest;
        Ok (selected :: arrays)
  end.

(** Row numbers at which a boolean mask is true. *)
Definition selected_rows (mask : list bool) : list nat :=
  omap (fun '(i, b) => if b : bool then Some i else None) (zip (seq 0 (length mask)) mask).

Definition take_rows {A} (rows : list nat) (l : list A) : list A :=
  omap (fun i => l !! i) rows.

(** [data[selected]] *)
Definition mask_rows (mask : list bool) (data : fits_rec) : fits_rec :=
  let rows := selected_rows mask in
  FitsRec (length rows)
    ((fun c => match c with
               | StrCol l => StrCol (take_rows rows l)
               | IntCol l => IntCol (take_rows rows l)
               end) <$> fields data).

(** The rows [getTable] keeps, as a mask over the rows of [data]. *)
Definition row_mask (data : fits_rec) (filter : pydict) : result (list bool) :=
  arrays ← select_arrays data (map_to_list filter);
  match arrays with
  | [] => Ok (replicate (nrows data) true)
  | selected :: rest => Ok (foldl (zip_with andb) selected rest)
  end.

Definition getTable (table : string) (filter : pydict)
    (exactly_one at_least_one : bool) : M (option fits_rec) :=
  data ← open_table table;
  arrays ← lift (select_arrays data (map_to_list filter));
  let newdata :=
    match arrays with
    | [] => data
    | selected :: rest => mask_rows (foldl (zip_with andb) selected rest) data
    end in
  let nselect := nrows newdata in
  let result := if bool_decide (nselect < 1)%nat then None else Some newdata in
  if (exactly_one || at_least_one) && bool_decide (nselect < 1)%nat
  then raise (RuntimeError ("Table has no matching row; table name is " +:+ table))
  else
    _ ← (if exactly_one && bool_decide (1 < nselect)%nat
         then
           _ ← printWarning "Table has more than one matching row;";
           _ ← printContinuation ("table name is " +:+ table);
           printContinuation "only the first will be used."
         else mret tt);
    mret result.

(** [data.field (key)[0]] of an integer column. *)
Definition field0 (data : fits_rec) (key : string) : result num :=
  c ← field data key;
  match c with
  | IntCol (z :: _) => Ok (Int z)
  | IntCol [] => Raise IndexError
  | StrCol _ => Raise TypeError
  end.

(** ** ActiveAreaLimits: [activeArea] *)

Definition activeArea (segment brftab : string) : M (num * num * num * num) :=
  match String.get 0 segment with
  | None => raise IndexError
  | Some c =>
      if bool_decide (c = "N"%char)
      then mret (Int 0, Int (NUV_Y - 1), Int 0, Int (NUV_X - 1))
      else
        brf_info ← getTable brftab {["segment" := PStr segment]} true false;
        match brf_info with
        | None => raise TypeError
        | Some brf_info =>
            a_low ← lift (field0 brf_info "a_low");
            a_high ← lift (field0 brf_info "a_high");
            a_left ← lift (field0 brf_info "a_left");
            a_right ← lift (field0 brf_info "a_right");
            mret (a_low, a_high, a_left, a_right)
        end
  end.

End ReferenceTableLookup.

(** ** Data-quality arrays *)

(** [g.shape]; the row length of an array without rows is taken as 0. *)
Definition shape {A} (g : list (list A)) : nat * nat :=
  (length g, length (hd [] g)).

(** A slice bound [i] on an axis of length [n], as Python normalises it: a
    negative bound counts from the end. *)
Definition slice_index (n : nat) (i : Z) : Z :=
  if bool_decide (i < 0) then Z.max (i + Z.of_nat n) 0 else Z.min i (Z.of_nat n).

(** [k] is addressed by [start:stop] on an axis of length [n]. *)
Definition in_slice (n : nat) (start stop : Z) (k : nat) : bool :=
  bool_decide (slice_index n start <= Z.of_nat k)
  && bool_decide (Z.of_nat k < slice_index n stop).

(** Rewrite, in place, the cells whose row index satisfies [rows] and whose
    column index satisfies [cols]. *)
Definition update_region (f : Z -> Z) (rows cols : nat -> bool) (g : dqgrid) : dqgrid :=
  imap (fun j row => imap (fun i c => if rows j && cols i then f c else c) row) g.

(** The cell [g[j, i]]. *)
Definition cell (g : dqgrid) (j i : nat) : option Z := g !! j ≫= fun row => row !! i.

(** [N.bitwise_or (a, b)] for arrays of one shape. *)
Definition bitwise_or (a b : dqgrid) : dqgrid := zip_with (zip_with Z.lor) a b.

(** Every bit set in [a] is set in [b]. *)
Definition bits_kept (a b : Z) : Prop :=
  forall n : Z, Z.testbit a n = true -> Z.testbit b n = true.

(** [b] has the shape of [a], and no cell has lost a flag. *)
Definition flags_kept (a b : dqgrid) : Prop :=
  length b = length a /\
  forall j i v, cell a j i = Some v -> exists v', cell b j i = Some v' /\ bits_kept v v'.

Section DataQuality.
Context `{Calcosparam} `{Ccos}.

(** [clearSubarray (temp, x0, x1, y0, y1, dx, dy, x_offset)] *)
Definition clearSubarray (temp : dqgrid) (x0 x1 y0 y1 : num) (dx dy : Z)
    (x_offset : num) : dqgrid :=
  let '(ny, nx) := shape temp in
  let x0 := num_add x0 x_offset in
  let x0 := num_sub x0 (Int dx) in
  let y0 := num_sub y0 (Int dy) in
  let x1 := num_add x1 x_offset in
  let x1 := num_sub x1 (Int dx) in
  let y1 := num_sub y1 (Int dy) in
  let x0 := py_max x0 (Int 0) in
  let y0 := py_max y0 (Int 0) in
  let x1 := py_min x1 (Int (Z.of_nat nx)) in
  let y1 := py_min y1 (Int (Z.of_nat ny)) in
  update_region (fun _ => DQ_OK)
    (in_slice ny (num_index y0) (num_index y1))
    (in_slice nx (num_index x0) (num_index x1)) temp.

(** [applyOffsets (x_left, x_right, nx, dx, x_offset)] *)
Definition applyOffsets (x_left x_right : list Qc) (nx : nat) (dx : Z)
    (x_offset : num) : list Qc * list Qc :=
  let x_left := map (fun v => v + num_Q x_offset)%Qc x_left in
  let x_right := map (fun v => v + num_Q x_offset)%Qc x_right in
  let x_left := map (fun v => v - Zf dx)%Qc x_left in
  let x_right := map (fun v => v - Zf dx)%Qc x_right in
  let x_left := map (fun v => if bool_decide (v < 0)%Qc then 0%Qc else v) x_left in
  let x_right :=
    map (fun v => if bool_decide (Zf (Z.of_nat nx) - 1 < v)%Qc
                  then (Zf (Z.of_nat nx) - 1)%Qc else v) x_right in
  (x_left, x_right).

(** [flagOutsideActiveArea (dq_array, segment, brftab, minmax_shifts,
    minmax_doppler)]; [dq_array] is the array of the [world]. *)
Definition flagOutsideActiveArea (segment brftab : string)
    (minmax_shifts : Qc * Qc * Qc * Qc) (minmax_doppler : Qc * Qc) : M unit :=
  if bool_decide (String.substring 0 3 segment ≠ "FUV"%string) then mret tt
  else
    '(b_low, b_high, b_left, b_right) ← activeArea segment brftab;
    let '(min_shift1, max_shift1, min_shift2, max_shift2) := minmax_shifts in
    let '(mindopp, maxdopp) := minmax_doppler in
    let b_left := num_sub b_left (Int (py_round min_shift1)) in
    let b_right := num_sub b_right (Int (py_round max_shift1)) in
    let b_low := num_sub b_low (Int (py_round min_shift2)) in
    let b_high := num_sub b_high (Int (py_round max_shift2)) in
    let b_left := num_add b_left (Int (py_round maxdopp)) in
    let b_right := num_add b_right (Int (py_round mindopp)) in
    dq ← get_dq;
    let '(ny, nx) := shape dq in
    let flag := Z.lor DQ_OUT_OF_BOUNDS in
    let all := fun _ : nat => true in
    let dq :=
      if num_leb (Int 0) b_low
      then update_region flag (in_slice ny 0 (num_index b_low)) all dq else dq in
    let dq :=
      if num_ltb b_high (Int (Z.of_nat ny - 1))
      then update_region flag (in_slice ny (num_index b_high + 1) (Z.of_nat ny)) all dq
      else dq in
    let dq :=
      if num_leb (Int 0) b_left
      then update_region flag all (in_slice nx 0 (num_index b_left)) dq else dq in
    let dq :=
      if num_ltb b_right (Int (Z.of_nat nx - 1))
      then update_region flag all (in_slice nx (num_index b_right + 1) (Z.of_nat nx)) dq
      else dq in
    put_dq dq.

(** *** DQArrayBuilder: [updateDQArray] *)

(** The statements of [updateDQArray] between [getTable] and [ccos.bindq]:
    the arrays [(lx, ly, ux, uy)] handed to [ccos.bindq], one element for
    each row of the table. *)
Definition smeared_bounds (lx ly dx dy : list Z)
    (minmax_shifts : Qc * Qc * Qc * Qc) (minmax_doppler : Qc * Qc)
    : list Z * list Z * list Z * list Z :=
  let '(min_shift1, max_shift1, min_shift2, max_shift2) := minmax_shifts in
  let '(mindopp, maxdopp) := minmax_doppler in
  let ux := map (fun v => v - 1) (zip_with Z.add lx dx) in
  let uy := map (fun v => v - 1) (zip_with Z.add ly dy) in
  let '(lx, ux) :=
    if bool_decide (0 <= max_shift1)%Qc
    then (map (fun v => v - py_round max_shift1) lx,
          map (fun v => v - py_round min_shift1) ux)
    else (map (fun v => v - py_round min_shift1) lx,
          map (fun v => v - py_round max_shift1) ux) in
  let '(ly, uy) :=
    if bool_decide (0 <= max_shift2)%Qc
    then (map (fun v => v - py_round max_shift2) ly,
          map (fun v => v - py_round min_shift2) uy)
    else (map (fun v => v - py_round min_shift2) ly,
          map (fun v => v - py_round max_shift2) uy) in
  let lx := map (fun v => v + py_round mindopp) lx in
  let ux := map (fun v => v + py_round maxdopp) ux in
  (lx, ly, ux, uy).

(** Modelled from the spec: [ccos.bindq] is C code of the repository that is
    not part of [cosutil.py].  After the spec (4.6): add [x_offset] to the
    dispersion-axis bounds, clip to the grid, and OR each row's flag value
    into the array over the resulting inclusive rectangle. *)
Definition bindq (lx ly ux uy flag : list Z) (dq : dqgrid) (x_offset : Z) : dqgrid :=
  foldl (fun dq '(lx, (ly, (ux, (uy, flag)))) =>
           update_region (Z.lor flag)
             (fun j => bool_decide (ly <= Z.of_nat j <= uy))
             (fun i => bool_decide (lx + x_offset <= Z.of_nat i <= ux + x_offset)) dq)
        dq (zip lx (zip ly (zip ux (zip uy flag)))).

(** An integer column used in arithmetic. *)
Definition int_column (c : column) : result (list Z) :=
  match c with
  | IntCol l => Ok l
  | StrCol _ => Raise TypeError
  end.

(** The rows of the bad-pixel table for this segment and the bounds computed
    from them: what [updateDQArray] passes to [ccos.bindq] ([None] when no
    row matches and the function returns at once). *)
Definition updateDQArray_bounds (bpixtab : string) (info : pydict)
    (minmax_shifts : Qc * Qc * Qc * Qc) (minmax_doppler : Qc * Qc)
    : M (option (list Z * list Z * list Z * list Z * fits_rec)) :=
  segment ← lift (getitem info "segment");
  dq_info ← getTable bpixtab {["segment" := segment]} false false;
  match dq_info with
  | None => mret None
  | Some dq_info =>
      lx ← lift (field dq_info "lx");
      ly ← lift (field dq_info "ly");
      dx ← lift (field dq_info "dx");
      dy ← lift (field dq_info "dy");
      lx ← lift (int_column lx);
      dx ← lift (int_column dx);
      ly ← lift (int_column ly);
      dy ← lift (int_column dy);
      mret (Some (smeared_bounds lx ly dx dy minmax_shifts minmax_doppler, dq_info))
  end.

Definition updateDQArray (bpixtab : string) (info : pydict)
    (minmax_shifts : Qc * Qc * Qc * Qc) (minmax_doppler : Qc * Qc) : M unit :=
  bounds ← updateDQArray_bounds bpixtab info minmax_shifts minmax_doppler;
  match bounds with
  | None => mret tt
  | Some (lx, ly, ux, uy, dq_info) =>
      flag ← lift (field dq_info "dq" ≫= int_column);
      x_offset ← lift (getitem info "x_offset" ≫= need_num);
      dq ← get_dq;
      put_dq (bindq lx ly ux uy flag dq (num_index x_offset))
  end.

End DataQuality.

(** ** OutOfBoundsFlagger: [flagOutOfBounds] *)

(** One entry of the list [subarrays]: the dictionary with keys
    ["x0"], ["x1"], ["y0"], ["y1"]. *)
Record subarray : Type := Sub {
  sub_x0 : num;
  sub_x1 : num;
  sub_y0 : num;
  sub_y1 : num
}.

(** [N.arange (a, b, dtype=N.float32)] *)
Definition arange2 (a b : Qc) : list Qc :=
  map (fun k => a + Zf (Z.of_nat k))%Qc (seq 0 (Z.to_nat (Qceiling (this (b - a)%Qc)))).

Section OutOfBounds.
Context `{Calcosparam} `{Ccos}.

(** [for i in indices: ...], the list of subarray locations read from the
    extension header.  A rectangle of non-positive size and a rectangle of
    the size of the detector are passed over with [continue]. *)
Fixpoint subarray_locations (hdr : pydict) (detector : pyval)
    (xwidth ywidth : Z) (indices : list nat) : result (list subarray) :=
  match indices with
  | [] => Ok []
  | i :: rest =>
      let sub_number := pretty i in
      x0 ← getitem hdr ("corner" +:+ sub_number +:+ "x");
      y0 ← getitem hdr ("corner" +:+ sub_number +:+ "y");
      xsize ← getitem hdr ("size" +:+ sub_number +:+ "x");
      ysize ← getitem hdr ("size" +:+ sub_number +:+ "y");
      if py_le_num xsize (Int 0) || py_le_num ysize (Int 0)
      then subarray_locations hdr detector xwidth ywidth rest
      else if py_eqb detector (PStr "FUV")
              && (py_eqb ysize (PInt FUV_Y) && py_eqb xsize (PInt FUV_X))
      then subarray_locations hdr detector xwidth ywidth rest
      else if py_eqb detector (PStr "NUV")
              && (py_eqb ysize (PInt NUV_Y) && py_eqb xsize (PInt NUV_X))
      then subarray_locations hdr detector xwidth ywidth rest
      else
        x0 ← need_num x0;
        xsize ← need_num xsize;
        y0 ← need_num y0;
        ysize ← need_num ysize;
        let x1 := num_sub (num_add x0 xsize) (Int xwidth) in
        let y1 := num_sub (num_add y0 ysize) (Int ywidth) in
        subarrays ← subarray_locations hdr detector xwidth ywidth rest;
        Ok (Sub x0 x1 y0 y1 :: subarrays)
  end.

(** [if not subarrays: ...]: one full-size "subarray". *)
Definition or_full_size (detector : pyval) (subarrays : list subarray) : list subarray :=
  match subarrays with
  | [] =>
      if py_eqb detector (PStr "FUV")
      then [Sub (Int 0) (Int FUV_X) (Int 0) (Int FUV_Y)]
      else [Sub (Int 0) (Int NUV_X) (Int 0) (Int NUV_Y)]
  | _ => subarrays
  end.

(** The correction for thermal distortion of one subarray. *)
Definition thermal (xintercept xslope yintercept yslope : Qc) (sub : subarray) : subarray :=
  let x0 := sub_x0 sub in
  let x1 := sub_x1 sub in
  let y0 := sub_y0 sub in
  let y1 := sub_y1 sub in
  Sub (Float (xintercept + num_Q x0 * xslope))
      (Float (xintercept + (num_Q x1 - 1) * xslope + 1))
      (Float (yintercept + num_Q y0 * yslope))
      (Float (yintercept + (num_Q y1 - 1) * yslope + 1)).

(** [stim_param[key]], then its element 0 when asked for. *)
Definition stim_list (stim_param : gmap string (list Qc)) (key : string) : result (list Qc) :=
  match stim_param !! key with
  | Some l => Ok l
  | None => Raise (KeyError key)
  end.
Definition item0 (l : list Qc) : result Qc :=
  match l with
  | q :: _ => Ok q
  | [] => Raise IndexError
  end.

(** [if switches["tempcorr"] == "PERFORM": ...] *)
Definition thermal_subarrays (switches : pydict) (stim_param : gmap string (list Qc))
    (subarrays : list subarray) : M (list subarray) :=
  tempcorr ← lift (getitem switches "tempcorr");
  if py_eqb tempcorr (PStr "PERFORM")
  then
    xintercept ← lift (stim_list stim_param "x0");
    xslope ← lift (stim_list stim_param "xslope");
    yintercept ← lift (stim_list stim_param "y0");
    yslope ← lift (stim_list stim_param "yslope");
    _ ← (if bool_decide (length xintercept ≠ 1%nat)
         then printWarning "in flagOutOfBounds, more stim_param than expected"
         else mret tt);
    xintercept ← lift (item0 xintercept);
    xslope ← lift (item0 xslope);
    yintercept ← lift (item0 yintercept);
    yslope ← lift (item0 yslope);
    mret (map (thermal xintercept xslope yintercept yslope) subarrays)
  else mret subarrays.

(** [for sub in subarrays: ...]: the subarrays outside the active area are
    cleared in [temp]; the last of the others is kept in [save_sub] (the
    border arrays the loop prepares are functions of it). *)
Fixpoint scan_subarrays (b_low b_high : num) (dx dy : Z) (x_offset : pyval)
    (subarrays : list subarray) (temp : dqgrid) (nfound : nat)
    (save_sub : option subarray) : result (dqgrid * nat * option subarray) :=
  match subarrays with
  | [] => Ok (temp, nfound, save_sub)
  | sub :: rest =>
      let x0 := sub_x0 sub in
      let x1 := sub_x1 sub in
      let y0 := sub_y0 sub in
      let y1 := sub_y1 sub in
      if num_ltb y1 b_low || num_ltb b_high y0
      then
        x_off ← need_num x_offset;
        scan_subarrays b_low b_high dx dy x_offset rest
          (clearSubarray temp x0 x1 y0 y1 dx dy x_off) nfound save_sub
      else
        scan_subarrays b_low b_high dx dy x_offset rest temp (S nfound) (Some sub)
  end.

(** [getGeoData (geofile, segment)] *)
Definition header_get (h : pydict) (key : string) (default : pyval) : pyval :=
  match h !! key with
  | Some v => v
  | None => default
  end.

Definition getGeoData (geofile segment : string)
    : M (list (list Qc) * pyval * pyval * list (list Qc) * pyval * pyval) :=
  fd ← open_image geofile;
  match fd !! (segment, 1), fd !! (segment, 2) with
  | Some x_hdu, Some y_hdu =>
      let origin_x := header_get (hdu_header x_hdu) "origin_x" (PInt 0) in
      let origin_y := header_get (hdu_header x_hdu) "origin_y" (PInt 0) in
      if negb (py_eqb origin_x (header_get (hdu_header y_hdu) "origin_x" (PInt 0)))
         || negb (py_eqb origin_y (header_get (hdu_header y_hdu) "origin_y" (PInt 0)))
      then raise (RuntimeError "Inconsistent ORIGIN_X or _Y keywords in GEOFILE")
      else
        let xbin := header_get (hdu_header x_hdu) "xbin" (PInt 1) in
        let ybin := header_get (hdu_header x_hdu) "ybin" (PInt 1) in
        if negb (py_eqb xbin (header_get (hdu_header y_hdu) "xbin" (PInt 1)))
           || negb (py_eqb ybin (header_get (hdu_header y_hdu) "ybin" (PInt 1)))
        then raise (RuntimeError "Inconsistent XBIN or YBIN keywords in GEOFILE")
        else mret (hdu_data x_hdu, origin_x, xbin, hdu_data y_hdu, origin_y, ybin)
  | _, _ => raise (KeyError segment)
  end.

(** The branch [if switches["geocorr"] == "PERFORM": ...] once [save_sub] is
    known: the four borders are undistorted, interpolated onto the pixel
    grid, offset, and the rows between them cleared in [temp]. *)
Definition clear_distorted (temp : dqgrid) (sub : subarray) (interp_flag : bool)
    (geo : list (list Qc) * pyval * pyval * list (list Qc) * pyval * pyval)
    (dx dy : Z) (x_offset : pyval) : result dqgrid :=
  let '(x_data, origin_x, xbin, y_data, origin_y, ybin) := geo in
  let '(ny, nx) := shape temp in
  let x0 := num_Q (sub_x0 sub) in
  let x1 := num_Q (sub_x1 sub) in
  let y0 := num_Q (sub_y0 sub) in
  let y1 := num_Q (sub_y1 sub) in
  let x_lower := arange2 x0 x1 in
  let x_upper := arange2 x0 x1 in
  let y_left := arange2 y0 y1 in
  let y_right := arange2 y0 y1 in
  let y_lower := map (fun v => y0 + 0 * v)%Qc x_lower in
  let y_upper := map (fun v => (y1 - 1) + 0 * v)%Qc x_upper in
  let x_left := map (fun v => x0 + 0 * v)%Qc y_left in
  let x_right := map (fun v => (x1 - 1) + 0 * v)%Qc y_right in
  '(x_lower, y_lower) ← geocorrection x_lower y_lower x_data y_data interp_flag
                                       origin_x origin_y xbin ybin;
  '(x_upper, y_upper) ← geocorrection x_upper y_upper x_data y_data interp_flag
                                       origin_x origin_y xbin ybin;
  '(x_left, y_left) ← geocorrection x_left y_left x_data y_data interp_flag
                                     origin_x origin_y xbin ybin;
  '(x_right, y_right) ← geocorrection x_right y_right x_data y_data interp_flag
                                       origin_x origin_y xbin ybin;
  y_lower_interp ← interp1d x_lower y_lower (arange nx) (arange nx);
  y_upper_interp ← interp1d x_upper y_upper (arange nx) (arange nx);
  x_left_interp ← interp1d y_left x_left (arange ny) (arange ny);
  x_right_interp ← interp1d y_right x_right (arange ny) (arange ny);
  let '(y_lower, y_upper) := applyOffsets y_lower_interp y_upper_interp ny dy (Int 0) in
  x_off ← need_num x_offset;
  let '(x_left, x_right) := applyOffsets x_left_interp x_right_interp nx dx x_off in
  clear_rows temp y_lower y_upper x_left x_right.

(** [indices] *)
Definition subarray_indices (phdr : pydict) (detector nsubarrays : pyval)
    : result (list nat) :=
  if py_eqb detector (PStr "FUV")
  then
    segment ← getitem phdr "segment";
    if py_eqb segment (PStr "FUVB") then Ok (seq 4 4) else Ok (seq 0 4)
  else
    n ← need_num nsubarrays;
    match n with
    | Int z => Ok (seq 0 (Z.to_nat z))
    | Float q => Ok (seq 0 (Z.to_nat (Qceiling (this q))))
    end.

(** [flagOutOfBounds (phdr, hdr, dq_array, stim_param, info, switches,
    brftab, geofile, minmax_shifts, minmax_doppler)]; [dq_array] is the
    array of the [world]. *)
Definition flagOutOfBounds (phdr hdr : pydict) (stim_param : gmap string (list Qc))
    (info switches : pydict) (brftab geofile : string)
    (minmax_shifts : Qc * Qc * Qc * Qc) (minmax_doppler : Qc * Qc) : M unit :=
  match phdr !! "subarray" with
  | None => mret tt
  | Some subarray_flag =>
  if negb (py_truth subarray_flag) then mret tt
  else
  let nsubarrays := header_get hdr "nsubarry" (PInt 0) in
  if py_lt_num nsubarrays (Int 1) then mret tt
  else
    x_offset ← lift (getitem info "x_offset");
    detector ← lift (getitem info "detector");
    segment ← lift (getitem info "segment");
    indices ← lift (subarray_indices phdr detector nsubarrays);
    dq ← get_dq;
    let temp := dq in
    let '(ny, nx) := shape dq in
    let '(min_shift1, max_shift1, min_shift2, max_shift2) := minmax_shifts in
    let '(mindopp, maxdopp) := minmax_doppler in
    let dx := min_shift1 in
    let dy := min_shift2 in
    let dx := (dx - maxdopp)%Qc in
    let dx := py_round dx in
    let dy := py_round dy in
    let xwidth := py_round (max_shift1 - min_shift1 + maxdopp - mindopp)%Qc in
    let ywidth := py_round (max_shift2 - min_shift2)%Qc in
    subarrays ← lift (subarray_locations hdr detector xwidth ywidth indices);
    let subarrays := or_full_size detector subarrays in
    let temp := map (map (fun _ => DQ_OUT_OF_BOUNDS)) temp in
    subarrays ← thermal_subarrays switches stim_param subarrays;
    segment ← lift (match segment with PStr s => Ok s | _ => Raise TypeError end);
    '(b_low, b_high, b_left, b_right) ← activeArea segment brftab;
    '(temp, nfound, save_sub) ←
      lift (scan_subarrays b_low b_high dx dy x_offset subarrays temp 0 None);
    _ ← (if bool_decide (nfound = 0%nat)
         then printWarning
           "in flagOutOfBounds, there should be at least one full-size 'subarray'"
         else mret tt);
    _ ← (if bool_decide (1 < nfound)%nat
         then printWarning "in flagOutOfBounds, more subarrays than expected"
         else mret tt);
    geocorr ← lift (getitem switches "geocorr");
    temp ←
      (if py_eqb geocorr (PStr "PERFORM")
       then
         igeocorr ← lift (getitem switches "igeocorr");
         let interp_flag := py_eqb igeocorr (PStr "PERFORM") in
         geo ← getGeoData geofile segment;
         match save_sub with
         | None => raise NameError
         | Some sub => lift (clear_distorted temp sub interp_flag geo dx dy x_offset)
         end
       else
         match save_sub with
         | Some sub =>
             x_off ← lift (need_num x_offset);
             mret (clearSubarray temp (sub_x0 sub) (sub_x1 sub) (sub_y0 sub)
                     (sub_y1 sub) dx dy x_off)
         | None => mret temp
         end);
    dq ← get_dq;
    if bool_decide (Forall2 (fun r s => length r = length s) temp dq)
    then put_dq (bitwise_or dq temp)
    else raise ValueError
  end.

End OutOfBounds.

(** ** DopplerShiftEstimator: [minmaxDoppler] *)

Section Doppler.
Context `{Calcosparam} `{Libm}.

(** [shift.min ()], [shift.max ()] of a non-empty array. *)
Definition array_min (l : list Qc) : result Qc :=
  match l with
  | [] => Raise ValueError
  | q :: qs => Ok (foldl Qcmin q qs)
  end.
Definition array_max (l : list Qc) : result Qc :=
  match l with
  | [] => Raise ValueError
  | q :: qs => Ok (foldl Qcmax q qs)
  end.

(** [minmaxDoppler (info, doppcorr, doppmag, doppzero, orbitper)].  A zero
    [orbitper] takes numpy to inf/nan; the model stops there. *)
Definition minmaxDoppler (info : pydict) (doppcorr : string)
    (doppmag doppzero orbitper : Qc) : result (Qc * Qc) :=
  if bool_decide (doppcorr = "PERFORM"%string)
  then
    expstart ← getitem info "expstart";
    exptime ← getitem info "exptime";
    dispaxis ← getitem info "dispaxis" ≫= need_num;
    let axis := num_sub (Int 2) dispaxis in
    exptime ← need_num exptime;
    let nelem := py_round (num_Q exptime) in
    let nelem := Z.max nelem 1 in
    expstart ← need_num expstart;
    let time :=
      map (fun t => t + (num_Q expstart - doppzero) * SEC_PER_DAY)%Qc
          (arange (Z.to_nat nelem)) in
    if bool_decide (orbitper = 0%Qc) then Raise ZeroDivisionError
    else
      let shift := map (fun t => - doppmag * sin (2 * pi * t / orbitper))%Qc time in
      mindopp ← array_min shift;
      maxdopp ← array_max shift;
      Ok (mindopp, maxdopp)
  else Ok (0%Qc, 0%Qc).

End Doppler.

(** ** StatisticsAggregator: [computeStat], [combineStat] *)

(** The dictionary [stat_info]; [computeStat] and [combineStat] always build
    it with these five keys. *)
Record stat : Type := Stat {
  ngoodpix : Z;
  sci_goodmax : Qc;
  sci_goodmean : Qc;
  err_goodmax : Qc;
  err_goodmean : Qc
}.

(** [N.where (serious_dq == 0)]: the index pairs [(j, i)], row by row. *)
Definition where_zero (g : dqgrid) : list (nat * nat) :=
  concat (imap (fun j row =>
                  omap (fun '(i, v) => if bool_decide (v = 0) then Some (j, i) else None)
                       (zip (seq 0 (length row)) row)) g).

(** [band[mask]]: an index outside [band] raises IndexError. *)
Definition take_mask (band : list (list Qc)) (mask : list (nat * nat)) : result (list Qc) :=
  mapM (fun '(j, i) =>
          match band !! j ≫= fun row => row !! i with
          | Some v => Ok v
          | None => Raise IndexError
          end) mask.

(** [N.maximum.reduce (a)] *)
Definition maximum_reduce (a : list Qc) : result Qc :=
  match a with
  | [] => Raise ValueError
  | q :: qs => Ok (foldl Qcmax q qs)
  end.

(** [N.sum (a)] *)
Definition array_sum (a : list Qc) : Qc := foldl Qcplus 0%Qc a.

(** [a / n] with the division made explicit: a zero divisor raises.
    ([npix] below is the local variable [ngoodpix] of the source.) *)
Definition py_div (a : Qc) (n : Z) : result Qc :=
  if bool_decide (n = 0) then Raise ZeroDivisionError else Ok (a / Zf n)%Qc.

Definition computeStat (sci_band : list (list Qc)) (err_band : option (list (list Qc)))
    (dq_band : option dqgrid) (sdqflags : Z) : result stat :=
  let stat_info := Stat 0 0%Qc 0%Qc 0%Qc 0%Qc in
  let mask :=
    match dq_band with
    | None => None
    | Some dq_band =>
        let serious_dq := map (map (fun v => Z.land v sdqflags)) dq_band in
        Some (where_zero serious_dq)
    end in
  sci_good ←
    match mask with
    | None => Ok (concat sci_band)
    | Some mask => take_mask sci_band mask
    end;
  let npix := Z.of_nat (length sci_good) in
  let stat_info :=
    Stat npix (sci_goodmax stat_info) (sci_goodmean stat_info)
         (err_goodmax stat_info) (err_goodmean stat_info) in
  stat_info ←
    (if bool_decide (0 < npix)
     then
       gmax ← maximum_reduce sci_good;
       gmean ← py_div (array_sum sci_good) npix;
       Ok (Stat (ngoodpix stat_info) gmax gmean
                (err_goodmax stat_info) (err_goodmean stat_info))
     else Ok stat_info);
  match err_band with
  | None => Ok stat_info
  | Some err_band =>
      err_good ←
        match mask with
        | None => Ok (concat err_band)
        | Some mask => take_mask err_band mask
        end;
      if bool_decide (0 < npix)
      then
        gmax ← maximum_reduce err_good;
        gmean ← py_div (array_sum err_good) npix;
        Ok (Stat (ngoodpix stat_info) (sci_goodmax stat_info)
                 (sci_goodmean stat_info) gmax gmean)
      else Ok stat_info
  end.

(** The accumulators [(sum_n, sci_max, sci_sum, err_max, err_sum)] of
    [combineStat] after one more element of the list. *)
Definition combine_step (acc : Z * Qc * Qc * Qc * Qc) (s : stat)
    : Z * Qc * Qc * Qc * Qc :=
  let '(sum_n, sci_max, sci_sum, err_max, err_sum) := acc in
  let n := ngoodpix s in
  if bool_decide (0 < n)
  then (sum_n + n,
        Qcmax sci_max (sci_goodmax s),
        (sci_sum + Zf n * sci_goodmean s)%Qc,
        Qcmax err_max (err_goodmax s),
        (err_sum + Zf n * err_goodmean s)%Qc)
  else acc.

Definition combineStat (stat_info : list stat) : stat :=
  match stat_info with
  | [s] => s
  | _ =>
      let '(sum_n, sci_max, sci_sum, err_max, err_sum) :=
        foldl combine_step (0, 0%Qc, 0%Qc, 0%Qc, 0%Qc) stat_info in
      let '(sci_sum, err_sum) :=
        if bool_decide (0 < sum_n)
        then ((sci_sum / Zf sum_n)%Qc, (err_sum / Zf sum_n)%Qc)
        else (sci_sum, err_sum) in
      Stat sum_n sci_max sci_sum err_max err_sum
  end.

(** ** Vocabulary of the statements *)

(** [passes w c d tiny k x x']: [k] passes of the loop body of
    [evalInvDisp] lead from [x] to [x'], none of them raising and none with
    a largest step below [tiny]. *)
Inductive passes (wavelength : ndval) (coeff : list Qc) (delta tiny : Qc)
  : nat -> ndval -> ndval -> Prop :=
| passes_O x : passes wavelength coeff delta tiny 0 x x
| passes_S k x x' x'' d :
    newton_pass wavelength coeff delta x = Ok (x', d) ->
    ¬ (d < tiny)%Qc ->
    passes wavelength coeff delta tiny k x' x'' ->
    passes wavelength coeff delta tiny (S k) x x''.

(** An operation leaves the DQ array of the [world] alone, or only adds
    flags to it. *)
Definition keeps_dq {A} (m : M A) : Prop :=
  forall w, dq_array (snd (m w)) = dq_array w.
Definition keeps_flags {A} (m : M A) : Prop :=
  forall w, flags_kept (dq_array w) (dq_array (snd (m w))).

(** [m] is the least (largest) of the [n] values [f 0 .. f (n-1)]. *)
Definition is_min_of (m : Qc) (n : nat) (f : nat -> Qc) : Prop :=
  (exists k, (k < n)%nat /\ m = f k) /\ forall k, (k < n)%nat -> (m <= f k)%Qc.
Definition is_max_of (m : Qc) (n : nat) (f : nat -> Qc) : Prop :=
  (exists k, (k < n)%nat /\ m = f k) /\ forall k, (k < n)%nat -> (f k <= m)%Qc.

Section DopplerSamples.
Context `{Calcosparam} `{Libm}.

(** The Doppler shift at [t] seconds after [doppzero], and its [k]-th
    sample: one second apart, the first one at the start of the exposure. *)
Definition doppler_shift (doppmag orbitper t : Qc) : Qc :=
  (- doppmag * sin (2 * pi * t / orbitper))%Qc.

Definition doppler_sample (expstart doppzero doppmag orbitper : Qc) (k : nat) : Qc :=
  doppler_shift doppmag orbitper ((expstart - doppzero) * SEC_PER_DAY + Zf (Z.of_nat k))%Qc.

End DopplerSamples.

(** The rectangle of one bad-pixel row [(lx, ly, dx, dy)] as the
    description of [updateDQArray] has it: [(lx', ly', ux', uy')]. *)
Definition claimed_bounds (minmax_shifts : Qc * Qc * Qc * Qc) (minmax_doppler : Qc * Qc)
    (lx ly dx dy : Z) : Z * Z * Z * Z :=
  let '(min_shift1, max_shift1, min_shift2, max_shift2) := minmax_shifts in
  let '(mindopp, maxdopp) := minmax_doppler in
  let ux := lx + dx - 1 in
  let uy := ly + dy - 1 in
  ((if bool_decide (0 <= max_shift1)%Qc
    then lx - py_round max_shift1 else lx - py_round min_shift1) + py_round mindopp,
   (if bool_decide (0 <= max_shift2)%Qc
    then ly - py_round max_shift2 else ly - py_round min_shift2),
   (if bool_decide (0 <= max_shift1)%Qc
    then ux - py_round min_shift1 else ux - py_round max_shift1) + py_round maxdopp,
   (if bool_decide (0 <= max_shift2)%Qc
    then uy - py_round min_shift2 else uy - py_round max_shift2)).

(** No pixel is good: every entry of the flags array has a serious flag, or
    there is no flags array and the science array is empty. *)
Definition no_good_pixel (sci_band : list (list Qc)) (dq_band : option dqgrid)
    (sdqflags : Z) : Prop :=
  match dq_band with
  | Some dq_band => forall row v, row ∈ dq_band -> v ∈ row -> Z.land v sdqflags <> 0
  | None => concat sci_band = []
  end.

(** ** Concrete inputs *)

(** Constants for the evaluations below.  [NUV_X = NUV_Y = 1024] is in the
    docstring of [activeArea] and [DQ_OK = 0] in that of [clearSubarray];
    the others are the values calcos gives them.  No statement depends on
    more than [DQ_OK <> DQ_OUT_OF_BOUNDS] and [INT_WILDCARD] being an
    integer. *)
Definition cos_constants : Calcosparam :=
  {| STRING_WILDCARD := "ANY"; NOT_APPLICABLE := "N/A"; INT_WILDCARD := -1;
     FUV_X := 16384; FUV_Y := 1024; NUV_X := 1024; NUV_Y := 1024;
     DQ_OK := 0; DQ_OUT_OF_BOUNDS := 128; SEC_PER_DAY := Zf 86400 |}.

(** For runs that never reach the C extension ([geocorr] not PERFORM). *)
Definition ccos_absent : Ccos :=
  {| geocorrection := fun _ _ _ _ _ _ _ _ _ => Raise (RuntimeError "ccos");
     interp1d := fun _ _ _ _ => Raise (RuntimeError "ccos");
     clear_rows := fun _ _ _ _ _ => Raise (RuntimeError "ccos") |}.

(** A [sin] for evaluations: the first term of its series. *)
Definition libm_linear : Libm := {| sin := fun t => t; pi := Q2Qc (355 # 113) |}.

(** The polynomial [x^3 - 2x + 2]: Newton's method from [x = 0] goes
    0, 1, 0, 1, ... *)
Definition cycle_coeff : list Qc := [Zf 2; Zf (-2); Zf 0; Zf 1].

(** The polynomial [(x + 1)^2] (with [delta = -1]): every pass halves the
    distance to the double root. *)
Definition square_coeff : list Qc := [0%Qc; 0%Qc; 1%Qc].
Definition half : Qc := (/ (1 + 1))%Qc.
Fixpoint halved (m : nat) (h : Qc) : Qc :=
  match m with
  | O => h
  | S m' => halved m' (h * half)%Qc
  end.

Definition no_shift : Qc * Qc * Qc * Qc := (0%Qc, 0%Qc, 0%Qc, 0%Qc).
Definition no_doppler : Qc * Qc := (0%Qc, 0%Qc).

Definition empty_world (dq : dqgrid) : world := World ∅ ∅ dq [] [].

(** An NUV exposure with two subarrays in its header, the first of them of
    width 0; no thermal and no geometric correction. *)
Definition nuv_info : pydict :=
  {[ "x_offset" := PInt 0; "detector" := PStr "NUV"; "segment" := PStr "NUVA" ]}.
Definition omit_switches : pydict :=
  {[ "tempcorr" := PStr "OMIT"; "geocorr" := PStr "OMIT" ]}.
Definition subarray_phdr : pydict := {[ "subarray" := PBool true ]}.
Definition full_frame_phdr : pydict := {[ "subarray" := PBool false ]}.
Definition degenerate_hdr : pydict :=
  {[ "nsubarry" := PInt 2;
     "corner0x" := PInt 0; "corner0y" := PInt 0; "size0x" := PInt 0; "size0y" := PInt 2;
     "corner1x" := PInt 1; "corner1y" := PInt 1; "size1x" := PInt 2; "size1y" := PInt 2 ]}.
Definition zeros4 : dqgrid := replicate 4 (replicate 4 0).
Definition flagged4 : dqgrid := replicate 4 (replicate 4 128).

(** An integer wildcard in the table, and a string wildcard in the table. *)
Definition wild_int_table : fits_rec :=
  FitsRec 1 {[ "opt_elem" := StrCol ["G130M"%string]; "cenwave" := IntCol [-1] ]}.
Definition wild_str_table : fits_rec :=
  FitsRec 1 {[ "opt_elem" := StrCol ["ANY"%string]; "cenwave" := IntCol [1309] ]}.
Definition cenwave_filter : pydict := {[ "cenwave" := PInt 1309 ]}.
Definition opt_elem_filter : pydict := {[ "opt_elem" := PStr "G130M" ]}.

(** Statistics of two one-pixel segments with negative science values. *)
Definition neg_stat1 : stat := Stat 1 (Zf (-1)) (Zf (-1)) 0%Qc 0%Qc.
Definition neg_stat2 : stat := Stat 1 (Zf (-2)) (Zf (-2)) 0%Qc 0%Qc.

(** What [combineStat] sums over: the records with a positive count. *)
Definition counted (l : list stat) : list stat :=
  filter (fun s => 0 < ngoodpix s) l.
Definition sum_counts (l : list stat) : Z := foldr (fun s a => ngoodpix s + a) 0 l.
Definition weighted_sum (f : stat -> Qc) (l : list stat) : Qc :=
  foldr (fun s a => Zf (ngoodpix s) * f s + a)%Qc 0%Qc l.
Definition max_from (f : stat -> Qc) (m0 : Qc) (l : list stat) : Qc :=
  foldl (fun m s => Qcmax m (f s)) m0 l.

(** What the row selection of [getTable] amounts to, cell by cell. *)
Definition column_length (c : column) : nat :=
  match c with
  | StrCol l => length l
  | IntCol l => length l
  end.

(** Every column has one cell for each row. *)
Definition well_formed_table (data : fits_rec) : Prop :=
  forall key c, fields data !! key = Some c -> column_length c = nrows data.

Section RowCriterion.
Context `{Calcosparam}.

(** The filter value is a wildcard. *)
Definition filter_wildcard (v : pyval) : bool :=
  py_eqb v (PStr STRING_WILDCARD) || py_eqb v (PStr NOT_APPLICABLE).

(** The cell of row [i] equals the filter value, or it is the wildcard of a
    character column. *)
Definition cell_matches (c : column) (v : pyval) (i : nat) : bool :=
  match c with
  | StrCol l =>
      match l !! i with
      | Some s => py_eqb (PStr s) v || bool_decide (s = STRING_WILDCARD)
      | None => false
      end
  | IntCol l =>
      match l !! i with
      | Some z => py_eqb (PInt z) v
      | None => false
      end
  end.

Definition criterion (data : fits_rec) (i : nat) (key : string) (v : pyval) : Prop :=
  filter_wildcard v = true \/
  exists c, fields data !! key = Some c /\ cell_matches c v i = true.

End RowCriterion.

(** ** Further vocabulary: the dispersion polynomial *)

(** The polynomial with coefficients [coeff] at [t], and its derivative,
    term by term. *)
Definition poly_value (coeff : list Qc) (t : Qc) : Qc :=
  foldr Qcplus 0%Qc (imap (fun i c => c * t ^ i)%Qc coeff).
Definition poly_slope (coeff : list Qc) (t : Qc) : Qc :=
  foldr Qcplus 0%Qc (imap (fun i c => Zf (Z.of_nat i) * c * t ^ (i - 1))%Qc coeff).

(** The state after [file] has been opened, and after the lines [msgs]
    have been printed (the latest line first). *)
Definition opened_with (file : string) (w : world) : world :=
  World (tables w) (images w) (dq_array w) (file :: opened w) (warnings w).
Definition warned_with (msgs : list string) (w : world) : world :=
  World (tables w) (images w) (dq_array w) (opened w) (msgs ++ warnings w).

(** A baseline reference frame table with one row for each FUV segment,
    and a state that has it on disk. *)
Definition brf_table : fits_rec :=
  FitsRec 2 {[ "segment" := StrCol ["FUVA"%string; "FUVB"%string];
               "a_low" := IntCol [1; 2]; "a_high" := IntCol [5; 6];
               "a_left" := IntCol [2; 2]; "a_right" := IntCol [6; 6] ]}.
Definition brf_world (dq : dqgrid) : world :=
  World {[ "brf.fits"%string := brf_table ]} ∅ dq [] [].
Definition fuva_filter : pydict := {[ "segment" := PStr "FUVA" ]}.

(** The row of [brf_table] for segment FUVA. *)
Definition fuva_rows : fits_rec :=
  FitsRec 1 {[ "segment" := StrCol ["FUVA"%string];
               "a_low" := IntCol [1]; "a_high" := IntCol [5];
               "a_left" := IntCol [2]; "a_right" := IntCol [6] ]}.

(** A filter with a wildcard value. *)
Definition any_filter : pydict := {[ "segment" := PStr "ANY" ]}.

(** A bad-pixel table with rows for segment FUVB only. *)
Definition bpix_table : fits_rec :=
  FitsRec 1 {[ "segment" := StrCol ["FUVB"%string];
               "lx" := IntCol [1]; "ly" := IntCol [1];
               "dx" := IntCol [2]; "dy" := IntCol [2]; "dq" := IntCol [16] ]}.
Definition bpix_world (dq : dqgrid) : world :=
  World {[ "bpix.fits"%string := bpix_table ]} ∅ dq [] [].
Definition fuva_info : pydict :=
  {[ "x_offset" := PInt 0; "detector" := PStr "FUV"; "segment" := PStr "FUVA" ]}.

(** An exception leaves the DQ array of the [world] as it was. *)
Definition raise_keeps_dq {A} (m : M A) : Prop :=
  forall w e w', m w = (Raise e, w') -> dq_array w' = dq_array w.

(** An extension header with one 2 x 2 subarray at (1, 1). *)
Definition one_subarray_hdr : pydict :=
  {[ "nsubarry" := PInt 1;
     "corner0x" := PInt 1; "corner0y" := PInt 1; "size0x" := PInt 2; "size0y" := PInt 2 ]}.


(** ** VersionComparison: [cmpVersion], [cmpPart] *)

(** [ord (c)] *)
Definition ord (c : ascii) : Z := Z.of_N (N_of_ascii c).

(** The builtin [int (s)] on a string enters as a parameter: [cmpPart]
    applies it to prefixes of a part, and what it returns on a string that is
    not a plain decimal number is left open. *)
Class Builtin : Type := {
  int_of_str : string -> result Z
}.


Section VersionComparison.
Context `{Builtin}.

(** The loop [for i in range (len (s)): ...] of [cmpPart], from index [i]
    on, with [n] elements of the range left: the number and the appended
    string of the part [s]. *)
Fixpoint split_part (s : string) (n i : nat) (int1 : Z) : result (Z * string) :=
  match n with
  | O => Ok (int1, ""%string)
  | S n' =>
      match String.get i s with
      | None => Raise IndexError
      | Some ch =>
          if bool_decide (ord "9" < ord ch)
          then
            int1 ← (if bool_decide (0 < i)%nat
                    then int_of_str (String.substring 0 i s) else Ok int1);
            Ok (int1, String.substring i (String.length s - i) s)
          else
            int1 ← int_of_str (String.substring 0 (i + 1) s);
            split_part s n' (S i) int1
      end
  end.

(** The loop that breaks a tie on the appended strings, and the two
    statements after it. *)
Fixpoint cmp_letters (str1 str2 : string) (n i : nat) : result Z :=
  match n with
  | O => if bool_decide (String.length str1 < String.length str2)%nat then Ok (-1) else Ok 1
  | S n' =>
      match String.get i str1, String.get i str2 with
      | Some c1, Some c2 =>
          if bool_decide (ord c1 < ord c2) then Ok (-1)
          else if bool_decide (ord c2 < ord c1) then Ok 1
          else cmp_letters str1 str2 n' (S i)
      | _, _ => Raise IndexError
      end
  end.

(** [cmpPart (s1, s2)] *)
Definition cmpPart (s1 s2 : string) : result Z :=
  if bool_decide (s1 = s2) then Ok 0
  else
    '(int1, str1) ← split_part s1 (String.length s1) 0 0;
    '(int2, str2) ← split_part s2 (String.length s2) 0 0;
    if bool_decide (int1 < int2) then Ok (-1)
    else if bool_decide (int2 < int1) then Ok 1
    else if bool_decide (str1 = str2) then Ok 0
    else if bool_decide (str1 = ""%string) then Ok (-1)
    else if bool_decide (str2 = ""%string) then Ok 1
    else cmp_letters str1 str2 (Nat.min (String.length str1) (String.length str2)) 0.

(** [s.split ('.')] *)
Fixpoint split_dot (s : string) : list string :=
  match s with
  | EmptyString => [""%string]
  | String c r =>
      if bool_decide (c = "."%char) then ""%string :: split_dot r
      else match split_dot r with
           | part :: parts => String c part :: parts
           | [] => [String c ""]
           end
  end.

(** How the loop over the parts ends: with a [return], or by running to its
    end with the two flags. *)
Inductive parts_exit : Type :=
| Returned (value : Z)
| Finished (passed_min_test passed_calcos_test : bool).

(** [for i in range (length): ...] of [cmpVersion], from index [i] on. *)
Fixpoint cmp_parts (minv phdrv calv : list string) (n i : nat)
    (passed_min_test passed_calcos_test : bool) : result parts_exit :=
  match n with
  | O => Ok (Finished passed_min_test passed_calcos_test)
  | S n' =>
      match minv !! i, phdrv !! i, calv !! i with
      | Some m, Some p, Some c =>
          let calcos_test passed_min_test :=
            if passed_calcos_test
            then cmp_parts minv phdrv calv n' (S i) passed_min_test passed_calcos_test
            else
              cmp ← cmpPart p c;
              if bool_decide (cmp < 0)
              then cmp_parts minv phdrv calv n' (S i) passed_min_test true
              else if bool_decide (0 < cmp) then Ok (Returned 1)
              else cmp_parts minv phdrv calv n' (S i) passed_min_test passed_calcos_test in
          if passed_min_test then calcos_test passed_min_test
          else
            cmp ← cmpPart m p;
            if bool_decide (cmp < 0) then calcos_test true
            else if bool_decide (0 < cmp) then Ok (Returned (-1))
            else calcos_test passed_min_test
      | _, _, _ => Raise IndexError
      end
  end.

(** [cmpVersion (min_ver, phdr_ver, calcos_ver)]; [nparts] is the local
    variable [length] of the source. *)
Definition cmpVersion (min_ver phdr_ver calcos_ver : string) : result Z :=
  let minv := split_dot min_ver in
  let phdrv := split_dot phdr_ver in
  let calv := split_dot calcos_ver in
  let nparts := Nat.min (Nat.min (length minv) (length phdrv)) (length calv) in
  exit ← cmp_parts minv phdrv calv nparts 0 false false;
  match exit with
  | Returned value => Ok value
  | Finished passed_min_test passed_calcos_test =>
      if passed_min_test || passed_calcos_test then Ok 0
      else if bool_decide (length phdrv < length minv)%nat then Ok (-1)
      else if bool_decide (length calv < length phdrv)%nat then Ok 1
      else Ok 0
  end.


End VersionComparison.

(** A string of decimal digits, and the number it writes. *)
Definition is_digit (c : ascii) : bool :=
  bool_decide (ord "0" <= ord c <= ord "9").
Fixpoint all_digits (s : string) : bool :=
  match s with
  | EmptyString => true
  | String c r => is_digit c && all_digits r
  end.
Fixpoint decimal_from (acc : Z) (s : string) : Z :=
  match s with
  | EmptyString => acc
  | String c r => decimal_from (10 * acc + (ord c - ord "0")) r
  end.
Definition decimal (s : string) : Z := decimal_from 0 s.

(** [int] agrees with [decimal] on non-empty strings of digits. *)
Definition int_reads_decimal `{Builtin} : Prop :=
  forall s, s <> ""%string -> all_digits s = true -> int_of_str s = Ok (decimal s).

(** The appended string of a part: empty, or starting after ['9']. *)
Definition letters (t : string) : Prop :=
  match t with
  | EmptyString => True
  | String c _ => ord "9" < ord c
  end.

(** -1, 0, 1 for less, equal, greater. *)
Definition sign_of (c : comparison) : Z :=
  match c with
  | Lt => -1
  | Eq => 0
  | Gt => 1
  end.

(** An [int] for evaluations: decimal digits only. *)
Definition int_decimal_only : Builtin :=
  {| int_of_str := fun s =>
       if all_digits s && negb (bool_decide (s = ""%string))
       then Ok (decimal s) else Raise ValueError |}.


(** ** Template spectrum: [getTemplate] *)

(** [template[start:stop] = values] on a 1-D array.  The bounds are
    normalised as for every slice; numpy takes [values] of the length of the
    slice, or of length 1 (broadcast), and raises ValueError otherwise. *)
Definition assign_slice (template : list Qc) (start stop : Z) (values : list Qc)
    : result (list Qc) :=
  let n := length template in
  let a := Z.to_nat (slice_index n start) in
  let b := Z.to_nat (slice_index n stop) in
  let k := (b - a)%nat in
  if bool_decide (length values = k)
  then Ok (take a template ++ values ++ drop (a + k) template)
  else
    match values with
    | [v] => Ok (take a template ++ replicate k v ++ drop (a + k) template)
    | _ => Raise ValueError
    end.

(** [getTemplate (raw_template, x_offset, nelem)]; [N.zeros] raises
    ValueError for a negative length. *)
Definition getTemplate (raw_template : list Qc) (x_offset nelem : Z) : result (list Qc) :=
  let len_raw := Z.of_nat (length raw_template) in
  if bool_decide (x_offset = 0) && bool_decide (nelem = len_raw)
  then Ok raw_template
  else if bool_decide (nelem < 0) then Raise ValueError
  else
    let template := replicate (Z.to_nat nelem) 0%Qc in
    assign_slice template x_offset (len_raw + x_offset) raw_template.


(** ** The DQ array of an input file: [getInputDQ] *)

(** The sizes of the extended formats, from [calcosparam]. *)
Class ExtendedFormat : Type := {
  FUV_EXTENDED_X : Z;
  FUV_X_OFFSET : Z;
  NUV_EXTENDED_X : Z;
  NUV_X_OFFSET : Z
}.


Section InputDQ.
Context `{Calcosparam} `{ExtendedFormat}.

(** [N.zeros (npix, dtype=N.int16)] *)
Definition zeros (npix : Z * Z) : result dqgrid :=
  let '(ny, nx) := npix in
  if bool_decide (ny < 0) || bool_decide (nx < 0) then Raise ValueError
  else Ok (replicate (Z.to_nat ny) (replicate (Z.to_nat nx) 0)).

(** [getInputDQ (input)].  The file [input] enters by what is read from it:
    the primary header [phdr], and the header [hdr] and the data [data] of
    its extension ("DQ", 1) ([data] is not looked at when NAXIS is 0).  The
    name [len_raw] has no definition in the function or the module: the
    statement that uses it raises NameError.  A PIXVALUE is a number; the
    model raises TypeError on a string. *)
Definition getInputDQ (phdr hdr : pydict) (data : dqgrid) : result dqgrid :=
  detector ← getitem phdr "detector";
  obsmode ← getitem phdr "obsmode";
  let '(npix, x_offset) :=
    if py_eqb detector (PStr "FUV")
    then ((FUV_Y, FUV_EXTENDED_X), FUV_X_OFFSET)
    else if py_eqb obsmode (PStr "IMAGING")
         then ((NUV_Y, NUV_X), 0)
         else ((NUV_Y, NUV_EXTENDED_X), NUV_X_OFFSET) in
  naxis ← getitem hdr "naxis";
  if negb (py_le_num naxis (Int 0))
  then
    if bool_decide (Z.of_nat (snd (shape data)) = snd npix)
    then Ok (map (map (fun v => Z.land v (16383 - (64 + 128)))) data)
    else
      dq_array ← zeros npix;
      Raise NameError
  else
    dq_array ← zeros npix;
    match hdr !! "pixvalue" with
    | Some pixvalue =>
        if negb (py_eqb pixvalue (PInt 0))
        then
          value ← need_num pixvalue;
          Ok (map (map (fun _ => num_index value)) dq_array)
        else Ok dq_array
    | None => Ok dq_array
    end.


End InputDQ.


(** ** Header keywords: [tableHeaderToImage], [imageHeaderToTable],
    [delCorrtagWCS], [modifyAsnMtyp].
    A header is a dictionary from keyword names, written as the code writes
    them, to values. *)

(** The world coordinate system keywords of an events table, and their
    names for an image. *)
Definition tkey : list string :=
  ["TCTYP2"; "TCRVL2"; "TCRPX2"; "TCDLT2"; "TCUNI2"; "TC2_2"; "TC2_3";
   "TCTYP3"; "TCRVL3"; "TCRPX3"; "TCDLT3"; "TCUNI3"; "TC3_2"; "TC3_3"]%string.
Definition ikey : list string :=
  ["CTYPE1"; "CRVAL1"; "CRPIX1"; "CDELT1"; "CUNIT1"; "CD1_1"; "CD1_2";
   "CTYPE2"; "CRVAL2"; "CRPIX2"; "CDELT2"; "CUNIT2"; "CD2_1"; "CD2_2"]%string.

(** The body of the loop of [tableHeaderToImage] for one pair of names. *)
Definition rename_step (hdr : pydict) (t i : string) : M pydict :=
  match hdr !! t with
  | Some v =>
      if bool_decide (is_Some (hdr !! i))
      then
        _ ← printWarning ("Can't rename " +:+ t +:+ " to " +:+ i);
        _ ← printContinuation "keyword already exists";
        mret (delete t hdr)
      else mret (<[i := v]> (delete t hdr))
  | None => mret hdr
  end.

Fixpoint rename_keys (hdr : pydict) (pairs : list (string * string)) : M pydict :=
  match pairs with
  | [] => mret hdr
  | (t, i) :: rest => hdr ← rename_step hdr t i; rename_keys hdr rest
  end.

(** [tableHeaderToImage (thdr)] *)
Definition tableHeaderToImage (thdr : pydict) : M pydict :=
  let hdr := thdr in
  rename_keys hdr (zip tkey ikey).

(** [for keyword in keys: if hdr.has_key (keyword): del hdr[keyword]] *)
Definition del_keys (hdr : pydict) (keys : list string) : pydict :=
  foldl (fun hdr keyword =>
           if bool_decide (is_Some (hdr !! keyword)) then delete keyword hdr else hdr)
        hdr keys.

(** [imageHeaderToTable (imhdr)] *)
Definition imageHeaderToTable (imhdr : pydict) : pydict :=
  let hdr := imhdr in
  del_keys hdr (ikey ++ ["BUNIT"%string]).

(** [delCorrtagWCS (thdr)] *)
Definition delCorrtagWCS (thdr : pydict) : pydict :=
  let hdr := thdr in
  del_keys hdr tkey.

(** [modifyAsnMtyp (asn_mtyp)]; [asn_mtyp[3:]] is the string without its
    first three characters. *)
Definition modifyAsnMtyp (asn_mtyp : string) : string :=
  if String.prefix "EXP-" asn_mtyp || String.prefix "EXP_" asn_mtyp
  then "PROD" +:+ String.substring 3 (String.length asn_mtyp - 3) asn_mtyp
  else asn_mtyp.

(** Sizes of the extended formats for the evaluations below. *)
Definition cos_extended : ExtendedFormat :=
  {| FUV_EXTENDED_X := 16384; FUV_X_OFFSET := 0;
     NUV_EXTENDED_X := 1274; NUV_X_OFFSET := 100 |}.

(** None of the sizes is negative. *)
Definition sizes_nonneg `{Calcosparam} `{ExtendedFormat} : Prop :=
  0 <= FUV_Y /\ 0 <= FUV_EXTENDED_X /\ 0 <= NUV_Y /\ 0 <= NUV_X /\ 0 <= NUV_EXTENDED_X.

(** Headers of an NUV spectroscopic exposure with a DQ image. *)
Definition nuv_spec_phdr : pydict :=
  {[ "detector" := PStr "NUV"; "obsmode" := PStr "ACCUM" ]}.
Definition dq_image_hdr : pydict := {[ "naxis" := PInt 2 ]}.

(** A table header with two WCS keywords, one of which has its image
    counterpart already. *)
Definition corrtag_hdr : pydict :=
  {[ "TCTYP2" := PStr "WAVE"; "TCRVL2" := PFloat 0%Qc; "CRVAL1" := PFloat 1%Qc;
     "EXPTIME" := PFloat 1%Qc ]}.

(** * Properties *)

(** ** Tactics and arithmetic *)

(** Equality of evaluated terms that hold rationals: two canonical
    rationals are equal when their fractions are. *)
Ltac qc_eq :=
  repeat lazymatch goal with
         | |- @eq Qc _ _ => apply Qc_is_canon; vm_compute; reflexivity
         | |- _ /\ _ => split
         | |- _ => first [reflexivity | progress f_equal]
         end.

Ltac tuple_eq :=
  repeat match goal with |- (_, _) = (_, _) => f_equal end;
  first [reflexivity | lia | ring].

Lemma Zf_1 : Zf 1 = 1%Qc.
Proof. apply Qc_is_canon; reflexivity. Qed.

Lemma Zf_2 : Zf 2 = (1 + 1)%Qc.
Proof. apply Qc_is_canon; reflexivity. Qed.

Lemma py_round_0 : py_round 0 = 0.
Proof. reflexivity. Qed.

Lemma Qcabs_pos q : (0 < q)%Qc -> Qcabs q = q.
Proof.
  intros Hq. unfold Qcabs. rewrite bool_decide_eq_false_2; [done|].
  apply Qcle_not_lt, Qclt_le_weak, Hq.
Qed.

Lemma Qcmin_le_l a b : (Qcmin a b <= a)%Qc.
Proof.
  unfold Qcmin. case_bool_decide; [by apply Qclt_le_weak|apply Qcle_refl].
Qed.

Lemma Qcmin_le_r a b : (Qcmin a b <= b)%Qc.
Proof.
  unfold Qcmin. case_bool_decide; [apply Qcle_refl|by apply Qcnot_lt_le].
Qed.

Lemma Qcmax_ge_l a b : (a <= Qcmax a b)%Qc.
Proof.
  unfold Qcmax. case_bool_decide; [by apply Qclt_le_weak|apply Qcle_refl].
Qed.

Lemma Qcmax_ge_r a b : (b <= Qcmax a b)%Qc.
Proof.
  unfold Qcmax. case_bool_decide; [apply Qcle_refl|by apply Qcnot_lt_le].
Qed.

Lemma foldl_Qcmin_spec qs q :
  foldl Qcmin q qs ∈ q :: qs /\ forall x, x ∈ q :: qs -> (foldl Qcmin q qs <= x)%Qc.
Proof.
  revert q. induction qs as [|p qs IH]; intros q; simpl.
  - split; [by left|]. intros x Hx. apply list_elem_of_singleton in Hx as ->. apply Qcle_refl.
  - destruct (IH (Qcmin q p)) as [Hin Hle]. split.
    + apply elem_of_cons in Hin as [Heq|Hin]; [|by do 2 right].
      rewrite Heq. unfold Qcmin. case_bool_decide; [right|]; by left.
    + intros x Hx. apply elem_of_cons in Hx as [->|Hx].
      * apply (Qcle_trans _ (Qcmin q p)); [apply Hle; by left|apply Qcmin_le_l].
      * apply elem_of_cons in Hx as [->|Hx]; [|apply Hle; by right].
        apply (Qcle_trans _ (Qcmin q p)); [apply Hle; by left|apply Qcmin_le_r].
Qed.

Lemma foldl_Qcmax_spec qs q :
  foldl Qcmax q qs ∈ q :: qs /\ forall x, x ∈ q :: qs -> (x <= foldl Qcmax q qs)%Qc.
Proof.
  revert q. induction qs as [|p qs IH]; intros q; simpl.
  - split; [by left|]. intros x Hx. apply list_elem_of_singleton in Hx as ->. apply Qcle_refl.
  - destruct (IH (Qcmax q p)) as [Hin Hle]. split.
    + apply elem_of_cons in Hin as [Heq|Hin]; [|by do 2 right].
      rewrite Heq. unfold Qcmax. case_bool_decide; [right|]; by left.
    + intros x Hx. apply elem_of_cons in Hx as [->|Hx].
      * apply (Qcle_trans _ (Qcmax q p)); [apply Qcmax_ge_l|apply Hle; by left].
      * apply elem_of_cons in Hx as [->|Hx]; [|apply Hle; by right].
        apply (Qcle_trans _ (Qcmax q p)); [apply Qcmax_ge_r|apply Hle; by left].
Qed.

(** ** DispersionSolver: the loop of [evalInvDisp] *)

(** Still iterating after [fuel] passes: exactly when each of these passes
    ran without exception and moved [x] by [tiny] or more. *)
Lemma newton_loop_out_of_fuel fuel wavelength coeff delta tiny x :
  newton_loop fuel wavelength coeff delta tiny x = OutOfFuel <->
  exists x', passes wavelength coeff delta tiny fuel x x'.
Proof.
  revert x. induction fuel as [|fuel IH]; intros x; simpl.
  - split; [intros _; exists x; constructor | done].
  - destruct (newton_pass wavelength coeff delta x) as [[x1 d]|e] eqn:Hp.
    + case_bool_decide as Hd.
      * split; [done|]. intros [x' Hx']. inversion Hx'; subst. congruence.
      * rewrite IH. split.
        -- intros [x' Hx']. exists x'. econstructor; eauto.
        -- intros [x' Hx']. inversion Hx'; subst.
           assert (x1 = x'0) by congruence. subst. eauto.
    + split; [done|]. intros [x' Hx']. inversion Hx'; subst. congruence.
Qed.

(** The loop returns [r] within [fuel] passes: exactly when some pass
    [k < fuel] is the first with a largest step below [tiny], and [r] is
    the value of [x] after it. *)
Lemma newton_loop_done fuel wavelength coeff delta tiny x r :
  newton_loop fuel wavelength coeff delta tiny x = Done r <->
  exists k x' d, (k < fuel)%nat /\
    passes wavelength coeff delta tiny k x x' /\
    newton_pass wavelength coeff delta x' = Ok (r, d) /\ (d < tiny)%Qc.
Proof.
  revert x. induction fuel as [|fuel IH]; intros x; simpl.
  - split; [done|]. intros (k & ? & ? & ? & _). lia.
  - destruct (newton_pass wavelength coeff delta x) as [[x1 d]|e] eqn:Hp.
    + case_bool_decide as Hd.
      * split.
        -- intros [= <-]. exists 0%nat, x, d. repeat split; [lia|constructor|done|done].
        -- intros (k & x' & d' & Hk & Hps & Hpass & Hlt).
           inversion Hps; subst; congruence.
      * rewrite IH. split.
        -- intros (k & x' & d' & Hk & Hps & Hpass & Hlt).
           exists (S k), x', d'. repeat split; [lia| |done|done].
           econstructor; eauto.
        -- intros (k & x' & d' & Hk & Hps & Hpass & Hlt).
           inversion Hps; subst; [congruence|].
           assert (x1 = x'0) by congruence. subst.
           exists k0, x', d'. repeat split; [lia|done|done|done].
    + split; [done|]. intros (k & x' & d' & Hk & Hps & Hpass & Hlt).
      inversion Hps; subst; congruence.
Qed.

Lemma cycle_pass0 :
  newton_pass (Scalar 0%Qc) cycle_coeff 0%Qc (Scalar 0%Qc) = Ok (Scalar 1%Qc, 1%Qc).
Proof. vm_compute. qc_eq. Qed.

Lemma cycle_pass1 :
  newton_pass (Scalar 0%Qc) cycle_coeff 0%Qc (Scalar 1%Qc) = Ok (Scalar 0%Qc, 1%Qc).
Proof. vm_compute. qc_eq. Qed.

Lemma cycle_loop fuel :
  newton_loop fuel (Scalar 0%Qc) cycle_coeff 0%Qc (Qcabs default_tiny) (Scalar 0%Qc)
  = OutOfFuel /\
  newton_loop fuel (Scalar 0%Qc) cycle_coeff 0%Qc (Qcabs default_tiny) (Scalar 1%Qc)
  = OutOfFuel.
Proof.
  induction fuel as [|fuel [IH0 IH1]]; [done|].
  split; cbn [newton_loop].
  - rewrite cycle_pass0. rewrite bool_decide_eq_false_2; [done|]. by vm_compute.
  - rewrite cycle_pass1. rewrite bool_decide_eq_false_2; [done|]. by vm_compute.
Qed.

(** C1, counterexample.  Coefficients (2, -2, 0, 1), wavelength 0, delta 0
    and the default tolerance: at least two coefficients, a positive
    tolerance, and [evalInvDisp] is still iterating after any number of
    passes -- it neither returns nor raises. *)
Lemma evalInvDisp_cycles_forever :
  (2 <= length cycle_coeff)%nat /\ (0 < default_tiny)%Qc /\
  ~ exists fuel, evalInvDisp fuel (Scalar 0%Qc) cycle_coeff 0%Qc default_tiny <> OutOfFuel.
Proof.
  split; [simpl; lia|]. split; [done|].
  intros [fuel Hne]. apply Hne. unfold evalInvDisp. apply cycle_loop.
Qed.

(** C1, as amended.  [evalInvDisp] has no bound on its iterations and no
    failure for lack of convergence: it returns [r] exactly when some pass
    is the first whose largest step is below [abs (tiny)] -- [r] is the
    value of [x] after that pass -- and it is still iterating after [fuel]
    passes exactly when each of them ran without exception and moved [x]
    by [abs (tiny)] or more. *)
Theorem evalInvDisp_stops_on_small_step_only fuel wavelength coeff delta tiny :
  (forall r,
     evalInvDisp fuel wavelength coeff delta tiny = Done r <->
     exists k x d, (k < fuel)%nat /\
       passes wavelength coeff delta (Qcabs tiny) k (initial_x wavelength) x /\
       newton_pass wavelength coeff delta x = Ok (r, d) /\ (d < Qcabs tiny)%Qc) /\
  (evalInvDisp fuel wavelength coeff delta tiny = OutOfFuel <->
   exists x, passes wavelength coeff delta (Qcabs tiny) fuel (initial_x wavelength) x).
Proof.
  unfold evalInvDisp. split.
  - intros r. apply newton_loop_done.
  - apply newton_loop_out_of_fuel.
Qed.

(** *** The number of passes has no bound *)

Lemma half_pos : (0 < half)%Qc.
Proof. done. Qed.

Lemma half_lt (h : Qc) : (0 < h)%Qc -> (h * half < h)%Qc.
Proof.
  intros Hh. apply Qclt_minus_iff.
  replace (h + - (h * half))%Qc with (h * half)%Qc by (unfold half; field; done).
  apply Qcmult_pos_pos; [done|apply half_pos].
Qed.

Lemma halved_pos m h : (0 < h)%Qc -> (0 < halved m h)%Qc.
Proof.
  revert h. induction m as [|m IH]; intros h Hh; simpl; [done|].
  apply IH, Qcmult_pos_pos; [done|apply half_pos].
Qed.

Lemma halved_le m h : (0 < h)%Qc -> (halved m h <= h)%Qc.
Proof.
  revert h. induction m as [|m IH]; intros h Hh; simpl; [apply Qcle_refl|].
  eapply Qcle_trans; [apply IH, Qcmult_pos_pos; [done|apply half_pos]|].
  apply Qclt_le_weak, half_lt, Hh.
Qed.

Lemma square_evalDisp (x : Qc) :
  evalDisp (Scalar x) square_coeff (-1)%Qc = Ok (Scalar ((x + 1) * (x + 1))%Qc).
Proof.
  unfold evalDisp, square_coeff. simpl. do 2 f_equal. ring.
Qed.

Lemma square_evalDerivDisp (x : Qc) :
  evalDerivDisp (Scalar x) square_coeff (-1)%Qc = Ok (Scalar ((x + 1) + (x + 1))%Qc).
Proof.
  unfold evalDerivDisp, square_coeff. simpl. do 2 f_equal.
  change (Zf (Z.of_nat 3 - 1)) with (Zf 2). change (Zf (Z.of_nat 1)) with (Zf 1).
  rewrite Zf_1, Zf_2. ring.
Qed.

(** One pass on [(x + 1)^2 = 0] halves the distance [h = x + 1] to the
    root. *)
Lemma square_pass (x h : Qc) :
  h = (x + 1)%Qc -> (0 < h)%Qc ->
  newton_pass (Scalar 0%Qc) square_coeff (-1)%Qc (Scalar x)
  = Ok (Scalar (x - h * half)%Qc, (h * half)%Qc).
Proof.
  intros Hh Hpos.
  assert (Hne : h <> 0%Qc) by (intros ->; by apply Qclt_not_eq in Hpos).
  assert (Hhh : (h + h)%Qc <> 0%Qc).
  { intros H0. apply Hne.
    replace h with ((h + h) * half)%Qc by (unfold half; field; done).
    rewrite H0. ring. }
  unfold newton_pass. rewrite square_evalDisp, square_evalDerivDisp, <- Hh.
  cbn [mbind result_bind]. unfold nd_div. cbn [nd_elems].
  rewrite bool_decide_eq_false_2.
  2:{ rewrite Exists_cons, Exists_nil. intros [H0|[]]. done. }
  cbn [mbind result_bind nd_map2 nd_map nd_max nd_elems foldl].
  assert (Hstep : ((0 - h * h) / (h + h))%Qc = (- (h * half))%Qc).
  { unfold half. field. split; [|done]. intros H1. by apply (Qclt_not_eq 0 (1+1)%Qc). }
  rewrite Hstep.
  replace (x + - (h * half) - x)%Qc with (- (h * half))%Qc by ring.
  do 2 f_equal.
  unfold Qcabs. rewrite bool_decide_eq_true_2.
  - ring.
  - apply Qclt_minus_iff. replace (0 + - - (h * half))%Qc with (h * half)%Qc by ring.
    apply Qcmult_pos_pos; [done|apply half_pos].
Qed.

Lemma square_loop m x h :
  h = (x + 1)%Qc -> (0 < h)%Qc ->
  newton_loop m (Scalar 0%Qc) square_coeff (-1)%Qc (halved m h) (Scalar x) = OutOfFuel
  /\ exists r,
       newton_loop (S m) (Scalar 0%Qc) square_coeff (-1)%Qc (halved m h) (Scalar x)
       = Done r.
Proof.
  revert x h. induction m as [|m IH]; intros x h Hh Hpos.
  - split; [done|]. cbn [newton_loop halved]. rewrite (square_pass x h Hh Hpos).
    rewrite bool_decide_eq_true_2 by (by apply half_lt). eauto.
  - assert (Hpos' : (0 < h * half)%Qc) by (apply Qcmult_pos_pos; [done|apply half_pos]).
    assert (Hge : ¬ (h * half < halved m (h * half))%Qc).
    { apply Qcle_not_lt, halved_le, Hpos'. }
    destruct (IH (x - h * half)%Qc (h * half)%Qc) as [IH1 IH2];
      [subst; unfold half; field; done|done|].
    split.
    + cbn [newton_loop halved]. rewrite (square_pass x h Hh Hpos).
      rewrite bool_decide_eq_false_2 by done. apply IH1.
    + remember (S m) as m'. cbn [newton_loop]. subst m'. cbn [halved].
      rewrite (square_pass x h Hh Hpos).
      rewrite bool_decide_eq_false_2 by done. apply IH2.
Qed.

(** Whatever number [N] of passes is allowed, some positive tolerance makes
    [evalInvDisp] need one more on [(x + 1)^2 = 0]: no constant bounds the
    iteration. *)
Lemma evalInvDisp_pass_count_unbounded (N : nat) :
  exists tiny, (0 < tiny)%Qc /\
    evalInvDisp N (Scalar 0%Qc) square_coeff (-1)%Qc tiny = OutOfFuel /\
    exists r, evalInvDisp (S N) (Scalar 0%Qc) square_coeff (-1)%Qc tiny = Done r.
Proof.
  exists (halved N 1%Qc).
  assert (Hp : (0 < halved N 1)%Qc) by (by apply halved_pos).
  split; [done|]. unfold evalInvDisp. rewrite (Qcabs_pos _ Hp). cbn [initial_x].
  apply square_loop; [ring|done].
Qed.

(** ** ReferenceTableLookup *)

(** C2, the code at the failing input.  A table whose integer column
    [cenwave] holds [INT_WILDCARD] in its only row, and the filter
    [{"cenwave": 1309}]: the row is not selected and [getTable] returns
    [None].  The same situation in a character column ([STRING_WILDCARD]
    in [opt_elem], filter [{"opt_elem": "G130M"}]) does select the row. *)
Theorem getTable_int_wildcard_not_matched :
  fields wild_int_table !! "cenwave" = Some (IntCol [@INT_WILDCARD cos_constants]) /\
  @row_mask cos_constants wild_int_table cenwave_filter = Ok [false] /\
  fst (@getTable cos_constants "lamptab" cenwave_filter false false
         (World {[ "lamptab" := wild_int_table ]} ∅ [] [] [])) = Ok None /\
  @row_mask cos_constants wild_str_table opt_elem_filter = Ok [true].
Proof. vm_compute. done. Qed.

Section RowSelection.
Context `{Calcosparam}.

Lemma column_eq_length c v : length (column_eq c v) = column_length c.
Proof.
  destruct c as [l|l], v; cbn; rewrite ?length_map; done.
Qed.

Lemma column_eq_lookup_str l v i :
  column_eq (StrCol l) v !! i = (fun s => py_eqb (PStr s) v) <$> l !! i.
Proof.
  destruct v; cbn; change map with (@fmap list _); rewrite list_lookup_fmap;
    destruct (l !! i); cbn; try done.
  f_equal. unfold py_eqb. cbn. apply bool_decide_ext. split; [by intros ->|by intros [= ->]].
Qed.

Lemma column_eq_lookup_int l v i :
  column_eq (IntCol l) v !! i = (fun z => py_eqb (PInt z) v) <$> l !! i.
Proof.
  unfold column_eq, py_eqb. cbn [as_num]. destruct (as_num v);
    change map with (@fmap list _); rewrite list_lookup_fmap; destruct (l !! i); done.
Qed.

Lemma select_arrays_spec data items arrays :
  well_formed_table data ->
  select_arrays data items = Ok arrays ->
  Forall (fun a => length a = nrows data) arrays /\
  forall i, (i < nrows data)%nat ->
    (Forall (fun a : list bool => a !! i = Some true) arrays <->
     forall key v, (key, v) ∈ items -> criterion data i key v).
Proof.
  intros Hwf. revert arrays. induction items as [|[key v] items IH]; intros arrays Hsel.
  - injection Hsel as <-. split; [constructor|]. intros i Hi. split; [|constructor].
    intros _ key v Hin. by apply elem_of_nil in Hin.
  - cbn [select_arrays] in Hsel. fold (filter_wildcard v) in Hsel.
    destruct (filter_wildcard v) eqn:Hw.
    + destruct (IH arrays Hsel) as [Hlen Hrows]. split; [done|].
      intros i Hi. rewrite (Hrows i Hi). split.
      * intros Hall k u Hin. apply elem_of_cons in Hin as [[= -> ->]|Hin]; [by left|by apply Hall].
      * intros Hall k u Hin. apply Hall. by right.
    + unfold field in Hsel. destruct (fields data !! key) as [c|] eqn:Hc; [|done].
      cbn [mbind result_bind] in Hsel.
      destruct (select_arrays data items) as [rest|] eqn:Hrest; [|done].
      cbn [mbind result_bind] in Hsel. injection Hsel as <-.
      destruct (IH rest eq_refl) as [Hlen Hrows].
      pose proof (Hwf key c Hc) as Hcl.
      split.
      * constructor; [|done]. destruct c as [l|l]; cbn [column_length] in Hcl.
        -- rewrite length_zip_with, column_eq_length, length_map. cbn. lia.
        -- by rewrite column_eq_length.
      * intros i Hi. rewrite Forall_cons, (Hrows i Hi).
        assert (Hcell : match c with
                        | StrCol l =>
                            zip_with orb (column_eq (StrCol l) v)
                              (map (fun x => bool_decide (x = STRING_WILDCARD)) l)
                        | IntCol l => column_eq (IntCol l) v
                        end !! i = Some true <-> cell_matches c v i = true).
        { destruct c as [l|l]; cbn [cell_matches].
          - rewrite lookup_zip_with, column_eq_lookup_str.
            change map with (@fmap list _). rewrite list_lookup_fmap.
            destruct (l !! i); cbn; [|done]. split; [by intros [= ->]|by intros ->].
          - rewrite column_eq_lookup_int. destruct (l !! i); cbn; [|done].
            split; [by intros [= ->]|by intros ->]. }
        split.
        -- intros [Hhead Hall] k u Hin.
           apply elem_of_cons in Hin as [[= -> ->]|Hin]; [|by apply Hall].
           right. exists c. split; [done|]. apply Hcell. destruct c; exact Hhead.
        -- intros Hall. split.
           ++ destruct (Hall key v) as [Hwild|(c' & Hc' & Hm)]; [by left|congruence|].
              assert (c' = c) by congruence. subst c'.
              apply Hcell in Hm. destruct c; exact Hm.
           ++ intros k u Hin. apply Hall. by right.
Qed.

Lemma foldl_and_spec n (s : list bool) rest :
  length s = n -> Forall (fun a => length a = n) rest ->
  length (foldl (zip_with andb) s rest) = n /\
  forall i, foldl (zip_with andb) s rest !! i = Some true <->
            Forall (fun a : list bool => a !! i = Some true) (s :: rest).
Proof.
  revert s. induction rest as [|r rest IH]; intros s Hs Hrest.
  - cbn. split; [done|]. intros i. rewrite Forall_singleton. done.
  - apply Forall_cons in Hrest as [Hr Hrest]. cbn [foldl].
    destruct (IH (zip_with andb s r)) as [Hlen Hspec].
    { rewrite length_zip_with. lia. }
    { done. }
    split; [done|]. intros i. rewrite Hspec, !Forall_cons, lookup_zip_with.
    destruct (s !! i) as [[]|], (r !! i) as [[]|]; cbn; intuition congruence.
Qed.

(** The rows [getTable] selects in a well-formed table: row [i] is kept
    exactly when, for every key of the filter, the filter value is
    [STRING_WILDCARD] or [NOT_APPLICABLE], or the cell equals the filter
    value, or the column is a character column and the cell is
    [STRING_WILDCARD].  [INT_WILDCARD] in an integer column matches its own
    value only. *)
Lemma row_mask_spec data filter mask :
  well_formed_table data ->
  row_mask data filter = Ok mask ->
  length mask = nrows data /\
  forall i, (i < nrows data)%nat ->
    (mask !! i = Some true <->
     forall key v, filter !! key = Some v -> criterion data i key v).
Proof.
  intros Hwf Hmask. unfold row_mask in Hmask.
  destruct (select_arrays data (map_to_list filter)) as [arrays|] eqn:Hsel; [|done].
  cbn [mbind result_bind] in Hmask.
  destruct (select_arrays_spec data _ arrays Hwf Hsel) as [Hlen Hrows].
  assert (Hitems : forall i, (i < nrows data)%nat ->
     (Forall (fun a : list bool => a !! i = Some true) arrays <->
      forall key v, filter !! key = Some v -> criterion data i key v)).
  { intros i Hi. rewrite (Hrows i Hi). split.
    - intros Hall key v Hkv. apply Hall. by apply elem_of_map_to_list.
    - intros Hall key v Hkv. apply Hall. by apply elem_of_map_to_list. }
  destruct arrays as [|s rest].
  - injection Hmask as <-. split; [by rewrite length_replicate|].
    intros i Hi. rewrite <- (Hitems i Hi). split; [constructor|].
    intros _. by apply lookup_replicate_2.
  - injection Hmask as <-. apply Forall_cons in Hlen as [Hs Hrest].
    destruct (foldl_and_spec (nrows data) s rest Hs Hrest) as [Hl Hspec].
    split; [done|]. intros i Hi. by rewrite Hspec, <- (Hitems i Hi).
Qed.
End RowSelection.

(** ** OutOfBoundsFlagger: the subarrays of the header *)

(** C3, counterexample.  The header [degenerate_hdr] has a first subarray of
    width 0 ([size0x = 0]); [flagOutOfBounds] raises nothing and the DQ
    array of the exposure is updated: flagged everywhere outside the second
    subarray. *)
Lemma flagOutOfBounds_degenerate_subarray :
  degenerate_hdr !! "size0x" = Some (PInt 0) /\
  fst (@flagOutOfBounds cos_constants ccos_absent subarray_phdr degenerate_hdr ∅
         nuv_info omit_switches "brftab" "geofile" no_shift no_doppler
         (empty_world zeros4)) = Ok tt /\
  dq_array
    (snd (@flagOutOfBounds cos_constants ccos_absent subarray_phdr degenerate_hdr ∅
            nuv_info omit_switches "brftab" "geofile" no_shift no_doppler
            (empty_world zeros4)))
  = [[128; 128; 128; 128]; [128; 0; 0; 128]; [128; 0; 0; 128]; [128; 128; 128; 128]].
Proof. vm_compute. done. Qed.

Section Subarrays.
Context `{Calcosparam}.

Lemma subarray_locations_app hdr detector xwidth ywidth pre post :
  subarray_locations hdr detector xwidth ywidth (pre ++ post) =
  subs ← subarray_locations hdr detector xwidth ywidth pre;
  rest ← subarray_locations hdr detector xwidth ywidth post;
  Ok (subs ++ rest).
Proof.
  induction pre as [|i pre IH]; cbn [app subarray_locations].
  - cbn. by destruct (subarray_locations _ _ _ _ post).
  - repeat (match goal with
            | |- context [getitem ?h ?k] =>
                destruct (getitem h k); cbn [mbind result_bind]; [|done]
            | |- context [need_num ?v] =>
                destruct (need_num v); cbn [mbind result_bind]; [|done]
            | |- context [if ?b then _ else _] => destruct b; [done|]
            end).
    rewrite IH.
    destruct (subarray_locations _ _ _ _ pre); cbn [mbind result_bind]; [|done].
    destruct (subarray_locations _ _ _ _ post); cbn [mbind result_bind]; done.
Qed.

(** C3, as amended.  A subarray [i] whose keywords are in the header and
    whose [xsize] or [ysize] is not positive is passed over: the list of
    subarray locations is the one the remaining indices give, and the
    subarray itself raises nothing. *)
Theorem nonpositive_size_skipped hdr detector xwidth ywidth pre i post
    x0 y0 xsize ysize :
  hdr !! ("corner" +:+ pretty i +:+ "x") = Some x0 ->
  hdr !! ("corner" +:+ pretty i +:+ "y") = Some y0 ->
  hdr !! ("size" +:+ pretty i +:+ "x") = Some xsize ->
  hdr !! ("size" +:+ pretty i +:+ "y") = Some ysize ->
  py_le_num xsize (Int 0) = true \/ py_le_num ysize (Int 0) = true ->
  subarray_locations hdr detector xwidth ywidth (pre ++ i :: post) =
  subarray_locations hdr detector xwidth ywidth (pre ++ post).
Proof.
  intros Hx0 Hy0 Hxs Hys Hle.
  rewrite !subarray_locations_app.
  assert (Hi : subarray_locations hdr detector xwidth ywidth (i :: post) =
               subarray_locations hdr detector xwidth ywidth post).
  { cbn [subarray_locations]. unfold getitem. rewrite Hx0, Hy0, Hxs, Hys.
    cbn [mbind result_bind].
    destruct Hle as [-> | ->]; [done|]. by rewrite orb_true_r. }
  by rewrite Hi.
Qed.

End Subarrays.

Lemma nonpositive_size_skipped_witness :
  @subarray_locations cos_constants degenerate_hdr (PStr "NUV") 0 0 ([] ++ 0%nat :: [1%nat])
  = @subarray_locations cos_constants degenerate_hdr (PStr "NUV") 0 0 ([] ++ [1%nat]).
Proof.
  apply (@nonpositive_size_skipped cos_constants degenerate_hdr (PStr "NUV") 0 0
           [] 0%nat [1%nat] (PInt 0) (PInt 0) (PInt 0) (PInt 2));
    [reflexivity | reflexivity | reflexivity | reflexivity | left; reflexivity].
Defined.

(** ** DQArrayBuilder: the bounds handed to [ccos.bindq] *)

(** C4.  For the row [k] of the bad-pixel table, [(lx, ly, dx, dy) =
    (a, b, c, d)], the bounds [updateDQArray] computes are those of the
    rule: with [ux = a + c - 1] and [uy = b + d - 1], the dispersion bounds
    are [a - round (max_shift1)], [ux - round (min_shift1)] when
    [max_shift1 >= 0] and [a - round (min_shift1)], [ux - round (max_shift1)]
    otherwise, plus [round (mindopp)] and [round (maxdopp)]; the
    cross-dispersion bounds follow the same rule on [min_shift2],
    [max_shift2] without a Doppler term.  With all shifts zero the rule
    gives the unshifted rectangle [(a, b, ux, uy)]. *)
Theorem updateDQArray_bounds_rule lx ly dx dy minmax_shifts minmax_doppler k a b c d :
  lx !! k = Some a -> ly !! k = Some b -> dx !! k = Some c -> dy !! k = Some d ->
  (let '(lx', ly', ux', uy') := smeared_bounds lx ly dx dy minmax_shifts minmax_doppler in
   let '(l1, l2, u1, u2) := claimed_bounds minmax_shifts minmax_doppler a b c d in
   lx' !! k = Some l1 /\ ly' !! k = Some l2 /\ ux' !! k = Some u1 /\ uy' !! k = Some u2) /\
  (let '(lx', ly', ux', uy') := smeared_bounds lx ly dx dy no_shift no_doppler in
   lx' !! k = Some a /\ ly' !! k = Some b /\
   ux' !! k = Some (a + c - 1) /\ uy' !! k = Some (b + d - 1)).
Proof.
  intros Ha Hb Hc Hd.
  assert (Hrule : forall s p,
    let '(lx', ly', ux', uy') := smeared_bounds lx ly dx dy s p in
    let '(l1, l2, u1, u2) := claimed_bounds s p a b c d in
    lx' !! k = Some l1 /\ ly' !! k = Some l2 /\ ux' !! k = Some u1 /\ uy' !! k = Some u2).
  { intros [[[min_shift1 max_shift1] min_shift2] max_shift2] [mindopp maxdopp].
    unfold smeared_bounds, claimed_bounds.
    destruct (bool_decide (0 <= max_shift1)%Qc), (bool_decide (0 <= max_shift2)%Qc);
      rewrite ?list_lookup_fmap, ?lookup_zip_with, ?Ha, ?Hb, ?Hc, ?Hd; done. }
  split; [apply Hrule|].
  specialize (Hrule no_shift no_doppler).
  destruct (smeared_bounds lx ly dx dy no_shift no_doppler) as [[[lx' ly'] ux'] uy'].
  unfold claimed_bounds, no_shift, no_doppler in Hrule.
  destruct Hrule as (H1 & H2 & H3 & H4). rewrite H1, H2, H3, H4.
  repeat split; f_equal; destruct (bool_decide (0 <= 0)%Qc);
    rewrite ?py_round_0; lia.
Qed.

(** The scenario of the description: [lx=10, ly=20, dx=5, dy=5], shifts
    [(-2, 3, -1, 1)], Doppler [(-0.5, 0.5)]. *)
Lemma updateDQArray_bounds_rule_witness :
  (let '(lx', ly', ux', uy') :=
     smeared_bounds [10] [20] [5] [5] (Zf (-2), Zf 3, Zf (-1), Zf 1)
                    (Q2Qc (-1 # 2), Q2Qc (1 # 2)) in
   let '(l1, l2, u1, u2) :=
     claimed_bounds (Zf (-2), Zf 3, Zf (-1), Zf 1) (Q2Qc (-1 # 2), Q2Qc (1 # 2))
                    10 20 5 5 in
   lx' !! 0%nat = Some l1 /\ ly' !! 0%nat = Some l2 /\
   ux' !! 0%nat = Some u1 /\ uy' !! 0%nat = Some u2) /\
  (let '(lx', ly', ux', uy') := smeared_bounds [10] [20] [5] [5] no_shift no_doppler in
   lx' !! 0%nat = Some 10 /\ ly' !! 0%nat = Some 20 /\
   ux' !! 0%nat = Some (10 + 5 - 1) /\ uy' !! 0%nat = Some (20 + 5 - 1)).
Proof.
  apply (updateDQArray_bounds_rule [10] [20] [5] [5] (Zf (-2), Zf 3, Zf (-1), Zf 1)
           (Q2Qc (-1 # 2), Q2Qc (1 # 2)) 0%nat 10 20 5 5); reflexivity.
Defined.

(** The scenario evaluated: x from 10 - 3 - 1 = 6 to 14 + 2 + 1 = 17, y from
    20 - 1 = 19 to 24 + 1 = 25. *)
Example smeared_bounds_scenario :
  smeared_bounds [10] [20] [5] [5] (Zf (-2), Zf 3, Zf (-1), Zf 1)
                 (Q2Qc (-1 # 2), Q2Qc (1 # 2))
  = ([6], [19], [17], [25]).
Proof. reflexivity. Qed.

(** ** The DQ array only gains flags *)

Lemma bits_kept_refl v : bits_kept v v.
Proof. by intros n. Qed.

Lemma bits_kept_lor_r flag v : bits_kept v (Z.lor flag v).
Proof. intros n Hn. by rewrite Z.lor_spec, Hn, orb_true_r. Qed.

Lemma bits_kept_lor_l v t : bits_kept v (Z.lor v t).
Proof. intros n Hn. by rewrite Z.lor_spec, Hn. Qed.

Lemma flags_kept_refl g : flags_kept g g.
Proof.
  split; [done|]. intros j i v Hv. exists v. split; [done|apply bits_kept_refl].
Qed.

Lemma flags_kept_trans a b c : flags_kept a b -> flags_kept b c -> flags_kept a c.
Proof.
  intros [Hl1 H1] [Hl2 H2]. split; [congruence|].
  intros j i v Hv. destruct (H1 j i v Hv) as (v' & Hv' & Hk1).
  destruct (H2 j i v' Hv') as (v'' & Hv'' & Hk2).
  exists v''. split; [done|]. intros n Hn. by apply Hk2, Hk1.
Qed.

Lemma cell_update_region f rows cols g j i :
  cell (update_region f rows cols g) j i =
  (fun c => if rows j && cols i then f c else c) <$> cell g j i.
Proof.
  unfold cell, update_region. rewrite list_lookup_imap.
  destruct (g !! j) as [row|]; [|done]. simpl. by rewrite list_lookup_imap.
Qed.

Lemma flags_kept_update_region flag rows cols g :
  flags_kept g (update_region (Z.lor flag) rows cols g).
Proof.
  split; [unfold update_region; by rewrite length_imap|].
  intros j i v Hv. rewrite cell_update_region, Hv. simpl.
  eexists; split; [done|].
  destruct (rows j && cols i); [apply bits_kept_lor_r|apply bits_kept_refl].
Qed.

Lemma flags_kept_cond_update (c : bool) flag rows cols g :
  flags_kept g (if c then update_region (Z.lor flag) rows cols g else g).
Proof. destruct c; [apply flags_kept_update_region|apply flags_kept_refl]. Qed.

Lemma flags_kept_bitwise_or dq temp :
  Forall2 (fun r s => length r = length s) temp dq ->
  flags_kept dq (bitwise_or dq temp).
Proof.
  intros Hsh. split.
  - unfold bitwise_or. rewrite length_zip_with. apply Forall2_length in Hsh. lia.
  - intros j i v Hv. unfold cell in *. unfold bitwise_or. rewrite lookup_zip_with.
    destruct (dq !! j) as [rowd|] eqn:Hd; [|done]. simpl in Hv |- *.
    destruct (Forall2_lookup_r _ _ _ _ _ Hsh Hd) as (rowt & Ht & Hlen).
    rewrite Ht. simpl. rewrite lookup_zip_with, Hv. simpl.
    destruct (lookup_lt_is_Some_2 rowt i) as [t Hti].
    { rewrite Hlen. by apply lookup_lt_is_Some_1; eauto. }
    rewrite Hti. simpl. eexists; split; [done|apply bits_kept_lor_l].
Qed.

Lemma flags_kept_bindq lx ly ux uy flag dq x_offset :
  flags_kept dq (bindq lx ly ux uy flag dq x_offset).
Proof.
  unfold bindq. generalize (zip lx (zip ly (zip ux (zip uy flag)))). intros rows.
  revert dq. induction rows as [|[a [b [c [d e]]]] rows IH]; intros dq; simpl.
  - apply flags_kept_refl.
  - eapply flags_kept_trans; [|apply IH]. apply flags_kept_update_region.
Qed.

Lemma keeps_dq_flags {A} (m : M A) : keeps_dq m -> keeps_flags m.
Proof. intros Hm w. rewrite Hm. apply flags_kept_refl. Qed.

Lemma keeps_dq_bind {A B} (m : M A) (k : A -> M B) :
  keeps_dq m -> (forall a, keeps_dq (k a)) -> keeps_dq (m ≫= k).
Proof.
  intros Hm Hk w. unfold mbind, M_bind. specialize (Hm w).
  destruct (m w) as [[a|e] w']; simpl in *; [|done].
  by rewrite Hk.
Qed.

Lemma keeps_flags_bind {A B} (m : M A) (k : A -> M B) :
  keeps_flags m -> (forall a, keeps_flags (k a)) -> keeps_flags (m ≫= k).
Proof.
  intros Hm Hk w. unfold mbind, M_bind. specialize (Hm w).
  destruct (m w) as [[a|e] w']; simpl in *; [|done].
  eapply flags_kept_trans; [done|apply Hk].
Qed.

Lemma keeps_dq_ret {A} (a : A) : keeps_dq (mret a).
Proof. done. Qed.

Lemma keeps_dq_raise {A} e : keeps_dq (@raise A e).
Proof. done. Qed.

Lemma keeps_dq_lift {A} (r : result A) : keeps_dq (lift r).
Proof. done. Qed.

Lemma keeps_dq_log_open f : keeps_dq (log_open f).
Proof. done. Qed.

Lemma keeps_dq_printWarning s : keeps_dq (printWarning s).
Proof. done. Qed.

Lemma keeps_dq_printContinuation s : keeps_dq (printContinuation s).
Proof. done. Qed.

Lemma keeps_dq_the_world : keeps_dq the_world.
Proof. done. Qed.

Lemma keeps_dq_get_dq : keeps_dq get_dq.
Proof. done. Qed.

Create HintDb keeps discriminated.
#[local] Hint Resolve keeps_dq_ret keeps_dq_raise keeps_dq_lift keeps_dq_log_open
  keeps_dq_printWarning keeps_dq_printContinuation keeps_dq_the_world
  keeps_dq_get_dq : keeps.

(** One step through a monadic body that never writes the DQ array. *)
Ltac keeps_dq_step :=
  match goal with
  | |- keeps_dq (mbind _ _) => apply keeps_dq_bind; [|intros ?]
  | |- keeps_dq (match ?x with _ => _ end) => destruct x
  | |- keeps_dq _ => solve [auto with keeps]
  end.

Section FlagsAccumulate.
Context `{Calcosparam} `{Ccos}.

Lemma keeps_dq_open_table t : keeps_dq (open_table t).
Proof. unfold open_table. repeat keeps_dq_step. Qed.

Lemma keeps_dq_open_image t : keeps_dq (open_image t).
Proof. unfold open_image. repeat keeps_dq_step. Qed.

Hint Resolve keeps_dq_open_table keeps_dq_open_image : keeps.

Lemma keeps_dq_getTable t f e a : keeps_dq (getTable t f e a).
Proof. unfold getTable. repeat keeps_dq_step. Qed.

Hint Resolve keeps_dq_getTable : keeps.

Lemma keeps_dq_activeArea s b : keeps_dq (activeArea s b).
Proof. unfold activeArea. repeat keeps_dq_step. Qed.

Lemma keeps_dq_getGeoData g s : keeps_dq (getGeoData g s).
Proof. unfold getGeoData. repeat keeps_dq_step. Qed.

Lemma keeps_dq_thermal_subarrays sw st su : keeps_dq (thermal_subarrays sw st su).
Proof. unfold thermal_subarrays. repeat keeps_dq_step. Qed.

Lemma keeps_dq_updateDQArray_bounds b i s d : keeps_dq (updateDQArray_bounds b i s d).
Proof. unfold updateDQArray_bounds. repeat keeps_dq_step. Qed.

Hint Resolve keeps_dq_activeArea keeps_dq_getGeoData keeps_dq_thermal_subarrays
  keeps_dq_updateDQArray_bounds : keeps.

(** The last statement of [flagOutOfBounds],
    [dq_array[:,:] = N.bitwise_or (dq_array, temp)], whatever [temp] is. *)
Lemma keeps_flags_put_or temp :
  keeps_flags (dq ← get_dq;
               if bool_decide (Forall2 (fun r s => length r = length s) temp dq)
               then put_dq (bitwise_or dq temp) else raise ValueError).
Proof.
  intros w. unfold mbind, M_bind, get_dq. case_bool_decide as Hsh; simpl.
  - by apply flags_kept_bitwise_or.
  - apply flags_kept_refl.
Qed.

Lemma keeps_flags_modify (f : dqgrid -> dqgrid) :
  (forall g, flags_kept g (f g)) -> keeps_flags (dq ← get_dq; put_dq (f dq)).
Proof. intros Hf w. apply Hf. Qed.

Ltac keeps_flags_step :=
  match goal with
  | |- keeps_flags (mbind _ get_dq) => first [apply keeps_flags_put_or | fail 1]
  | |- keeps_flags (mbind _ _) => apply keeps_flags_bind; [|intros ?]
  | |- keeps_flags (match ?x with _ => _ end) => destruct x
  | |- keeps_flags _ => apply keeps_dq_flags; solve [repeat keeps_dq_step]
  end.

Lemma keeps_flags_flagOutOfBounds phdr hdr stim info switches brftab geofile shifts dopp :
  keeps_flags (flagOutOfBounds phdr hdr stim info switches brftab geofile shifts dopp).
Proof.
  unfold flagOutOfBounds. destruct shifts as [[[? ?] ?] ?], dopp as [? ?].
  repeat keeps_flags_step.
Qed.

Lemma keeps_flags_updateDQArray bpixtab info shifts dopp :
  keeps_flags (updateDQArray bpixtab info shifts dopp).
Proof.
  unfold updateDQArray. apply keeps_flags_bind.
  { apply keeps_dq_flags. auto with keeps. }
  intros [[[[[lx ly] ux] uy] dq_info]|]; [|by apply keeps_dq_flags].
  do 2 (apply keeps_flags_bind; [by apply keeps_dq_flags; auto with keeps|intros ?]).
  apply keeps_flags_modify. intros g. apply flags_kept_bindq.
Qed.

Lemma keeps_flags_flagOutsideActiveArea segment brftab shifts dopp :
  keeps_flags (flagOutsideActiveArea segment brftab shifts dopp).
Proof.
  unfold flagOutsideActiveArea. destruct shifts as [[[? ?] ?] ?], dopp as [? ?].
  case_bool_decide; [by apply keeps_dq_flags|].
  apply keeps_flags_bind; [apply keeps_dq_flags; auto with keeps|].
  intros [[[b_low b_high] b_left] b_right] w.
  unfold mbind, M_bind, get_dq, put_dq, shape. cbn [snd dq_array].
  repeat (eapply flags_kept_trans; [|apply flags_kept_cond_update]).
  apply flags_kept_refl.
Qed.

(** C5.  Whatever the state [w] and the arguments, and whether the call
    returns or raises, the DQ array after [updateDQArray], after
    [flagOutOfBounds] and after [flagOutsideActiveArea] has the shape it had
    before, and every bit that was set in a pixel is still set.  (The
    scratch array [temp] of [flagOutOfBounds] is cleared only before it is
    merged with bitwise OR.) *)
Theorem flags_only_accumulate w :
  (forall bpixtab info shifts dopp,
     flags_kept (dq_array w)
       (dq_array (snd (updateDQArray bpixtab info shifts dopp w)))) /\
  (forall phdr hdr stim info switches brftab geofile shifts dopp,
     flags_kept (dq_array w)
       (dq_array (snd (flagOutOfBounds phdr hdr stim info switches brftab geofile
                         shifts dopp w)))) /\
  (forall segment brftab shifts dopp,
     flags_kept (dq_array w)
       (dq_array (snd (flagOutsideActiveArea segment brftab shifts dopp w)))).
Proof.
  split; [|split]; intros.
  - apply keeps_flags_updateDQArray.
  - apply keeps_flags_flagOutOfBounds.
  - apply keeps_flags_flagOutsideActiveArea.
Qed.

(** C6.  When the primary header has no [subarray] keyword, or a false
    one, or when the extension header has [nsubarry] below 1 (0 when the
    keyword is absent), [flagOutOfBounds] returns at once: the whole state is
    as before -- the DQ array unchanged, no file opened, no warning. *)
Theorem flagOutOfBounds_noop phdr hdr stim info switches brftab geofile shifts dopp w :
  (phdr !! "subarray" = None \/
   (exists v, phdr !! "subarray" = Some v /\ py_truth v = false) \/
   py_lt_num (header_get hdr "nsubarry" (PInt 0)) (Int 1) = true) ->
  flagOutOfBounds phdr hdr stim info switches brftab geofile shifts dopp w = (Ok tt, w).
Proof.
  intros Hguard. unfold flagOutOfBounds.
  destruct (phdr !! "subarray") as [v|] eqn:Hsub; [|done].
  destruct (py_truth v) eqn:Hv; [|done]. cbn [negb].
  destruct Hguard as [Hn|[(v' & Hv' & Hf)|Hlt]]; [done|congruence|].
  by rewrite Hlt.
Qed.

End FlagsAccumulate.

Lemma flagOutOfBounds_noop_witness :
  @flagOutOfBounds cos_constants ccos_absent full_frame_phdr degenerate_hdr ∅
    nuv_info omit_switches "brftab" "geofile" no_shift no_doppler (empty_world zeros4)
  = (Ok tt, empty_world zeros4).
Proof.
  apply (@flagOutOfBounds_noop cos_constants ccos_absent).
  right; left. exists (PBool false). split; reflexivity.
Defined.

(** ** DopplerShiftEstimator *)

Section DopplerRange.
Context `{Calcosparam} `{Libm}.

Lemma elem_of_samples (f : nat -> Qc) n x :
  x ∈ f <$> seq 0 n <-> exists k, (k < n)%nat /\ x = f k.
Proof.
  rewrite list_elem_of_fmap. split.
  - intros (k & -> & Hk). apply elem_of_seq in Hk. exists k. split; [lia|done].
  - intros (k & Hk & ->). exists k. split; [done|]. apply elem_of_seq. lia.
Qed.

Lemma array_min_samples (f : nat -> Qc) n :
  (0 < n)%nat -> exists m, array_min (f <$> seq 0 n) = Ok m /\ is_min_of m n f.
Proof.
  intros Hn. destruct (f <$> seq 0 n) as [|q qs] eqn:Hl.
  { destruct n; [lia|done]. }
  exists (foldl Qcmin q qs). split; [done|].
  destruct (foldl_Qcmin_spec qs q) as [Hin Hle]. rewrite <- Hl in Hin, Hle. split.
  - by apply elem_of_samples.
  - intros k Hk. apply Hle, elem_of_samples. eauto.
Qed.

Lemma array_max_samples (f : nat -> Qc) n :
  (0 < n)%nat -> exists m, array_max (f <$> seq 0 n) = Ok m /\ is_max_of m n f.
Proof.
  intros Hn. destruct (f <$> seq 0 n) as [|q qs] eqn:Hl.
  { destruct n; [lia|done]. }
  exists (foldl Qcmax q qs). split; [done|].
  destruct (foldl_Qcmax_spec qs q) as [Hin Hle]. rewrite <- Hl in Hin, Hle. split.
  - by apply elem_of_samples.
  - intros k Hk. apply Hle, elem_of_samples. eauto.
Qed.

(** C7.  When [doppcorr] is not "PERFORM", [minmaxDoppler] returns (0, 0).
    When it is, for an exposure with [expstart], [exptime] and [dispaxis]
    and a non-zero orbital period, it returns the least and the largest of
    the [max (round (exptime), 1)] samples
    [-doppmag * sin (2 pi t / orbitper)] taken one second apart from
    [t = (expstart - doppzero) * SEC_PER_DAY] on. *)
Theorem minmaxDoppler_spec info doppcorr doppmag doppzero orbitper :
  (doppcorr <> "PERFORM"%string ->
   minmaxDoppler info doppcorr doppmag doppzero orbitper = Ok (0%Qc, 0%Qc)) /\
  (forall expstart exptime dispaxis,
     doppcorr = "PERFORM"%string ->
     info !! "expstart" = Some (PFloat expstart) ->
     info !! "exptime" = Some (PFloat exptime) ->
     info !! "dispaxis" = Some (PInt dispaxis) ->
     orbitper <> 0%Qc ->
     exists mindopp maxdopp,
       minmaxDoppler info doppcorr doppmag doppzero orbitper = Ok (mindopp, maxdopp) /\
       let nelem := Z.to_nat (Z.max (py_round exptime) 1) in
       is_min_of mindopp nelem (doppler_sample expstart doppzero doppmag orbitper) /\
       is_max_of maxdopp nelem (doppler_sample expstart doppzero doppmag orbitper)).
Proof.
  split.
  - intros Hne. unfold minmaxDoppler. by rewrite bool_decide_eq_false_2.
  - intros expstart exptime dispaxis -> Hes Het Hda Hper.
    unfold minmaxDoppler, getitem. rewrite bool_decide_eq_true_2 by done.
    rewrite Hes, Het, Hda. cbn [mbind result_bind need_num as_num num_Q].
    rewrite (bool_decide_eq_false_2 _ Hper).
    set (n := Z.to_nat (Z.max (py_round exptime) 1)).
    assert (Hn : (0 < n)%nat) by (unfold n; lia).
    unfold arange. change map with (@fmap list _). rewrite <- !list_fmap_compose.
    rewrite (list_fmap_ext _ (doppler_sample expstart doppzero doppmag orbitper) (seq 0 n)).
    2:{ intros i x _. unfold compose, doppler_sample, doppler_shift. do 3 f_equal. ring. }
    destruct (array_min_samples (doppler_sample expstart doppzero doppmag orbitper) n Hn)
      as (mn & -> & Hmin).
    destruct (array_max_samples (doppler_sample expstart doppzero doppmag orbitper) n Hn)
      as (mx & -> & Hmax).
    exists mn, mx. done.
Qed.

End DopplerRange.

(** A three-second exposure starting a quarter of a day after [doppzero]. *)
Lemma minmaxDoppler_spec_witness :
  let info : pydict :=
    {[ "expstart" := PFloat (Q2Qc (1 # 4)); "exptime" := PFloat (Zf 3);
       "dispaxis" := PInt 1 ]} in
  @minmaxDoppler cos_constants libm_linear info "OMIT" 1%Qc 0%Qc (Zf 5700)
  = Ok (0%Qc, 0%Qc) /\
  exists mindopp maxdopp,
    @minmaxDoppler cos_constants libm_linear info "PERFORM" 1%Qc 0%Qc (Zf 5700)
    = Ok (mindopp, maxdopp) /\
    let nelem := Z.to_nat (Z.max (py_round (Zf 3)) 1) in
    is_min_of mindopp nelem
      (@doppler_sample cos_constants libm_linear (Q2Qc (1 # 4)) 0%Qc 1%Qc (Zf 5700)) /\
    is_max_of maxdopp nelem
      (@doppler_sample cos_constants libm_linear (Q2Qc (1 # 4)) 0%Qc 1%Qc (Zf 5700)).
Proof.
  intros info. split.
  - apply (@minmaxDoppler_spec cos_constants libm_linear info "OMIT" 1%Qc 0%Qc (Zf 5700)).
    discriminate.
  - apply (proj2 (@minmaxDoppler_spec cos_constants libm_linear info "PERFORM"
                    1%Qc 0%Qc (Zf 5700)) (Q2Qc (1 # 4)) (Zf 3) 1);
      [reflexivity | reflexivity | reflexivity | reflexivity | discriminate].
Defined.

(** ** StatisticsAggregator *)

Lemma combineStat_single s : combineStat [s] = s.
Proof. reflexivity. Qed.

Lemma combine_fold l n m s em es :
  foldl combine_step (n, m, s, em, es) l =
  (n + sum_counts (counted l),
   max_from sci_goodmax m (counted l),
   (s + weighted_sum sci_goodmean (counted l))%Qc,
   max_from err_goodmax em (counted l),
   (es + weighted_sum err_goodmean (counted l))%Qc).
Proof.
  revert n m s em es. induction l as [|x l IH]; intros n m s em es.
  - unfold sum_counts, weighted_sum, max_from, counted. cbn. tuple_eq.
  - cbn [foldl]. unfold combine_step at 2. unfold counted. rewrite filter_cons.
    fold (counted l). destruct (decide (0 < ngoodpix x)) as [Hx|Hx].
    + rewrite bool_decide_eq_true_2 by done. rewrite IH.
      unfold sum_counts, weighted_sum, max_from. cbn [foldr foldl]. tuple_eq.
    + rewrite bool_decide_eq_false_2 by done. apply IH.
Qed.

Lemma sum_counts_pos l :
  (forall s, s ∈ l -> 0 < ngoodpix s) -> l <> [] -> 0 < sum_counts l.
Proof.
  induction l as [|x l IH]; intros Hl Hne; [done|].
  assert (Hx : 0 < ngoodpix x) by (apply Hl; by left).
  destruct l as [|y l]; [cbn; lia|].
  assert (0 < sum_counts (y :: l))
    by (apply IH; [intros s Hs; apply Hl; by right|done]).
  unfold sum_counts in *. cbn [foldr] in *. lia.
Qed.

Lemma counted_nil_of_total l : ~ 0 < sum_counts (counted l) -> counted l = [].
Proof.
  intros Ht. destruct (counted l) as [|x c] eqn:Hc; [done|]. exfalso. apply Ht.
  rewrite <- Hc in *. apply sum_counts_pos; [|by rewrite Hc].
  intros s Hs. unfold counted in Hs. by apply list_elem_of_filter in Hs as [? _].
Qed.

Lemma sum_counts_counted l :
  (forall s, s ∈ l -> 0 <= ngoodpix s) -> sum_counts (counted l) = sum_counts l.
Proof.
  induction l as [|x l IH]; intros Hl; [done|].
  unfold counted. rewrite filter_cons. fold (counted l).
  assert (Hx : 0 <= ngoodpix x) by (apply Hl; by left).
  assert (IH' : sum_counts (counted l) = sum_counts l)
    by (apply IH; intros s Hs; apply Hl; by right).
  unfold sum_counts in *. destruct (decide (0 < ngoodpix x)); cbn [foldr]; lia.
Qed.

(** X17.  What [combineStat] returns for a list that is not a singleton: over the
    records with a positive count, the sum of the counts, the count-weighted
    means (0 when no record counts), and the running maxima started at 0. *)
Lemma combineStat_general l :
  length l <> 1%nat ->
  let total := sum_counts (counted l) in
  ngoodpix (combineStat l) = total /\
  sci_goodmax (combineStat l) = max_from sci_goodmax 0%Qc (counted l) /\
  err_goodmax (combineStat l) = max_from err_goodmax 0%Qc (counted l) /\
  (0 < total ->
   sci_goodmean (combineStat l) = (weighted_sum sci_goodmean (counted l) / Zf total)%Qc /\
   err_goodmean (combineStat l) = (weighted_sum err_goodmean (counted l) / Zf total)%Qc) /\
  (~ 0 < total ->
   sci_goodmean (combineStat l) = 0%Qc /\ err_goodmean (combineStat l) = 0%Qc).
Proof.
  intros Hlen.
  assert (Hc : combineStat l =
    let '(sum_n, sci_max, sci_sum, err_max, err_sum) :=
      foldl combine_step (0, 0%Qc, 0%Qc, 0%Qc, 0%Qc) l in
    let '(sci_sum, err_sum) :=
      if bool_decide (0 < sum_n)
      then ((sci_sum / Zf sum_n)%Qc, (err_sum / Zf sum_n)%Qc)
      else (sci_sum, err_sum) in
    Stat sum_n sci_max sci_sum err_max err_sum).
  { destruct l as [|a [|b l]]; [done|done|done]. }
  rewrite Hc, combine_fold. cbn zeta. rewrite Z.add_0_l, !Qcplus_0_l.
  case_bool_decide as Ht; cbn [ngoodpix sci_goodmax err_goodmax sci_goodmean err_goodmean].
  - repeat split; done.
  - rewrite (counted_nil_of_total l Ht). repeat split; done.
Qed.

(** C8, the code at the failing input.  Two segments of one good pixel each,
    with science values -1 and -2 (their records are those [computeStat]
    returns): [combineStat] gives the count 2 and the mean -3/2, but the
    maximum 0 where the larger of the two maxima is -1.  The record of the
    first segment alone is returned unchanged, maximum -1. *)
Theorem combineStat_negative_maxima :
  computeStat [[Zf (-1)]] None (Some [[0]]) 3832 = Ok neg_stat1 /\
  computeStat [[Zf (-2)]] None (Some [[0]]) 3832 = Ok neg_stat2 /\
  combineStat [neg_stat1; neg_stat2] = Stat 2 0%Qc (Q2Qc (-3 # 2)) 0%Qc 0%Qc /\
  Qcmax (sci_goodmax neg_stat1) (sci_goodmax neg_stat2) = Zf (-1) /\
  combineStat [neg_stat1] = neg_stat1.
Proof. vm_compute. qc_eq. Qed.

Lemma omap_all_None {A B} (f : A -> option B) (l : list A) :
  (forall x, x ∈ l -> f x = None) -> omap f l = [].
Proof.
  induction l as [|x l IH]; intros Hf; [done|]. simpl.
  rewrite Hf by (apply elem_of_cons; by left).
  apply IH. intros y Hy. apply Hf, elem_of_cons. by right.
Qed.

Lemma concat_all_nil {A} (ls : list (list A)) :
  (forall i l, ls !! i = Some l -> l = []) -> concat ls = [].
Proof.
  induction ls as [|l ls IH]; intros Hl; [done|]. simpl.
  rewrite (Hl 0%nat l) by done. simpl. apply IH. intros i l' Hi. by apply (Hl (S i)).
Qed.

Lemma where_zero_all_flagged (g : dqgrid) :
  (forall row v, row ∈ g -> v ∈ row -> v <> 0) -> where_zero g = [].
Proof.
  intros Hg. unfold where_zero. apply concat_all_nil. intros j l Hj.
  rewrite list_lookup_imap in Hj. destruct (g !! j) as [row|] eqn:Hrow; [|done].
  injection Hj as <-. apply omap_all_None. intros [i v] Hiv.
  rewrite bool_decide_eq_false_2; [done|].
  apply (Hg row v).
  - by eapply list_elem_of_lookup_2.
  - apply elem_of_zip_r in Hiv. done.
Qed.

Lemma serious_all_flagged (dq : dqgrid) sdqflags :
  (forall row v, row ∈ dq -> v ∈ row -> Z.land v sdqflags <> 0) ->
  where_zero (map (map (fun v => Z.land v sdqflags)) dq) = [].
Proof.
  intros Hdq. apply where_zero_all_flagged. intros row v Hrow Hv.
  apply list_elem_of_In, in_map_iff in Hrow as (row' & <- & Hrow').
  apply list_elem_of_In, in_map_iff in Hv as (v' & <- & Hv').
  apply (Hdq row' v'); by apply list_elem_of_In.
Qed.

Lemma py_div_not_zero_division a n : 0 < n -> py_div a n <> Raise ZeroDivisionError.
Proof. intros Hn. unfold py_div. rewrite bool_decide_eq_false_2 by lia. done. Qed.

Lemma take_mask_not_zero_division band mask :
  take_mask band mask <> Raise ZeroDivisionError.
Proof.
  unfold take_mask. induction mask as [|[j i] mask IH]; [done|].
  cbn. destruct (band !! j ≫= _); cbn; [|done].
  destruct (mapM _ mask); cbn; [done|]. intros [= ->]. done.
Qed.

Lemma maximum_reduce_not_zero_division a : maximum_reduce a <> Raise ZeroDivisionError.
Proof. by destruct a. Qed.

Lemma bind_not_zero_division {A B} (r : result A) (k : A -> result B) :
  r <> Raise ZeroDivisionError -> (forall a, k a <> Raise ZeroDivisionError) ->
  r ≫= k <> Raise ZeroDivisionError.
Proof. intros Hr Hk. destruct r as [a|e]; cbn; [apply Hk|]. intros [= ->]. done. Qed.

(** Every division of [computeStat] is under [ngoodpix > 0]. *)
Lemma computeStat_division_guarded sci_band err_band dq_band sdqflags :
  computeStat sci_band err_band dq_band sdqflags <> Raise ZeroDivisionError.
Proof.
  unfold computeStat.
  set (mask := match dq_band with None => None | Some d => _ end).
  apply bind_not_zero_division.
  { destruct mask; [apply take_mask_not_zero_division|done]. }
  intros sci_good. apply bind_not_zero_division.
  { case_bool_decide as Hn; [|done].
    apply bind_not_zero_division; [apply maximum_reduce_not_zero_division|intros gmax].
    apply bind_not_zero_division; [by apply py_div_not_zero_division|done]. }
  intros stat_info. destruct err_band as [err_band|]; [|done].
  apply bind_not_zero_division.
  { destruct mask; [apply take_mask_not_zero_division|done]. }
  intros err_good. case_bool_decide as Hn; [|done].
  apply bind_not_zero_division; [apply maximum_reduce_not_zero_division|intros gmax].
  apply bind_not_zero_division; [by apply py_div_not_zero_division|done].
Qed.

(** C9.  When every entry of the flags array has a serious flag, or there
    is no flags array and the science array is empty, [computeStat] returns
    the record of zeros, whatever the science and error arrays; and on no
    input does it divide by a zero count. *)
Theorem computeStat_no_good_pixel sci_band err_band dq_band sdqflags :
  no_good_pixel sci_band dq_band sdqflags ->
  computeStat sci_band err_band dq_band sdqflags = Ok (Stat 0 0%Qc 0%Qc 0%Qc 0%Qc) /\
  forall sci' err' dq' sdq', computeStat sci' err' dq' sdq' <> Raise ZeroDivisionError.
Proof.
  intros Hno. split; [|apply computeStat_division_guarded].
  unfold computeStat. destruct dq_band as [dq|]; simpl in Hno.
  - rewrite (serious_all_flagged dq sdqflags Hno). cbn.
    destruct err_band; cbn;
      rewrite ?(bool_decide_eq_false_2 (0 < Z.of_nat 0)) by (simpl; lia); reflexivity.
  - rewrite Hno. cbn.
    destruct err_band; cbn;
      rewrite ?(bool_decide_eq_false_2 (0 < Z.of_nat 0)) by (simpl; lia); reflexivity.
Qed.

(** A 1 x 2 image whose two pixels carry serious flags (8 and 16). *)
Lemma computeStat_no_good_pixel_witness :
  computeStat [[Zf 5; Zf 7]] (Some [[1%Qc; 1%Qc]]) (Some [[8; 16]]) 3832
  = Ok (Stat 0 0%Qc 0%Qc 0%Qc 0%Qc) /\
  forall sci' err' dq' sdq', computeStat sci' err' dq' sdq' <> Raise ZeroDivisionError.
Proof.
  apply (computeStat_no_good_pixel [[Zf 5; Zf 7]] (Some [[1%Qc; 1%Qc]]) (Some [[8; 16]]) 3832).
  intros row v Hrow Hv.
  apply list_elem_of_singleton in Hrow as ->.
  apply elem_of_cons in Hv as [->|Hv]; [discriminate|].
  apply list_elem_of_singleton in Hv as ->. discriminate.
Defined.

(** ** [clearSubarray] *)

(** C10, the code at the failing input.  A 4 x 4 grid flagged throughout
    and the rectangle [x0 = -6, x1 = -2, y0 = 0, y1 = 4] without offsets: the
    clipped bounds are [x0 = 0] and [x1 = -2], an empty rectangle, but the
    slice [0:-2] counts its upper bound from the right edge, and columns 0
    and 1 of the grid are cleared. *)
Theorem clearSubarray_negative_upper_bound :
  @clearSubarray cos_constants flagged4 (Int (-6)) (Int (-2)) (Int 0) (Int 4) 0 0 (Int 0)
  = [[0; 0; 128; 128]; [0; 0; 128; 128]; [0; 0; 128; 128]; [0; 0; 128; 128]] /\
  py_max (Int (-6)) (Int 0) = Int 0 /\ py_min (Int (-2)) (Int 4) = Int (-2).
Proof. vm_compute. done. Qed.

Section ClearSubarray.
Context `{Calcosparam}.

Lemma slice_index_nonneg n i : 0 <= i -> slice_index n i = Z.min i (Z.of_nat n).
Proof. intros Hi. unfold slice_index. rewrite bool_decide_eq_false_2 by lia. done. Qed.

Lemma in_slice_clipped n lo hi k :
  0 <= lo -> 0 <= hi <= Z.of_nat n -> (k < n)%nat ->
  in_slice n lo hi k = bool_decide (lo <= Z.of_nat k < hi).
Proof.
  intros Hlo Hhi Hk. unfold in_slice. rewrite !slice_index_nonneg by lia.
  apply eq_true_iff_eq. rewrite andb_true_iff, !bool_decide_eq_true. lia.
Qed.

(** The cells of the grid after [clearSubarray], when the shifted upper
    bounds are not negative. *)
Lemma clearSubarray_cell temp x0 x1 y0 y1 dx dy x_offset j i :
  (forall row, row ∈ temp -> length row = length (hd [] temp)) ->
  let X0 := Z.max (x0 + x_offset - dx) 0 in
  let X1 := Z.min (x1 + x_offset - dx) (Z.of_nat (length (hd [] temp))) in
  let Y0 := Z.max (y0 - dy) 0 in
  let Y1 := Z.min (y1 - dy) (Z.of_nat (length temp)) in
  0 <= X1 -> 0 <= Y1 ->
  cell (clearSubarray temp (Int x0) (Int x1) (Int y0) (Int y1) dx dy (Int x_offset)) j i =
  (fun c => if bool_decide (Y0 <= Z.of_nat j < Y1 /\ X0 <= Z.of_nat i < X1)
            then DQ_OK else c) <$> cell temp j i.
Proof.
  intros Hrect X0 X1 Y0 Y1 HX1 HY1. unfold clearSubarray, shape.
  rewrite cell_update_region.
  destruct (cell temp j i) as [c|] eqn:Hc; [|done]. cbn [fmap option_fmap option_map].
  f_equal. unfold cell in Hc. destruct (temp !! j) as [row|] eqn:Hrow; [|done].
  cbn in Hc.
  assert (Hj : (j < length temp)%nat) by (by eapply lookup_lt_Some).
  assert (Hi : (i < length (hd [] temp))%nat).
  { rewrite <- (Hrect row) by (by eapply list_elem_of_lookup_2). by eapply lookup_lt_Some. }
  assert (Hx0 : num_index (py_max (num_sub (num_add (Int x0) (Int x_offset)) (Int dx))
                             (Int 0)) = X0).
  { unfold py_max, num_sub, num_add, num_arith, num_ltb, X0. case_bool_decide; cbn; lia. }
  assert (Hx1 : num_index (py_min (num_sub (num_add (Int x1) (Int x_offset)) (Int dx))
                             (Int (Z.of_nat (length (hd [] temp))))) = X1).
  { unfold py_min, num_sub, num_add, num_arith, num_ltb, X1. case_bool_decide; cbn; lia. }
  assert (Hy0 : num_index (py_max (num_sub (Int y0) (Int dy)) (Int 0)) = Y0).
  { unfold py_max, num_sub, num_arith, num_ltb, Y0. case_bool_decide; cbn; lia. }
  assert (Hy1 : num_index (py_min (num_sub (Int y1) (Int dy))
                             (Int (Z.of_nat (length temp)))) = Y1).
  { unfold py_min, num_sub, num_arith, num_ltb, Y1. case_bool_decide; cbn; lia. }
  rewrite Hx0, Hx1, Hy0, Hy1.
  rewrite (in_slice_clipped (length temp)) by (unfold Y0, Y1; lia).
  rewrite (in_slice_clipped (length (hd [] temp))) by (unfold X0, X1; lia).
  repeat case_bool_decide; cbn [andb]; first [done | tauto].
Qed.

(** X18.  When the shifted upper bounds are not negative, [clearSubarray] does
    clip: inside the clipped rectangle a cell becomes [DQ_OK], every other
    cell of the grid is as before, and no cell is added. *)
Theorem clearSubarray_clipped temp x0 x1 y0 y1 dx dy x_offset j i :
  (forall row, row ∈ temp -> length row = length (hd [] temp)) ->
  let X0 := Z.max (x0 + x_offset - dx) 0 in
  let X1 := Z.min (x1 + x_offset - dx) (Z.of_nat (length (hd [] temp))) in
  let Y0 := Z.max (y0 - dy) 0 in
  let Y1 := Z.min (y1 - dy) (Z.of_nat (length temp)) in
  0 <= X1 -> 0 <= Y1 ->
  cell (clearSubarray temp (Int x0) (Int x1) (Int y0) (Int y1) dx dy (Int x_offset)) j i =
  (fun c => if bool_decide (Y0 <= Z.of_nat j < Y1 /\ X0 <= Z.of_nat i < X1)
            then DQ_OK else c) <$> cell temp j i.
Proof. apply clearSubarray_cell. Qed.

End ClearSubarray.

(** ** DispersionSolver: what the polynomial loops compute *)

Lemma foldr_imap_linear (t : Qc) (cs : list Qc) (f g h : nat -> Qc -> Qc) :
  (forall i c, f i c = (g i c + t * h i c)%Qc) ->
  foldr Qcplus 0%Qc (imap f cs) =
  (foldr Qcplus 0%Qc (imap g cs) + t * foldr Qcplus 0%Qc (imap h cs))%Qc.
Proof.
  revert f g h. induction cs as [|c cs IH]; intros f g h Hfg; cbn [imap foldr]; [ring|].
  rewrite (IH (f ∘ S) (g ∘ S) (h ∘ S)) by (intros; apply Hfg). rewrite Hfg. ring.
Qed.

Lemma foldr_imap_zero (cs : list Qc) (f : nat -> Qc -> Qc) :
  (forall i c, f i c = 0%Qc) -> foldr Qcplus 0%Qc (imap f cs) = 0%Qc.
Proof.
  revert f. induction cs as [|c cs IH]; intros f Hf; cbn [imap foldr]; [done|].
  rewrite (IH (f ∘ S)) by (intros; apply Hf). rewrite Hf. ring.
Qed.

Lemma poly_value_cons c cs t : poly_value (c :: cs) t = (c + t * poly_value cs t)%Qc.
Proof.
  unfold poly_value. cbn [imap foldr]. f_equal; [cbn; ring|].
  rewrite (foldr_imap_linear t cs _ (fun _ _ => 0%Qc) (fun i c => c * t ^ i)%Qc).
  - rewrite foldr_imap_zero by done. ring.
  - intros i c'. unfold compose. cbn [Qcpower]. ring.
Qed.

Lemma Zf_nat_0 : Zf (Z.of_nat 0) = 0%Qc.
Proof. apply Qc_is_canon; reflexivity. Qed.

Lemma Zf_succ i : Zf (Z.of_nat (S i)) = (1 + Zf (Z.of_nat i))%Qc.
Proof. unfold Zf. rewrite Nat2Z.inj_succ, <- Z.add_1_l, Z2Qc_inj_add. done. Qed.

Lemma poly_slope_cons c cs t :
  poly_slope (c :: cs) t = (poly_value cs t + t * poly_slope cs t)%Qc.
Proof.
  unfold poly_slope, poly_value. cbn [imap foldr].
  replace (Zf (Z.of_nat 0) * c * t ^ (0 - 1))%Qc with 0%Qc
    by (rewrite Zf_nat_0; ring).
  rewrite Qcplus_0_l.
  apply foldr_imap_linear. intros i c'. unfold compose.
  replace (S i - 1)%nat with i by lia. rewrite Zf_succ.
  destruct i as [|i].
  - rewrite Zf_nat_0. cbn [Qcpower]. ring.
  - replace (S i - 1)%nat with i by lia. cbn [Qcpower]. ring.
Qed.

Lemma horner_loop (f : nat -> Qc) (t top : Qc) (m : nat) :
  foldl (fun sum i => (sum * t + f i)%Qc) top (rev (seq 0 (S m))) =
  (foldl (fun sum i => (sum * t + f (S i))%Qc) top (rev (seq 0 m)) * t + f 0%nat)%Qc.
Proof.
  rewrite <- cons_seq, <- fmap_S_seq. cbn [rev]. rewrite foldl_app. cbn [foldl].
  do 2 f_equal. change (S <$> seq 0 m) with (map S (seq 0 m)).
  rewrite <- map_rev. change (map S (rev (seq 0 m))) with (S <$> rev (seq 0 m)).
  by rewrite foldl_fmap.
Qed.

Lemma horner_value (coeff : list Qc) (t : Qc) :
  coeff <> [] ->
  foldl (fun sum i => (sum * t + nth i coeff 0)%Qc) (nth (length coeff - 1) coeff 0%Qc)
        (rev (seq 0 (length coeff - 1)))
  = poly_value coeff t.
Proof.
  induction coeff as [|c cs IH]; intros Hne; [done|].
  destruct cs as [|c' cs].
  - cbn. unfold poly_value. cbn. ring.
  - rewrite poly_value_cons, <- IH by done.
    replace (length (c :: c' :: cs) - 1)%nat with (S (length (c' :: cs) - 1))
      by (cbn [length]; lia).
    rewrite (horner_loop (fun i => nth i (c :: c' :: cs) 0%Qc)).
    cbn [nth]. ring.
Qed.

(** The coefficients of the derivative. *)
Lemma nth_imap_deriv (cs : list Qc) (j : nat) :
  nth j (imap (fun j c => Zf (Z.of_nat (S j)) * c)%Qc cs) 0%Qc
  = (Zf (Z.of_nat (S j)) * nth j cs 0)%Qc.
Proof.
  assert (Hgen : forall k, nth j (imap (fun j c => Zf (Z.of_nat (S (k + j))) * c)%Qc cs) 0%Qc
                           = (Zf (Z.of_nat (S (k + j))) * nth j cs 0)%Qc).
  { revert j. induction cs as [|c cs IH]; intros j k.
    - destruct j; cbn; ring.
    - destruct j as [|j]; cbn [imap nth]; [done|].
      rewrite (imap_ext _ (fun j c => Zf (Z.of_nat (S (S k + j))) * c)%Qc).
      + rewrite IH. do 3 f_equal. lia.
      + intros i x _. unfold compose. do 3 f_equal. lia. }
  apply (Hgen 0%nat).
Qed.

Lemma imap_compose {A B C} (g : nat -> B -> C) (h : nat -> A -> B) (l : list A) :
  imap g (imap h l) = imap (fun i x => g i (h i x)) l.
Proof.
  revert g h. induction l as [|x l IH]; intros g h; [done|].
  cbn [imap]. f_equal. apply IH.
Qed.

Lemma poly_slope_deriv c cs t :
  poly_slope (c :: cs) t = poly_value (imap (fun j c => Zf (Z.of_nat (S j)) * c)%Qc cs) t.
Proof.
  unfold poly_slope, poly_value. cbn [imap foldr]. rewrite Zf_nat_0.
  replace (0 * c * t ^ (0 - 1))%Qc with 0%Qc by ring. rewrite Qcplus_0_l.
  rewrite imap_compose. f_equal. apply imap_ext. intros i x _. unfold compose.
  replace (S i - 1)%nat with i by lia. done.
Qed.

Lemma scalar_loop (g : nat -> Qc) (t top : Qc) (l : list nat) :
  foldl (fun sum i => nd_map2 Qcplus (nd_map2 Qcmult sum (Scalar t)) (Scalar (g i)))
        (Scalar top) l
  = Scalar (foldl (fun sum i => (sum * t + g i)%Qc) top l).
Proof. revert top. induction l as [|i l IH]; intros top; [done|]. cbn [foldl]. apply IH. Qed.

Lemma foldl_pointwise {A B} (f g : A -> B -> A) (a : A) (l : list B) :
  (forall a b, f a b = g a b) -> foldl f a l = foldl g a l.
Proof.
  intros Hfg. revert a. induction l as [|b l IH]; intros a; [done|].
  cbn [foldl]. by rewrite Hfg, IH.
Qed.

Lemma horner_slope (coeff : list Qc) (t : Qc) :
  (2 <= length coeff)%nat ->
  foldl (fun sum n => (sum * t + Zf (Z.of_nat n) * nth n coeff 0)%Qc)
        (Zf (Z.of_nat (length coeff) - 1) * nth (length coeff - 1) coeff 0)%Qc
        (rev (seq 1 (length coeff - 2)))
  = poly_slope coeff t.
Proof.
  intros Hlen. destruct coeff as [|c cs]; [simpl in Hlen; lia|].
  assert (Hcs : cs <> []) by (intros ->; simpl in Hlen; lia).
  rewrite poly_slope_deriv.
  set (d := imap (fun j c => Zf (Z.of_nat (S j)) * c)%Qc cs).
  assert (Hd : length d = length cs) by (unfold d; by rewrite length_imap).
  rewrite <- (horner_value d t) by (intros Hnil; rewrite Hnil in Hd; by destruct cs).
  rewrite Hd.
  replace (length (c :: cs) - 2)%nat with (length cs - 1)%nat by (cbn [length]; lia).
  rewrite <- fmap_S_seq. change (S <$> seq 0 (length cs - 1)) with (map S (seq 0 (length cs - 1))).
  rewrite <- map_rev. change (map S ?l) with (S <$> l). rewrite foldl_fmap.
  assert (Htop : (Zf (Z.of_nat (length (c :: cs)) - 1) * nth (length (c :: cs) - 1) (c :: cs) 0)%Qc
                 = nth (length cs - 1) d 0%Qc).
  { unfold d. rewrite nth_imap_deriv.
    replace (length (c :: cs) - 1)%nat with (S (length cs - 1)).
    2:{ cbn [length]. destruct cs; [done|]. cbn [length]. lia. }
    cbn [nth]. do 2 f_equal. cbn [length]. destruct cs; [done|]. cbn [length]. lia. }
  rewrite Htop. apply foldl_pointwise. intros sum n. cbn [nth].
  unfold d. by rewrite nth_imap_deriv.
Qed.

Lemma evalDerivDisp_scalar x coeff delta :
  (2 <= length coeff)%nat ->
  evalDerivDisp (Scalar x) coeff delta = Ok (Scalar (poly_slope coeff (x - delta))).
Proof.
  intros Hlen. unfold evalDerivDisp. rewrite bool_decide_eq_false_2 by lia.
  cbn [nd_map]. rewrite (scalar_loop (fun n => Zf (Z.of_nat n) * nth n coeff 0)%Qc).
  by rewrite horner_slope.
Qed.

Lemma evalDisp_scalar x coeff delta :
  (2 <= length coeff)%nat ->
  evalDisp (Scalar x) coeff delta = Ok (Scalar (poly_value coeff (x - delta))).
Proof.
  intros Hlen. unfold evalDisp. rewrite bool_decide_eq_false_2 by lia.
  cbn [nd_map]. rewrite scalar_loop, horner_value; [done|].
  intros ->. simpl in Hlen. lia.
Qed.

Lemma zip_with_map_diag (f : Qc -> Qc -> Qc) (h : Qc -> Qc) (l : list Qc) :
  zip_with f (map h l) l = map (fun x => f (h x) x) l.
Proof. induction l as [|x l IH]; [done|]. cbn. by rewrite IH. Qed.

Lemma array_loop (g : nat -> Qc) (ts : list Qc) (h : Qc -> Qc) (l : list nat) :
  foldl (fun sum i => nd_map2 Qcplus (nd_map2 Qcmult sum (Array ts)) (Scalar (g i)))
        (Array (map h ts)) l
  = Array (map (fun t => foldl (fun sum i => (sum * t + g i)%Qc) (h t) l) ts).
Proof.
  revert h. induction l as [|i l IH]; intros h; [done|].
  cbn [foldl nd_map2]. rewrite zip_with_map_diag, map_map.
  apply (IH (fun t => (h t * t + g i)%Qc)).
Qed.

Lemma array_loop_start (g : nat -> Qc) (ts : list Qc) (top : Qc) (i : nat) (l : list nat) :
  foldl (fun sum i => nd_map2 Qcplus (nd_map2 Qcmult sum (Array ts)) (Scalar (g i)))
        (Scalar top) (i :: l)
  = Array (map (fun t => foldl (fun sum i => (sum * t + g i)%Qc) top (i :: l)) ts).
Proof.
  cbn [foldl nd_map2]. rewrite map_map.
  apply (array_loop g ts (fun t => (top * t + g i)%Qc)).
Qed.

Lemma rev_seq_S k : rev (seq 0 (S k)) = k :: rev (seq 0 k).
Proof. rewrite seq_S, rev_app_distr. done. Qed.

Lemma rev_seq1_S k : rev (seq 1 (S k)) = S k :: rev (seq 1 k).
Proof. rewrite seq_S, rev_app_distr. done. Qed.

Lemma evalDisp_array xs coeff delta :
  (2 <= length coeff)%nat ->
  evalDisp (Array xs) coeff delta
  = Ok (Array (map (fun x => poly_value coeff (x - delta)%Qc) xs)).
Proof.
  intros Hlen. unfold evalDisp. rewrite bool_decide_eq_false_2 by lia.
  cbn [nd_map]. destruct (length coeff - 1)%nat as [|k] eqn:Hk; [lia|].
  rewrite rev_seq_S, array_loop_start, map_map. do 2 f_equal.
  apply map_ext. intros x. rewrite <- rev_seq_S, <- Hk. apply horner_value.
  intros ->. simpl in Hlen. lia.
Qed.

Lemma evalDerivDisp_array xs coeff delta :
  (2 <= length coeff)%nat ->
  evalDerivDisp (Array xs) coeff delta
  = Ok (if bool_decide (length coeff = 2%nat)
        then Scalar (poly_slope coeff 0)
        else Array (map (fun x => poly_slope coeff (x - delta)%Qc) xs)).
Proof.
  intros Hlen. unfold evalDerivDisp. rewrite bool_decide_eq_false_2 by lia.
  cbn [nd_map]. case_bool_decide as H2.
  - rewrite H2. cbn [Nat.sub seq rev foldl]. do 2 f_equal.
    rewrite <- (horner_slope coeff 0) by done. rewrite H2. done.
  - destruct (length coeff - 2)%nat as [|k] eqn:Hk; [lia|].
    rewrite rev_seq1_S.
    rewrite (array_loop_start (fun n => Zf (Z.of_nat n) * nth n coeff 0)%Qc), map_map.
    do 2 f_equal. apply map_ext. intros x. rewrite <- rev_seq1_S, <- Hk.
    by apply horner_slope.
Qed.

(** X1.  With two coefficients or more, [evalDisp] returns the value of the
    polynomial [coeff[0] + coeff[1] t + ... + coeff[n-1] t^(n-1)] at
    [t = x - delta]: for a scalar [x], and element by element for an
    array. *)
Theorem evalDisp_polynomial coeff delta :
  (2 <= length coeff)%nat ->
  (forall x, evalDisp (Scalar x) coeff delta = Ok (Scalar (poly_value coeff (x - delta)))) /\
  (forall xs, evalDisp (Array xs) coeff delta
              = Ok (Array (map (fun x => poly_value coeff (x - delta)%Qc) xs))).
Proof.
  intros Hlen. split; [intros x; by apply evalDisp_scalar|].
  intros xs. by apply evalDisp_array.
Qed.

Lemma evalDisp_polynomial_witness :
  (forall x, evalDisp (Scalar x) cycle_coeff 0%Qc
             = Ok (Scalar (poly_value cycle_coeff (x - 0)))) /\
  (forall xs, evalDisp (Array xs) cycle_coeff 0%Qc
              = Ok (Array (map (fun x => poly_value cycle_coeff (x - 0)%Qc) xs))).
Proof. apply (evalDisp_polynomial cycle_coeff 0%Qc). simpl. lia. Defined.

(** X2.  With two coefficients or more, [evalDerivDisp] returns the
    derivative [coeff[1] + 2 coeff[2] t + ... + (n-1) coeff[n-1] t^(n-2)] of
    that polynomial at [t = x - delta].  For an array [x] the result is an
    array, except with exactly two coefficients, where the loop body never
    runs and the constant slope comes back as a scalar. *)
Theorem evalDerivDisp_derivative coeff delta :
  (2 <= length coeff)%nat ->
  (forall x, evalDerivDisp (Scalar x) coeff delta
             = Ok (Scalar (poly_slope coeff (x - delta)))) /\
  (forall xs, evalDerivDisp (Array xs) coeff delta
              = Ok (if bool_decide (length coeff = 2%nat)
                    then Scalar (poly_slope coeff 0)
                    else Array (map (fun x => poly_slope coeff (x - delta)%Qc) xs))).
Proof.
  intros Hlen. split; [intros x; by apply evalDerivDisp_scalar|].
  intros xs. by apply evalDerivDisp_array.
Qed.

Lemma evalDerivDisp_derivative_witness :
  (forall x, evalDerivDisp (Scalar x) cycle_coeff 0%Qc
             = Ok (Scalar (poly_slope cycle_coeff (x - 0)))) /\
  (forall xs, evalDerivDisp (Array xs) cycle_coeff 0%Qc
              = Ok (if bool_decide (length cycle_coeff = 2%nat)
                    then Scalar (poly_slope cycle_coeff 0)
                    else Array (map (fun x => poly_slope cycle_coeff (x - 0)%Qc) xs))).
Proof. apply (evalDerivDisp_derivative cycle_coeff 0%Qc). simpl. lia. Defined.

Lemma Qcabs_nonneg q : (0 <= Qcabs q)%Qc.
Proof.
  unfold Qcabs. case_bool_decide as Hq.
  - change 0%Qc with (- 0)%Qc. apply Qcopp_le_compat. by apply Qclt_le_weak.
  - by apply Qcnot_lt_le.
Qed.

Lemma foldl_Qcmax_ge_first qs q : (q <= foldl Qcmax q qs)%Qc.
Proof. apply foldl_Qcmax_spec. by left. Qed.

Lemma nd_max_abs_nonneg v d : nd_max (nd_map Qcabs v) = Ok d -> (0 <= d)%Qc.
Proof.
  unfold nd_max. destruct v as [q|[|q qs]]; cbn; [| done |]; intros [= <-].
  - apply Qcabs_nonneg.
  - eapply Qcle_trans; [apply Qcabs_nonneg|apply foldl_Qcmax_ge_first].
Qed.

Lemma newton_pass_step_nonneg wavelength coeff delta x x' d :
  newton_pass wavelength coeff delta x = Ok (x', d) -> (0 <= d)%Qc.
Proof.
  unfold newton_pass.
  destruct (evalDisp x coeff delta) as [wl|]; cbn [mbind result_bind]; [|done].
  destruct (evalDerivDisp x coeff delta) as [slope|]; cbn [mbind result_bind]; [|done].
  destruct (nd_div _ slope) as [step|]; cbn [mbind result_bind]; [|done].
  destruct (nd_max _) as [d'|] eqn:Hd; cbn [mbind result_bind]; [|done].
  intros [= _ <-]. by eapply nd_max_abs_nonneg.
Qed.

(** X5.  With [tiny = 0] no step is below the tolerance: [evalInvDisp]
    never returns, whatever the input and however many passes it is
    given. *)
Theorem evalInvDisp_zero_tolerance fuel wavelength coeff delta r :
  evalInvDisp fuel wavelength coeff delta 0 <> Done r.
Proof.
  intros Hdone.
  unfold evalInvDisp in Hdone. apply newton_loop_done in Hdone.
  destruct Hdone as (k & x & d & _ & _ & Hpass & Hlt).
  apply newton_pass_step_nonneg in Hpass.
  change (Qcabs 0) with 0%Qc in Hlt. by apply Qcle_not_lt in Hpass.
Qed.

(** X3.  With fewer than two coefficients [evalDisp] and [evalDerivDisp]
    raise ValueError, and so does [evalInvDisp] in its first pass. *)
Theorem dispersion_too_few_coefficients x wavelength coeff delta tiny fuel :
  (length coeff < 2)%nat ->
  evalDisp x coeff delta = Raise ValueError /\
  evalDerivDisp x coeff delta = Raise ValueError /\
  evalInvDisp (S fuel) wavelength coeff delta tiny = Raised ValueError.
Proof.
  intros Hlen.
  assert (Hd : forall x, evalDisp x coeff delta = Raise ValueError).
  { intros y. unfold evalDisp. by rewrite bool_decide_eq_true_2. }
  split; [apply Hd|]. split.
  - unfold evalDerivDisp. by rewrite bool_decide_eq_true_2.
  - unfold evalInvDisp. cbn [newton_loop]. unfold newton_pass. by rewrite Hd.
Qed.

(** A linear dispersion relation is inverted exactly. *)
Lemma linear_pass w c0 c1 delta x :
  c1 <> 0%Qc ->
  newton_pass (Scalar w) [c0; c1] delta (Scalar x)
  = Ok (Scalar (delta + (w - c0) / c1)%Qc, Qcabs (delta + (w - c0) / c1 - x)%Qc).
Proof.
  intros Hc1. unfold newton_pass.
  rewrite evalDisp_scalar, evalDerivDisp_scalar by (simpl; lia).
  cbn [mbind result_bind]. unfold nd_div. cbn [nd_elems].
  assert (Hs : poly_slope [c0; c1] (x - delta) = c1).
  { unfold poly_slope. cbn. rewrite Zf_nat_0.
    change (Zf (Z.of_nat 1)) with (Zf 1). rewrite Zf_1. ring. }
  assert (Hv : poly_value [c0; c1] (x - delta) = (c0 + c1 * (x - delta))%Qc).
  { unfold poly_value. cbn. ring. }
  rewrite Hs, Hv.
  rewrite bool_decide_eq_false_2.
  2:{ rewrite Exists_cons, Exists_nil. by intros [H0|[]]. }
  cbn [mbind result_bind nd_map2 nd_map nd_max nd_elems foldl].
  assert (Hx : (x + (w - (c0 + c1 * (x - delta))) / c1)%Qc = (delta + (w - c0) / c1)%Qc)
    by (field; done).
  by rewrite Hx.
Qed.

(** X4.  A linear dispersion relation [c0 + c1 (x - delta)] with [c1 <> 0]
    is inverted exactly: for a scalar wavelength [w] and a non-zero [tiny],
    [evalInvDisp] returns [delta + (w - c0) / c1] within two passes, and
    [evalDisp] at that pixel gives [w] back. *)
Theorem evalInvDisp_linear fuel w c0 c1 delta tiny :
  c1 <> 0%Qc -> tiny <> 0%Qc -> (2 <= fuel)%nat ->
  evalInvDisp fuel (Scalar w) [c0; c1] delta tiny = Done (Scalar (delta + (w - c0) / c1)%Qc) /\
  evalDisp (Scalar (delta + (w - c0) / c1)%Qc) [c0; c1] delta = Ok (Scalar w).
Proof.
  intros Hc1 Htiny Hfuel. split.
  - assert (Hpos : (0 < Qcabs tiny)%Qc).
    { destruct (Qcle_lt_or_eq _ _ (Qcabs_nonneg tiny)) as [Hlt|Heq]; [done|].
      exfalso. apply Htiny. unfold Qcabs in Heq. case_bool_decide; [|done].
      rewrite <- (Qcopp_involutive tiny), <- Heq. done. }
    destruct fuel as [|[|fuel]]; [lia|lia|].
    unfold evalInvDisp. cbn [initial_x newton_loop]. rewrite linear_pass by done.
    case_bool_decide; [done|]. rewrite linear_pass by done.
    rewrite bool_decide_eq_true_2; [done|].
    replace (delta + (w - c0) / c1 - (delta + (w - c0) / c1))%Qc with 0%Qc by ring.
    done.
  - rewrite evalDisp_scalar by (simpl; lia). do 2 f_equal.
    unfold poly_value. cbn. field. done.
Qed.

Lemma evalInvDisp_linear_witness :
  evalInvDisp 2 (Scalar (Zf 7)) [Zf 1; Zf 2] 0%Qc default_tiny
  = Done (Scalar (0 + (Zf 7 - Zf 1) / Zf 2)%Qc) /\
  evalDisp (Scalar (0 + (Zf 7 - Zf 1) / Zf 2)%Qc) [Zf 1; Zf 2] 0%Qc = Ok (Scalar (Zf 7)).
Proof.
  apply (evalInvDisp_linear 2 (Zf 7) (Zf 1) (Zf 2) 0%Qc default_tiny); [done|done|lia].
Defined.

(** X6.  For an empty array of wavelengths [evalInvDisp] raises ValueError
    in its first pass, at [diff.max ()] (the coefficients being three or
    more, or two with a non-zero slope). *)
Theorem evalInvDisp_empty_array fuel coeff delta tiny :
  (3 <= length coeff)%nat \/ (length coeff = 2%nat /\ nth 1 coeff 0%Qc <> 0%Qc) ->
  evalInvDisp (S fuel) (Array []) coeff delta tiny = Raised ValueError.
Proof.
  intros Hc. unfold evalInvDisp. cbn [initial_x length arange seq map newton_loop].
  unfold newton_pass.
  assert (Hlen : (2 <= length coeff)%nat) by (destruct Hc as [?|[? _]]; lia).
  rewrite (evalDisp_array [] coeff delta Hlen), (evalDerivDisp_array [] coeff delta Hlen).
  cbn [mbind result_bind map nd_map2 zip_with].
  destruct (decide (length coeff = 2%nat)) as [H2|H2].
  - rewrite (bool_decide_eq_true_2 _ H2). unfold nd_div. cbn [nd_elems].
    rewrite bool_decide_eq_false_2; [reflexivity|].
    rewrite Exists_cons, Exists_nil. intros [H0|[]].
    destruct Hc as [?|[_ Hne]]; [lia|]. apply Hne. rewrite <- H0.
    destruct coeff as [|c0 [|c1 [|? ?]]]; try done.
    unfold poly_slope. cbn. rewrite Zf_nat_0. change (Zf (Z.of_nat 1)) with (Zf 1).
    rewrite Zf_1. ring.
  - rewrite (bool_decide_eq_false_2 _ H2). unfold nd_div. cbn [nd_elems].
    rewrite bool_decide_eq_false_2; [reflexivity|]. intros Hex. by apply Exists_nil in Hex.
Qed.

Lemma evalInvDisp_empty_array_witness :
  evalInvDisp 1 (Array []) [Zf 1; Zf 2] 0%Qc default_tiny = Raised ValueError.
Proof.
  apply (evalInvDisp_empty_array 0 [Zf 1; Zf 2] 0%Qc default_tiny).
  right. split; [reflexivity|]. done.
Defined.

Lemma dispersion_too_few_coefficients_witness :
  evalDisp (Scalar 0%Qc) [Zf 1] 0%Qc = Raise ValueError /\
  evalDerivDisp (Scalar 0%Qc) [Zf 1] 0%Qc = Raise ValueError /\
  evalInvDisp 1 (Scalar 0%Qc) [Zf 1] 0%Qc default_tiny = Raised ValueError.
Proof.
  apply (dispersion_too_few_coefficients (Scalar 0%Qc) (Scalar 0%Qc) [Zf 1] 0%Qc default_tiny 0).
  simpl. lia.
Defined.

(** ** ReferenceTableLookup: what [getTable] returns *)

Section TableLookupPolicy.
Context `{Calcosparam}.

Lemma selected_rows_replicate n : selected_rows (replicate n true) = seq 0 n.
Proof.
  unfold selected_rows. rewrite length_replicate.
  assert (Hgen : forall k, omap (fun '(i, b) => if b : bool then Some i else None)
                             (zip (seq k n) (replicate n true)) = seq k n).
  { induction n as [|n IH]; intros k; [done|]. cbn. by rewrite IH. }
  apply Hgen.
Qed.

Lemma take_rows_all {A} (l : list A) : take_rows (seq 0 (length l)) l = l.
Proof.
  unfold take_rows.
  assert (Hgen : forall pre, omap (fun i => (pre ++ l) !! i) (seq (length pre) (length l)) = l).
  { induction l as [|x l IH]; intros pre; [done|]. cbn [length seq omap list_omap].
    rewrite list_lookup_middle by done. f_equal.
    specialize (IH (pre ++ [x])). rewrite length_app in IH. cbn in IH.
    rewrite <- app_assoc in IH. cbn in IH. rewrite Nat.add_1_r in IH. exact IH. }
  apply (Hgen []).
Qed.

Lemma mask_rows_all data :
  well_formed_table data -> mask_rows (replicate (nrows data) true) data = data.
Proof.
  intros Hwf. unfold mask_rows. rewrite selected_rows_replicate, length_seq.
  destruct data as [n flds]. cbn [nrows fields] in *. f_equal.
  apply map_eq. intros key. rewrite lookup_fmap.
  destruct (flds !! key) as [c|] eqn:Hc; [|done]. cbn. f_equal.
  specialize (Hwf key c Hc). cbn in Hwf.
  destruct c as [l|l]; cbn in Hwf; subst n; by rewrite take_rows_all.
Qed.

Lemma open_table_eval table w data :
  tables w !! table = Some data -> open_table table w = (Ok data, opened_with table w).
Proof. intros Htab. unfold open_table, the_world, mbind, M_bind. by rewrite Htab. Qed.

(** [getTable] on a table that is on disk, in terms of [row_mask]. *)
Lemma getTable_eval table filter exactly_one at_least_one w data :
  tables w !! table = Some data ->
  well_formed_table data ->
  getTable table filter exactly_one at_least_one w =
  match row_mask data filter with
  | Raise e => (Raise e, opened_with table w)
  | Ok mask =>
      let nselect := length (selected_rows mask) in
      if bool_decide (nselect < 1)%nat
      then
        if exactly_one || at_least_one
        then (Raise (RuntimeError ("Table has no matching row; table name is " +:+ table)),
              opened_with table w)
        else (Ok None, opened_with table w)
      else
        (Ok (Some (mask_rows mask data)),
         if exactly_one && bool_decide (1 < nselect)%nat
         then warned_with ["only the first will be used."; "table name is " +:+ table;
                           "Table has more than one matching row;"] (opened_with table w)
         else opened_with table w)
  end.
Proof.
  intros Htab Hwf. unfold row_mask.
  unfold getTable. unfold mbind at 1. unfold M_bind at 1. rewrite (open_table_eval _ _ _ Htab).
  unfold mbind at 1. unfold M_bind at 1. unfold lift at 1.
  destruct (select_arrays data (map_to_list filter)) as [arrays|] eqn:Hsel; [|done].
  cbn [mbind result_bind].
  set (mask := match arrays with
               | [] => replicate (nrows data) true
               | selected :: rest => foldl (zip_with andb) selected rest
               end).
  assert (Hnew : match arrays with
                 | [] => data
                 | selected :: rest => mask_rows (foldl (zip_with andb) selected rest) data
                 end = mask_rows mask data).
  { subst mask. destruct arrays; [by rewrite mask_rows_all|done]. }
  rewrite Hnew.
  replace (match arrays with
           | [] => Ok (replicate (nrows data) true)
           | selected :: rest => Ok (foldl (zip_with andb) selected rest)
           end) with (@Ok (list bool) mask) by (subst mask; by destruct arrays).
  cbv zeta. change (nrows (mask_rows mask data)) with (length (selected_rows mask)).
  destruct (bool_decide (length (selected_rows mask) < 1)%nat) eqn:Hn.
  - destruct (exactly_one || at_least_one); [done|].
    cbn [andb]. replace (exactly_one && bool_decide (1 < length (selected_rows mask))%nat)
      with false; [done|].
    apply bool_decide_eq_true in Hn.
    rewrite (bool_decide_eq_false_2 (1 < length (selected_rows mask))%nat) by lia.
    by destruct exactly_one.
  - rewrite andb_false_r.
    destruct (exactly_one && bool_decide (1 < length (selected_rows mask))%nat); done.
Qed.

(** X7.  On a well-formed table that is on disk, the rows [getTable]
    returns are those of a mask that keeps row [i] exactly when, for every
    key of the filter, the filter value is a wildcard ([STRING_WILDCARD],
    [NOT_APPLICABLE]) or the cell of row [i] matches it; there is at least
    one such row. *)
Theorem getTable_selected_rows table filter exactly_one at_least_one w data rows w' :
  tables w !! table = Some data ->
  well_formed_table data ->
  getTable table filter exactly_one at_least_one w = (Ok (Some rows), w') ->
  exists mask,
    length mask = nrows data /\
    (forall i, (i < nrows data)%nat ->
       (mask !! i = Some true <->
        forall key v, filter !! key = Some v -> criterion data i key v)) /\
    rows = mask_rows mask data /\ (0 < nrows rows)%nat.
Proof.
  intros Htab Hwf Hget. rewrite (getTable_eval _ _ _ _ _ _ Htab Hwf) in Hget.
  destruct (row_mask data filter) as [mask|e] eqn:Hmask; [|done].
  destruct (row_mask_spec data filter mask Hwf Hmask) as [Hlen Hrows].
  cbv zeta in Hget. case_bool_decide as Hn.
  - by destruct (exactly_one || at_least_one).
  - injection Hget as <- _. exists mask. repeat split; try done.
    + by apply Hrows.
    + by apply Hrows.
    + cbn. lia.
Qed.

(** X8.  The outcome of [getTable] by the number of selected rows, on a
    well-formed table that is on disk and a filter whose keys are columns.
    With no row: RuntimeError if [exactly_one] or [at_least_one] is set,
    [None] otherwise.  With one row or more: all the selected rows, also
    when [exactly_one] is set and several rows match.  A warning is printed
    exactly in that last case.  The table is opened once, and nothing else
    of the state changes. *)
Theorem getTable_outcome table filter exactly_one at_least_one w data mask :
  tables w !! table = Some data ->
  well_formed_table data ->
  row_mask data filter = Ok mask ->
  let nselect := length (selected_rows mask) in
  let r := getTable table filter exactly_one at_least_one w in
  (if bool_decide (nselect < 1)%nat
   then if exactly_one || at_least_one
        then exists msg, r.1 = Raise (RuntimeError msg)
        else r.1 = Ok None
   else r.1 = Ok (Some (mask_rows mask data))) /\
  opened r.2 = table :: opened w /\
  tables r.2 = tables w /\ images r.2 = images w /\ dq_array r.2 = dq_array w /\
  (warnings r.2 <> warnings w <-> exactly_one = true /\ (1 < nselect)%nat).
Proof.
  intros Htab Hwf Hmask nselect r. subst r.
  rewrite (getTable_eval _ _ _ _ _ _ Htab Hwf), Hmask. cbv zeta. fold nselect.
  case_bool_decide as Hn.
  - destruct (exactly_one || at_least_one); cbn [fst snd opened_with opened tables images
      dq_array warnings]; (split; [by eauto|]); repeat split; try done; try tauto; lia.
  - destruct exactly_one; cbn [andb]; [case_bool_decide as Hm|];
      cbn [fst snd opened_with warned_with opened tables images dq_array warnings];
      (split; [done|]); repeat split; try done; try tauto; try lia.
    intros _ Heq. apply (f_equal length) in Heq. cbn in Heq. lia.
Qed.

(** X9.  Whatever the table and the state: when [getTable] returns a
    table it has at least one row, and it returns [None] only when neither
    [exactly_one] nor [at_least_one] is set. *)
Theorem getTable_result_shape table filter exactly_one at_least_one w r w' :
  getTable table filter exactly_one at_least_one w = (Ok r, w') ->
  match r with
  | Some rows => (0 < nrows rows)%nat
  | None => exactly_one || at_least_one = false
  end.
Proof.
  unfold getTable. unfold mbind at 1. unfold M_bind at 1.
  destruct (open_table table w) as [[data|e] w1]; [|done].
  unfold mbind at 1. unfold M_bind at 1. unfold lift at 1.
  destruct (select_arrays data (map_to_list filter)) as [arrays|]; [|done].
  set (newdata := match arrays with
                  | [] => data
                  | selected :: rest => mask_rows (foldl (zip_with andb) selected rest) data
                  end).
  destruct (bool_decide (nrows newdata < 1)%nat) eqn:Hn.
  - destruct (exactly_one || at_least_one); [done|]. cbn [andb].
    replace (exactly_one && bool_decide (1 < nrows newdata)%nat) with false.
    + intros [= <- _]. done.
    + apply bool_decide_eq_true in Hn.
      rewrite (bool_decide_eq_false_2 (1 < nrows newdata)%nat) by lia. by destruct exactly_one.
  - rewrite andb_false_r. apply bool_decide_eq_false in Hn.
    destruct (exactly_one && bool_decide (1 < nrows newdata)%nat);
      intros [= <- _]; lia.
Qed.
End TableLookupPolicy.

Lemma well_formed_by_check data :
  map_Forall (fun _ c => column_length c = nrows data) (fields data) ->
  well_formed_table data.
Proof. intros Hall key c Hc. exact (Hall key c Hc). Qed.

Lemma brf_table_well_formed : well_formed_table brf_table.
Proof. apply well_formed_by_check. apply (bool_decide_unpack _). by vm_compute. Qed.

Lemma getTable_selected_rows_witness :
  exists mask,
    length mask = nrows brf_table /\
    (forall i, (i < nrows brf_table)%nat ->
       (mask !! i = Some true <->
        forall key v, fuva_filter !! key = Some v ->
                      criterion (H := cos_constants) brf_table i key v)) /\
    fuva_rows = mask_rows mask brf_table /\
    (0 < nrows fuva_rows)%nat.
Proof.
  apply (getTable_selected_rows (H := cos_constants) "brf.fits" fuva_filter true false
           (brf_world []) brf_table fuva_rows (opened_with "brf.fits" (brf_world []))).
  - reflexivity.
  - exact brf_table_well_formed.
  - vm_compute. reflexivity.
Defined.

Lemma getTable_outcome_witness :
  let r := getTable (H := cos_constants) "brf.fits" any_filter true false (brf_world []) in
  (if bool_decide (length (selected_rows [true; true]) < 1)%nat
   then if true || false
        then exists msg, r.1 = Raise (RuntimeError msg)
        else r.1 = Ok None
   else r.1 = Ok (Some (mask_rows [true; true] brf_table))) /\
  opened r.2 = "brf.fits"%string :: opened (brf_world []) /\
  tables r.2 = tables (brf_world []) /\ images r.2 = images (brf_world []) /\
  dq_array r.2 = dq_array (brf_world []) /\
  (warnings r.2 <> warnings (brf_world []) <->
   true = true /\ (1 < length (selected_rows [true; true]))%nat).
Proof.
  apply (getTable_outcome (H := cos_constants) "brf.fits" any_filter true false
           (brf_world []) brf_table [true; true]).
  - reflexivity.
  - exact brf_table_well_formed.
  - vm_compute. reflexivity.
Defined.

Lemma getTable_result_shape_witness : (0 < nrows fuva_rows)%nat.
Proof.
  apply (getTable_result_shape (H := cos_constants) "brf.fits" fuva_filter true false
           (brf_world []) (Some fuva_rows) (opened_with "brf.fits" (brf_world []))).
  vm_compute. reflexivity.
Defined.

Section NoMatchingRow.
Context `{Calcosparam} `{Ccos}.

Lemma selected_rows_nil mask :
  (forall i, mask !! i <> Some true) -> selected_rows mask = [].
Proof.
  intros Hall. unfold selected_rows. generalize 0%nat.
  induction mask as [|b mask IH]; intros k; [done|].
  cbn [length seq zip zip_with omap list_omap].
  destruct b; [by destruct (Hall 0%nat)|].
  apply IH. intros i. apply (Hall (S i)).
Qed.

Lemma row_mask_singleton data key v c :
  fields data !! key = Some c ->
  exists mask, row_mask data {[ key := v ]} = Ok mask.
Proof.
  intros Hc. unfold row_mask. rewrite map_to_list_singleton. cbn [select_arrays].
  destruct (py_eqb v (PStr STRING_WILDCARD) || py_eqb v (PStr NOT_APPLICABLE)).
  - eexists. reflexivity.
  - unfold field. rewrite Hc. cbn [mbind result_bind]. eexists. reflexivity.
Qed.

(** X10.  When no row of the bad-pixel table is for the segment of the
    exposure, [updateDQArray] returns without touching the DQ array: the table
    has been opened, and nothing else has changed. *)
Theorem updateDQArray_no_matching_row bpixtab info shifts dopp w data seg c :
  tables w !! bpixtab = Some data ->
  well_formed_table data ->
  fields data !! "segment" = Some c ->
  info !! "segment" = Some seg ->
  (forall i, (i < nrows data)%nat -> ~ criterion data i "segment" seg) ->
  updateDQArray bpixtab info shifts dopp w = (Ok tt, opened_with bpixtab w).
Proof.
  intros Htab Hwf Hc Hseg Hnone.
  destruct (row_mask_singleton data "segment" seg c Hc) as [mask Hmask].
  destruct (row_mask_spec data _ mask Hwf Hmask) as [Hlen Hrows].
  assert (Hsel : selected_rows mask = []).
  { apply selected_rows_nil. intros i Hi.
    assert (Hlt : (i < nrows data)%nat).
    { rewrite <- Hlen. by eapply lookup_lt_Some. }
    apply (Hnone i Hlt). apply (Hrows i Hlt); [done|]. apply lookup_singleton_eq. }
  unfold updateDQArray, updateDQArray_bounds.
  unfold mbind at 1. unfold M_bind at 1. unfold mbind at 1. unfold M_bind at 1.
  unfold lift at 1, getitem. rewrite Hseg.
  unfold mbind at 1. unfold M_bind at 1.
  rewrite (getTable_eval _ _ _ _ _ _ Htab Hwf), Hmask. cbv zeta. rewrite Hsel. done.
Qed.
End NoMatchingRow.

Lemma updateDQArray_no_matching_row_witness :
  updateDQArray (H := cos_constants) "bpix.fits" fuva_info no_shift no_doppler
    (bpix_world zeros4)
  = (Ok tt, opened_with "bpix.fits" (bpix_world zeros4)).
Proof.
  apply (updateDQArray_no_matching_row (H := cos_constants) "bpix.fits" fuva_info
           no_shift no_doppler (bpix_world zeros4) bpix_table (PStr "FUVA")
           (StrCol ["FUVB"%string])).
  - reflexivity.
  - apply well_formed_by_check. apply (bool_decide_unpack _). by vm_compute.
  - reflexivity.
  - reflexivity.
  - intros i Hi [Hw|(c & Hc & Hm)]; [by vm_compute in Hw|].
    assert (i = 0%nat) as -> by (cbn in Hi; lia).
    assert (c = StrCol ["FUVB"%string]) as -> by (vm_compute in Hc; congruence).
    by vm_compute in Hm.
Defined.

Lemma raise_keeps_dq_of_keeps {A} (m : M A) : keeps_dq m -> raise_keeps_dq m.
Proof. intros Hm w e w' Hw. specialize (Hm w). by rewrite Hw in Hm. Qed.

Lemma raise_keeps_dq_bind {A B} (m : M A) (k : A -> M B) :
  keeps_dq m -> (forall a, raise_keeps_dq (k a)) -> raise_keeps_dq (m ≫= k).
Proof.
  intros Hm Hk w e w'. unfold mbind, M_bind. specialize (Hm w).
  destruct (m w) as [[a|e1] w1]; cbn [snd] in Hm.
  - intros Hw. rewrite <- Hm. by eapply Hk.
  - intros [= _ <-]. done.
Qed.

Lemma raise_keeps_dq_put_or temp :
  raise_keeps_dq (dq ← get_dq;
                  if bool_decide (Forall2 (fun r s => length r = length s) temp dq)
                  then put_dq (bitwise_or dq temp) else raise ValueError).
Proof.
  intros w e w'. unfold mbind, M_bind, get_dq. case_bool_decide; [done|].
  by intros [= _ <-].
Qed.

(** ** Writes to the DQ array *)

Section WritesToDQ.
Context `{Calcosparam} `{Ccos}.

#[local] Hint Resolve keeps_dq_open_table keeps_dq_open_image keeps_dq_getTable
  keeps_dq_activeArea keeps_dq_getGeoData keeps_dq_thermal_subarrays
  keeps_dq_updateDQArray_bounds : keeps.

Ltac raise_keeps_dq_step :=
  match goal with
  | |- raise_keeps_dq (mbind _ get_dq) => first [apply raise_keeps_dq_put_or | fail 1]
  | |- raise_keeps_dq (mbind _ _) =>
      apply raise_keeps_dq_bind; [solve [repeat keeps_dq_step]|intros ?]
  | |- raise_keeps_dq (match ?x with _ => _ end) => destruct x
  | |- raise_keeps_dq _ => apply raise_keeps_dq_of_keeps; solve [repeat keeps_dq_step]
  end.

Lemma raise_keeps_dq_flagOutOfBounds phdr hdr stim info switches brftab geofile shifts dopp :
  raise_keeps_dq (flagOutOfBounds phdr hdr stim info switches brftab geofile shifts dopp).
Proof.
  unfold flagOutOfBounds. destruct shifts as [[[? ?] ?] ?], dopp as [? ?].
  repeat raise_keeps_dq_step.
Qed.

Lemma raise_keeps_dq_flagOutsideActiveArea segment brftab shifts dopp :
  raise_keeps_dq (flagOutsideActiveArea segment brftab shifts dopp).
Proof.
  unfold flagOutsideActiveArea. destruct shifts as [[[? ?] ?] ?], dopp as [? ?].
  case_bool_decide; [by apply raise_keeps_dq_of_keeps|].
  apply raise_keeps_dq_bind; [auto with keeps|].
  intros [[[b_low b_high] b_left] b_right] w e w'.
  unfold mbind, M_bind, get_dq, put_dq, shape. done.
Qed.

(** X11.  [flagOutOfBounds] prepares its flags in the scratch copy [temp]
    and writes the DQ array once, in its last statement;
    [flagOutsideActiveArea] writes it after its last statement that can
    raise.  So when either of them raises an exception, the DQ array is as it
    was before the call. *)
Theorem dq_array_kept_on_exception phdr hdr stim info switches brftab geofile shifts dopp
    segment w e w' :
  flagOutOfBounds phdr hdr stim info switches brftab geofile shifts dopp w = (Raise e, w') \/
  flagOutsideActiveArea segment brftab shifts dopp w = (Raise e, w') ->
  dq_array w' = dq_array w.
Proof.
  intros [Hr|Hr].
  - by eapply raise_keeps_dq_flagOutOfBounds.
  - by eapply raise_keeps_dq_flagOutsideActiveArea.
Qed.

Lemma lor_twice a c : Z.lor a (Z.lor a c) = Z.lor a c.
Proof. by rewrite Z.lor_assoc, Z.lor_diag. Qed.

Lemma cell_cond_update (b : bool) f rows cols g j i :
  cell (if b then update_region f rows cols g else g) j i =
  (fun c => if b && (rows j && cols i) then f c else c) <$> cell g j i.
Proof.
  destruct b; [apply cell_update_region|]. cbn [andb]. by destruct (cell g j i).
Qed.

Lemma cell_in_grid (g : dqgrid) j i c :
  (forall row, row ∈ g -> length row = length (hd [] g)) ->
  cell g j i = Some c -> (j < length g)%nat /\ (i < length (hd [] g))%nat.
Proof.
  intros Hrect Hc. unfold cell in Hc. destruct (g !! j) as [row|] eqn:Hrow; [|done].
  cbn in Hc. split; [by eapply lookup_lt_Some|].
  rewrite <- (Hrect row) by (by eapply list_elem_of_lookup_2). by eapply lookup_lt_Some.
Qed.

Lemma in_slice_below n b k :
  0 <= b -> (k < n)%nat -> in_slice n 0 b k = bool_decide (Z.of_nat k < b).
Proof.
  intros Hb Hk. unfold in_slice, slice_index.
  rewrite (bool_decide_eq_false_2 (0 < 0)) by lia.
  rewrite (bool_decide_eq_false_2 (b < 0)) by lia.
  apply eq_true_iff_eq. rewrite andb_true_iff, !bool_decide_eq_true. lia.
Qed.

Lemma in_slice_above n b k :
  -1 <= b -> (k < n)%nat ->
  in_slice n (b + 1) (Z.of_nat n) k = bool_decide (b < Z.of_nat k).
Proof.
  intros Hb Hk. unfold in_slice, slice_index.
  rewrite (bool_decide_eq_false_2 (b + 1 < 0)) by lia.
  rewrite (bool_decide_eq_false_2 (Z.of_nat n < 0)) by lia.
  apply eq_true_iff_eq. rewrite andb_true_iff, !bool_decide_eq_true. lia.
Qed.

(** X12.  For an FUV segment whose active area [activeArea] gives as
    [(a_low, a_high, a_left, a_right)], [flagOutsideActiveArea] ORs
    [DQ_OUT_OF_BOUNDS] into every pixel outside the rectangle
    [b_low <= j <= b_high], [b_left <= i <= b_right] -- the active area
    moved by the rounded shifts and Doppler range -- and leaves the pixels
    inside as they were, provided [b_high] and [b_right] are at least -1.
    Nothing else of the state changes. *)
Theorem flagOutsideActiveArea_cells segment brftab
    min_shift1 max_shift1 min_shift2 max_shift2 mindopp maxdopp
    a_low a_high a_left a_right w w1 :
  String.substring 0 3 segment = "FUV"%string ->
  activeArea segment brftab w = (Ok (Int a_low, Int a_high, Int a_left, Int a_right), w1) ->
  (forall row, row ∈ dq_array w -> length row = length (hd [] (dq_array w))) ->
  let b_left := a_left - py_round min_shift1 + py_round maxdopp in
  let b_right := a_right - py_round max_shift1 + py_round mindopp in
  let b_low := a_low - py_round min_shift2 in
  let b_high := a_high - py_round max_shift2 in
  -1 <= b_high -> -1 <= b_right ->
  exists dq,
    flagOutsideActiveArea segment brftab
      (min_shift1, max_shift1, min_shift2, max_shift2) (mindopp, maxdopp) w
    = (Ok tt, World (tables w1) (images w1) dq (opened w1) (warnings w1)) /\
    forall j i,
      cell dq j i =
      (fun c => if bool_decide (b_low <= Z.of_nat j <= b_high /\
                                b_left <= Z.of_nat i <= b_right)
                then c else Z.lor DQ_OUT_OF_BOUNDS c) <$> cell (dq_array w) j i.
Proof.
  intros Hfuv Hact Hrect b_left b_right b_low b_high Hhigh Hright.
  assert (Hdq : dq_array w1 = dq_array w).
  { pose proof (keeps_dq_activeArea segment brftab w) as Hk. by rewrite Hact in Hk. }
  unfold flagOutsideActiveArea. rewrite bool_decide_eq_false_2 by (by intros []).
  unfold mbind at 1. unfold M_bind at 1. rewrite Hact.
  unfold mbind, M_bind, get_dq, put_dq. rewrite Hdq.
  destruct (shape (dq_array w)) as [ny nx] eqn:Hshape.
  eexists. split; [reflexivity|]. intros j i.
  injection Hshape as <- <-.
  rewrite !cell_cond_update.
  destruct (cell (dq_array w) j i) as [c|] eqn:Hc; [|done].
  destruct (cell_in_grid _ _ _ _ Hrect Hc) as [Hj Hi].
  cbn [fmap option_fmap option_map]. f_equal.
  unfold num_add, num_sub, num_arith, num_leb, num_ltb, num_index.
  fold b_left b_right b_low b_high. rewrite !andb_true_r. cbn [andb].
  destruct (decide (0 <= b_low)) as [Hlow|Hlow];
    [rewrite (in_slice_below _ b_low j Hlow Hj)|];
  (destruct (decide (0 <= b_left)) as [Hleft|Hleft];
    [rewrite (in_slice_below _ b_left i Hleft Hi)|]);
  rewrite (in_slice_above _ b_high j Hhigh Hj), (in_slice_above _ b_right i Hright Hi);
  repeat case_bool_decide; cbn [andb negb]; rewrite ?lor_twice; first [done | lia].
Qed.

End WritesToDQ.

Lemma flagOutsideActiveArea_cells_witness :
  exists dq,
    flagOutsideActiveArea (H := cos_constants) "FUVA" "brf.fits"
      (Zf 1, Zf 1, 0%Qc, 0%Qc) no_doppler (brf_world (replicate 8 (replicate 8 0)))
    = (Ok tt, World (tables (opened_with "brf.fits" (brf_world (replicate 8 (replicate 8 0)))))
                    (images (opened_with "brf.fits" (brf_world (replicate 8 (replicate 8 0)))))
                    dq
                    (opened (opened_with "brf.fits" (brf_world (replicate 8 (replicate 8 0)))))
                    (warnings (opened_with "brf.fits" (brf_world (replicate 8 (replicate 8 0)))))) /\
    forall j i,
      cell dq j i =
      (fun c => if bool_decide (1 - py_round 0 <= Z.of_nat j <= 5 - py_round 0 /\
                                2 - py_round (Zf 1) + py_round 0 <= Z.of_nat i
                                <= 6 - py_round (Zf 1) + py_round 0)
                then c else Z.lor 128 c) <$> cell (replicate 8 (replicate 8 0)) j i.
Proof.
  apply (flagOutsideActiveArea_cells (H := cos_constants) "FUVA" "brf.fits"
           (Zf 1) (Zf 1) 0%Qc 0%Qc 0%Qc 0%Qc 1 5 2 6
           (brf_world (replicate 8 (replicate 8 0)))
           (opened_with "brf.fits" (brf_world (replicate 8 (replicate 8 0))))).
  - reflexivity.
  - vm_compute. reflexivity.
  - intros row Hrow. apply elem_of_replicate in Hrow as [-> _]. reflexivity.
  - vm_compute. discriminate.
  - vm_compute. discriminate.
Defined.

Lemma dq_array_kept_on_exception_witness :
  dq_array (empty_world zeros4) = dq_array (empty_world zeros4).
Proof.
  apply (dq_array_kept_on_exception (H := cos_constants) (H0 := ccos_absent)
           subarray_phdr degenerate_hdr ∅ ∅ omit_switches "brf.fits" "geo.fits"
           no_shift no_doppler "FUVA" (empty_world zeros4) (KeyError "x_offset")
           (empty_world zeros4)).
  left. vm_compute. reflexivity.
Defined.

(** ** Borders of the subarray: [applyOffsets] *)

(** X13.  [applyOffsets] keeps the lengths of both arrays, moves every
    element by [x_offset - dx], and then clamps on one side only: no left
    border is below 0 and no right border above [nx - 1]; an element that
    is within that bound after the move is just moved. *)
Theorem applyOffsets_clamped x_left x_right nx dx x_offset :
  let moved v := (v + num_Q x_offset - Zf dx)%Qc in
  let last := (Zf (Z.of_nat nx) - 1)%Qc in
  let l := fst (applyOffsets x_left x_right nx dx x_offset) in
  let r := snd (applyOffsets x_left x_right nx dx x_offset) in
  length l = length x_left /\ length r = length x_right /\
  (forall k v, l !! k = Some v -> (0 <= v)%Qc) /\
  (forall k v, r !! k = Some v -> (v <= last)%Qc) /\
  (forall k v, x_left !! k = Some v -> (0 <= moved v)%Qc -> l !! k = Some (moved v)) /\
  (forall k v, x_right !! k = Some v -> (moved v <= last)%Qc -> r !! k = Some (moved v)).
Proof.
  intros moved last l r. subst l r. unfold applyOffsets. cbn [fst snd].
  change map with (@fmap list _). rewrite <- !list_fmap_compose.
  repeat split.
  - by rewrite length_fmap.
  - by rewrite length_fmap.
  - intros k v. rewrite list_lookup_fmap. destruct (x_left !! k) as [u|]; [|done].
    cbn. intros [= <-]. case_bool_decide as Hneg; [apply Qcle_refl|by apply Qcnot_lt_le].
  - intros k v. rewrite list_lookup_fmap. destruct (x_right !! k) as [u|]; [|done].
    cbn. intros [= <-]. case_bool_decide as Hbig; [apply Qcle_refl|by apply Qcnot_lt_le].
  - intros k v Hv Hin. rewrite list_lookup_fmap, Hv. cbn. f_equal.
    rewrite bool_decide_eq_false_2; [done|]. by apply Qcle_not_lt.
  - intros k v Hv Hin. rewrite list_lookup_fmap, Hv. cbn. f_equal.
    rewrite bool_decide_eq_false_2; [done|]. by apply Qcle_not_lt.
Qed.

Lemma applyOffsets_clamped_witness :
  let moved v := (v + num_Q (Int 0) - Zf 1)%Qc in
  let last := (Zf (Z.of_nat 8) - 1)%Qc in
  let l := fst (applyOffsets [Zf (-3); Zf 2] [Zf 2; Zf 9] 8 1 (Int 0)) in
  let r := snd (applyOffsets [Zf (-3); Zf 2] [Zf 2; Zf 9] 8 1 (Int 0)) in
  length l = 2%nat /\ length r = 2%nat /\
  (forall k v, l !! k = Some v -> (0 <= v)%Qc) /\
  (forall k v, r !! k = Some v -> (v <= last)%Qc) /\
  (forall k v, [Zf (-3); Zf 2] !! k = Some v -> (0 <= moved v)%Qc -> l !! k = Some (moved v)) /\
  (forall k v, [Zf 2; Zf 9] !! k = Some v -> (moved v <= last)%Qc -> r !! k = Some (moved v)).
Proof.
  apply (applyOffsets_clamped [Zf (-3); Zf 2] [Zf 2; Zf 9] 8 1 (Int 0)).
Defined.

(** ** DopplerShiftEstimator: the range is ordered *)

Section DopplerOrder.
Context `{Calcosparam} `{Libm}.

Lemma array_min_le_max l a b :
  array_min l = Ok a -> array_max l = Ok b -> (a <= b)%Qc.
Proof.
  destruct l as [|q qs]; [done|]. intros [= <-] [= <-].
  destruct (foldl_Qcmin_spec qs q) as [_ Hmin].
  destruct (foldl_Qcmax_spec qs q) as [_ Hmax].
  apply (Qcle_trans _ q); [apply Hmin|apply Hmax]; by left.
Qed.

(** X14.  Whenever [minmaxDoppler] returns, the pair is ordered:
    [mindopp <= maxdopp].  ([updateDQArray], [flagOutOfBounds] and
    [flagOutsideActiveArea] widen regions by these two values.) *)
Theorem minmaxDoppler_ordered info doppcorr doppmag doppzero orbitper mindopp maxdopp :
  minmaxDoppler info doppcorr doppmag doppzero orbitper = Ok (mindopp, maxdopp) ->
  (mindopp <= maxdopp)%Qc.
Proof.
  unfold minmaxDoppler. case_bool_decide; [|intros [= <- <-]; apply Qcle_refl].
  destruct (getitem info "expstart") as [expstart|]; [|done].
  destruct (getitem info "exptime") as [exptime|]; [|done].
  cbn [mbind result_bind].
  destruct (getitem info "dispaxis") as [dispaxis|]; [|done].
  cbn [mbind result_bind].
  destruct (need_num dispaxis); [|done]. cbn [mbind result_bind].
  destruct (need_num exptime); [|done]. cbn [mbind result_bind].
  destruct (need_num expstart); [|done]. cbn [mbind result_bind].
  case_bool_decide; [done|].
  match goal with |- context [array_min ?l] => generalize l end. intros shift.
  destruct (array_min shift) as [lo|] eqn:Ha; [|done]. cbn [mbind result_bind].
  destruct (array_max shift) as [hi|] eqn:Hb; [|done]. cbn [mbind result_bind].
  intros [= <- <-]. by eapply array_min_le_max.
Qed.

End DopplerOrder.

(** Three samples [0, -1, -2]: with [libm_linear] and this period the phase
    [2 pi t / orbitper] is [t]. *)
Lemma minmaxDoppler_ordered_witness : (Zf (-2) <= 0)%Qc.
Proof.
  apply (@minmaxDoppler_ordered cos_constants libm_linear
           {[ "expstart" := PFloat 0%Qc; "exptime" := PFloat (Zf 3);
              "dispaxis" := PInt 1 ]} "PERFORM" 1%Qc 0%Qc (Q2Qc (710 # 113))).
  vm_compute. qc_eq.
Defined.

(** ** StatisticsAggregator: maxima and means *)

Lemma max_from_spec (f : stat -> Qc) m0 l :
  (m0 <= max_from f m0 l)%Qc /\
  (forall s, s ∈ l -> (f s <= max_from f m0 l)%Qc) /\
  (max_from f m0 l = m0 \/ exists s, s ∈ l /\ max_from f m0 l = f s).
Proof.
  revert m0. induction l as [|x l IH]; intros m0; cbn.
  - split; [apply Qcle_refl|]. split; [|by left]. intros s Hs. by apply elem_of_nil in Hs.
  - unfold max_from in *. cbn [foldl].
    destruct (IH (Qcmax m0 (f x))) as (Hge & Hall & Hatt). split; [|split].
    + apply (Qcle_trans _ (Qcmax m0 (f x))); [apply Qcmax_ge_l|done].
    + intros s Hs. apply elem_of_cons in Hs as [->|Hs]; [|by apply Hall].
      apply (Qcle_trans _ (Qcmax m0 (f x))); [apply Qcmax_ge_r|done].
    + destruct Hatt as [Heq|(s & Hs & Heq)].
      * rewrite Heq. unfold Qcmax. case_bool_decide; [|by left].
        right. exists x. split; [by left|done].
      * right. exists s. split; [by right|done].
Qed.

(** X15.  For a list that is not a singleton, the maximum [combineStat]
    returns is the largest of 0 and the maxima of the records with a
    positive count: it is at least 0, at least each of these maxima, and it
    is 0 or one of them. *)
Theorem combineStat_max_with_zero l :
  length l <> 1%nat ->
  (0 <= sci_goodmax (combineStat l))%Qc /\
  (forall s, s ∈ counted l -> (sci_goodmax s <= sci_goodmax (combineStat l))%Qc) /\
  (sci_goodmax (combineStat l) = 0%Qc \/
   exists s, s ∈ counted l /\ sci_goodmax (combineStat l) = sci_goodmax s).
Proof.
  intros Hlen.
  assert (Hc : sci_goodmax (combineStat l) = max_from sci_goodmax 0%Qc (counted l)).
  { assert (Hs : combineStat l =
      let '(sum_n, sci_max, sci_sum, err_max, err_sum) :=
        foldl combine_step (0, 0%Qc, 0%Qc, 0%Qc, 0%Qc) l in
      let '(sci_sum, err_sum) :=
        if bool_decide (0 < sum_n)
        then ((sci_sum / Zf sum_n)%Qc, (err_sum / Zf sum_n)%Qc)
        else (sci_sum, err_sum) in
      Stat sum_n sci_max sci_sum err_max err_sum).
    { destruct l as [|a [|b l]]; [done|done|done]. }
    rewrite Hs, combine_fold. cbn zeta. by case_bool_decide. }
  rewrite Hc. apply max_from_spec.
Qed.

Lemma combineStat_max_with_zero_witness :
  (0 <= sci_goodmax (combineStat [neg_stat1; neg_stat2]))%Qc /\
  (forall s, s ∈ counted [neg_stat1; neg_stat2] ->
     (sci_goodmax s <= sci_goodmax (combineStat [neg_stat1; neg_stat2]))%Qc) /\
  (sci_goodmax (combineStat [neg_stat1; neg_stat2]) = 0%Qc \/
   exists s, s ∈ counted [neg_stat1; neg_stat2] /\
             sci_goodmax (combineStat [neg_stat1; neg_stat2]) = sci_goodmax s).
Proof.
  apply (combineStat_max_with_zero [neg_stat1; neg_stat2]). cbn. lia.
Defined.

Lemma Zf_pos n : 0 < n -> (0 < Zf n)%Qc.
Proof.
  intros Hn. unfold Qclt, Zf, Qc_of_Z. cbn [this Q2Qc]. rewrite Qred_correct.
  unfold Qlt. cbn. lia.
Qed.

Lemma foldl_Qcplus_le m a l :
  (forall x, x ∈ l -> (x <= m)%Qc) ->
  (foldl Qcplus a l <= a + m * Zf (Z.of_nat (length l)))%Qc.
Proof.
  revert a. induction l as [|x l IH]; intros a Hl.
  - cbn [foldl length]. rewrite Zf_nat_0.
    replace (a + m * 0)%Qc with a by ring. apply Qcle_refl.
  - cbn [foldl length]. rewrite Zf_succ.
    eapply Qcle_trans; [apply IH; intros y Hy; apply Hl; by right|].
    replace (a + m * (1 + Zf (Z.of_nat (length l))))%Qc
      with ((a + m) + m * Zf (Z.of_nat (length l)))%Qc by ring.
    apply Qcplus_le_compat; [|apply Qcle_refl].
    apply Qcplus_le_compat; [apply Qcle_refl|]. apply Hl. by left.
Qed.

(** The mean of a non-empty array is at most its largest element. *)
Lemma mean_le_max a m mean :
  maximum_reduce a = Ok m -> py_div (array_sum a) (Z.of_nat (length a)) = Ok mean ->
  (mean <= m)%Qc.
Proof.
  intros Hm Hmean. destruct a as [|q qs]; [done|]. injection Hm as <-.
  unfold py_div in Hmean. case_bool_decide as Hz; [done|]. injection Hmean as <-.
  assert (Hn : (0 < Zf (Z.of_nat (length (q :: qs))))%Qc) by (apply Zf_pos; cbn; lia).
  apply (Qcmult_lt_0_le_reg_r _ _ _ Hn).
  rewrite test_field by (intros Heq; rewrite Heq in Hn; by apply Qclt_not_eq in Hn).
  unfold array_sum.
  eapply Qcle_trans; [apply (foldl_Qcplus_le (foldl Qcmax q qs))|].
  - intros x Hx. by apply foldl_Qcmax_spec.
  - rewrite Qcplus_0_l. apply Qcle_refl.
Qed.

Lemma mapM_result_length {A B} (f : A -> result B) l r :
  mapM f l = Ok r -> length r = length l.
Proof.
  revert r. induction l as [|x l IH]; intros r; cbn.
  - by intros [= <-].
  - destruct (f x) as [y|]; cbn; [|done].
    destruct (mapM f l) as [ys|]; cbn; [|done]. intros [= <-]. cbn. by rewrite (IH ys).
Qed.

(** X16.  In the record [computeStat] returns, the count is the number of
    good pixels and is not negative, and the mean of the science values is
    at most their maximum; so is the mean of the error values, when the
    error array has as many elements as the science array. *)
Theorem computeStat_mean_le_max sci_band err_band dq_band sdqflags s :
  computeStat sci_band err_band dq_band sdqflags = Ok s ->
  match err_band with
  | Some err => length (concat err) = length (concat sci_band)
  | None => True
  end ->
  0 <= ngoodpix s /\
  (sci_goodmean s <= sci_goodmax s)%Qc /\ (err_goodmean s <= err_goodmax s)%Qc.
Proof.
  unfold computeStat.
  set (mask := match dq_band with None => None | Some d => _ end).
  intros Hs Herr.
  destruct (match mask with None => Ok (concat sci_band) | Some m => take_mask sci_band m end)
    as [sci_good|] eqn:Hsci; [|done].
  cbn [mbind result_bind] in Hs.
  cbn [sci_goodmax sci_goodmean err_goodmax err_goodmean ngoodpix] in Hs.
  set (npix := Z.of_nat (length sci_good)) in *.
  assert (Hfirst : forall s1,
    (if bool_decide (0 < npix)
     then gmax ← maximum_reduce sci_good;
          gmean ← py_div (array_sum sci_good) npix;
          Ok (Stat npix gmax gmean 0%Qc 0%Qc)
     else Ok (Stat npix 0%Qc 0%Qc 0%Qc 0%Qc)) = Ok s1 ->
    ngoodpix s1 = npix /\ (sci_goodmean s1 <= sci_goodmax s1)%Qc /\
    err_goodmax s1 = 0%Qc /\ err_goodmean s1 = 0%Qc).
  { intros s1. case_bool_decide as Hn.
    - destruct (maximum_reduce sci_good) as [gmax|] eqn:Hmax; [|done].
      cbn [mbind result_bind].
      destruct (py_div (array_sum sci_good) npix) as [gmean|] eqn:Hmean; [|done].
      cbn [mbind result_bind]. intros [= <-]. cbn. repeat split; try done.
      by eapply mean_le_max.
    - intros [= <-]. cbn. repeat split; first [done | apply Qcle_refl]. }
  match type of Hs with
  | (?m ≫= _) = _ => destruct m as [s1|] eqn:Hs1; [|done]
  end.
  cbn [mbind result_bind] in Hs.
  destruct (Hfirst s1 eq_refl) as (Hn1 & Hle1 & Hem1 & Hemean1).
  destruct err_band as [err|].
  - destruct (match mask with None => Ok (concat err) | Some m => take_mask err m end)
      as [err_good|] eqn:Herrg; [|done].
    cbn [mbind result_bind] in Hs.
    assert (Hlen : length err_good = length sci_good).
    { destruct mask as [m|].
      - unfold take_mask in *. apply mapM_result_length in Hsci, Herrg. congruence.
      - injection Hsci as <-. injection Herrg as <-. done. }
    case_bool_decide as Hn.
    + destruct (maximum_reduce err_good) as [gmax|] eqn:Hmax; [|done].
      cbn [mbind result_bind] in Hs.
      destruct (py_div (array_sum err_good) npix) as [gmean|] eqn:Hmean; [|done].
      cbn [mbind result_bind] in Hs. injection Hs as <-. cbn.
      repeat split; [lia|done|]. eapply mean_le_max; [done|].
      rewrite Hlen. exact Hmean.
    + injection Hs as <-. rewrite Hn1, Hem1, Hemean1. repeat split; [lia|done|apply Qcle_refl].
  - injection Hs as <-. rewrite Hn1, Hem1, Hemean1. repeat split; [lia|done|apply Qcle_refl].
Qed.

(** A 1 x 3 image with one flagged pixel: two good pixels, values 5 and 8. *)
Lemma computeStat_mean_le_max_witness :
  0 <= 2 /\ (Q2Qc (13 # 2) <= Zf 8)%Qc /\ (Q2Qc (3 # 2) <= Zf 2)%Qc.
Proof.
  apply (computeStat_mean_le_max [[Zf 5; Zf 7; Zf 8]] (Some [[1%Qc; Zf 3; Zf 2]])
           (Some [[0; 8; 0]]) 3832 (Stat 2 (Zf 8) (Q2Qc (13 # 2)) (Zf 2) (Q2Qc (3 # 2)))).
  - vm_compute. qc_eq.
  - reflexivity.
Defined.

(** ** Instances of the general statements on [combineStat] and [clearSubarray] *)

Lemma combineStat_general_witness :
  let l := [neg_stat1; neg_stat2] in
  let total := sum_counts (counted l) in
  ngoodpix (combineStat l) = total /\
  sci_goodmax (combineStat l) = max_from sci_goodmax 0%Qc (counted l) /\
  err_goodmax (combineStat l) = max_from err_goodmax 0%Qc (counted l) /\
  (0 < total ->
   sci_goodmean (combineStat l) = (weighted_sum sci_goodmean (counted l) / Zf total)%Qc /\
   err_goodmean (combineStat l) = (weighted_sum err_goodmean (counted l) / Zf total)%Qc) /\
  (~ 0 < total ->
   sci_goodmean (combineStat l) = 0%Qc /\ err_goodmean (combineStat l) = 0%Qc).
Proof.
  apply (combineStat_general [neg_stat1; neg_stat2]). cbn. lia.
Defined.

(** The rectangle [1 <= i < 3], [1 <= j < 3] of a 4 x 4 grid, at the cell (1, 1). *)
Lemma clearSubarray_clipped_witness :
  cell (clearSubarray (H := cos_constants) flagged4 (Int 1) (Int 3) (Int 1) (Int 3)
          0 0 (Int 0)) 1 1 =
  (fun c => if bool_decide (Z.max (1 - 0) 0 <= Z.of_nat 1 < Z.min (3 - 0) (Z.of_nat 4) /\
                            Z.max (1 + 0 - 0) 0 <= Z.of_nat 1 < Z.min (3 + 0 - 0) (Z.of_nat 4))
            then 0 else c) <$> cell flagged4 1 1.
Proof.
  apply (clearSubarray_clipped (H := cos_constants) flagged4 1 3 1 3 0 0 0 1 1).
  - intros row Hrow. apply elem_of_replicate in Hrow as [-> _]. reflexivity.
  - vm_compute. discriminate.
  - vm_compute. discriminate.
Defined.

(** ** OutOfBoundsFlagger: one subarray, no distortion correction *)

Lemma cell_bitwise_or dq temp j i :
  cell (bitwise_or dq temp) j i =
  match cell dq j i, cell temp j i with
  | Some c, Some t => Some (Z.lor c t)
  | _, _ => None
  end.
Proof.
  unfold cell, bitwise_or. rewrite lookup_zip_with.
  destruct (dq !! j) as [rd|], (temp !! j) as [rt|]; cbn; try done.
  - rewrite lookup_zip_with. by destruct (rd !! i), (rt !! i).
  - by destruct (rd !! i).
Qed.

Lemma cell_filled (g : dqgrid) v j i :
  cell (map (map (fun _ => v)) g) j i = (fun _ => v) <$> cell g j i.
Proof.
  unfold cell. change map with (@fmap list _). rewrite list_lookup_fmap.
  destruct (g !! j) as [row|]; cbn; [|done]. by rewrite list_lookup_fmap.
Qed.

Lemma same_rows_update_region f rows cols (g g' : dqgrid) :
  Forall2 (fun r s : list Z => length r = length s) g g' ->
  Forall2 (fun r s : list Z => length r = length s) (update_region f rows cols g) g'.
Proof.
  intros Hg. unfold update_region. apply Forall2_same_length_lookup. split.
  - rewrite length_imap. by eapply Forall2_length.
  - intros j r s Hr Hs. rewrite list_lookup_imap in Hr.
    destruct (g !! j) as [row|] eqn:Hrow; [|done]. injection Hr as <-.
    rewrite length_imap.
    exact (Forall2_lookup_lr (fun r s : list Z => length r = length s) g g' j row s Hg Hrow Hs).
Qed.

Lemma same_rows_filled (g : dqgrid) (v : Z) :
  Forall2 (fun r s : list Z => length r = length s) (map (map (fun _ => v)) g) g.
Proof.
  induction g as [|row g IH]; cbn; constructor; [by rewrite length_map|done].
Qed.

Lemma width_filled (g : dqgrid) (v : Z) :
  length (hd [] (map (map (fun _ => v)) g)) = length (hd [] g).
Proof. destruct g; cbn; [done|by rewrite length_map]. Qed.

Lemma bind_lift_Ok {A B} (a : A) (k : A -> M B) w : (lift (Ok a) ≫= k) w = k a w.
Proof. reflexivity. Qed.

Lemma bind_ret {A B} (a : A) (k : A -> M B) w : (mret a ≫= k) w = k a w.
Proof. reflexivity. Qed.

Lemma bind_get_dq {B} (k : dqgrid -> M B) w : (get_dq ≫= k) w = k (dq_array w) w.
Proof. reflexivity. Qed.

Lemma bind_printWarning {B} msg (k : unit -> M B) w :
  (printWarning msg ≫= k) w = k tt (warned_with [msg] w).
Proof. reflexivity. Qed.

Lemma bind_assoc {A B C} (m : M A) (k1 : A -> M B) (k2 : B -> M C) w :
  ((m ≫= k1) ≫= k2) w = (m ≫= fun a => k1 a ≫= k2) w.
Proof. unfold mbind, M_bind. by destruct (m w) as [[a|e] w']. Qed.

Lemma bind_eval_Ok {A B} (m : M A) (k : A -> M B) w a w' :
  m w = (Ok a, w') -> (m ≫= k) w = k a w'.
Proof. intros Hm. unfold mbind, M_bind. by rewrite Hm. Qed.

Section OneSubarray.
Context `{Calcosparam} `{Ccos}.

Lemma same_rows_clearSubarray temp x0 x1 y0 y1 dx dy x_offset (g : dqgrid) :
  Forall2 (fun r s : list Z => length r = length s) temp g ->
  Forall2 (fun r s : list Z => length r = length s)
    (clearSubarray temp x0 x1 y0 y1 dx dy x_offset) g.
Proof.
  intros Hg. unfold clearSubarray. destruct (shape temp) as [ny nx].
  by apply same_rows_update_region.
Qed.

(** X19.  An NUV exposure with one subarray in its header (corner
    [(x0, y0)], size [(xsize, ysize)], not the full detector), without
    thermal and geometric correction: [flagOutOfBounds] returns, and a pixel
    keeps its flags if it is inside the subarray -- narrowed by the range of
    the shifts ([xwidth], [ywidth]), moved by [x_offset - dx] and [- dy] and
    clipped to the array -- and gets [DQ_OUT_OF_BOUNDS] in addition if it is
    outside.  (Inside, [DQ_OK] is ORed in; the clipped upper bounds are
    taken non-negative.) *)
Theorem flagOutOfBounds_one_subarray phdr hdr stim info switches brftab geofile
    min_shift1 max_shift1 min_shift2 max_shift2 mindopp maxdopp
    flag x_offset seg x0 y0 xsize ysize tempcorr geocorr w :
  phdr !! "subarray" = Some flag -> py_truth flag = true ->
  hdr !! "nsubarry" = Some (PInt 1) ->
  info !! "x_offset" = Some (PInt x_offset) ->
  info !! "detector" = Some (PStr "NUV") ->
  info !! "segment" = Some (PStr seg) -> String.get 0 seg = Some "N"%char ->
  hdr !! "corner0x" = Some (PInt x0) -> hdr !! "corner0y" = Some (PInt y0) ->
  hdr !! "size0x" = Some (PInt xsize) -> hdr !! "size0y" = Some (PInt ysize) ->
  0 < xsize -> 0 < ysize -> ~ (ysize = NUV_Y /\ xsize = NUV_X) ->
  switches !! "tempcorr" = Some tempcorr -> py_eqb tempcorr (PStr "PERFORM") = false ->
  switches !! "geocorr" = Some geocorr -> py_eqb geocorr (PStr "PERFORM") = false ->
  (forall row, row ∈ dq_array w -> length row = length (hd [] (dq_array w))) ->
  let dx := py_round (min_shift1 - maxdopp) in
  let dy := py_round min_shift2 in
  let xwidth := py_round (max_shift1 - min_shift1 + maxdopp - mindopp) in
  let ywidth := py_round (max_shift2 - min_shift2) in
  let X0 := Z.max (x0 + x_offset - dx) 0 in
  let X1 := Z.min (x0 + xsize - xwidth + x_offset - dx)
                  (Z.of_nat (length (hd [] (dq_array w)))) in
  let Y0 := Z.max (y0 - dy) 0 in
  let Y1 := Z.min (y0 + ysize - ywidth - dy) (Z.of_nat (length (dq_array w))) in
  0 <= X1 -> 0 <= Y1 ->
  exists w',
    flagOutOfBounds phdr hdr stim info switches brftab geofile
      (min_shift1, max_shift1, min_shift2, max_shift2) (mindopp, maxdopp) w = (Ok tt, w') /\
    forall j i,
      cell (dq_array w') j i =
      (fun c => Z.lor c (if bool_decide (Y0 <= Z.of_nat j < Y1 /\ X0 <= Z.of_nat i < X1)
                         then DQ_OK else DQ_OUT_OF_BOUNDS)) <$> cell (dq_array w) j i.
Proof.
  intros Hsub Htruth Hn Hxo Hdet Hseg Hseg0 Hcx Hcy Hsx Hsy Hxs Hys Hfull
         Htc Htcv Hgc Hgcv Hrect dx dy xwidth ywidth X0 X1 Y0 Y1 HX1 HY1.
  set (filled := map (map (fun _ : Z => DQ_OUT_OF_BOUNDS)) (dq_array w)).
  set (temp := clearSubarray filled (Int x0) (Int (x0 + xsize - xwidth)) (Int y0)
                 (Int (y0 + ysize - ywidth)) dx dy (Int x_offset)).
  assert (Hcells : forall j i,
    cell (bitwise_or (dq_array w) temp) j i =
    (fun c => Z.lor c (if bool_decide (Y0 <= Z.of_nat j < Y1 /\ X0 <= Z.of_nat i < X1)
                       then DQ_OK else DQ_OUT_OF_BOUNDS)) <$> cell (dq_array w) j i).
  { intros j i. rewrite cell_bitwise_or. subst temp filled.
    rewrite clearSubarray_cell.
    2:{ intros row Hrow.
        apply list_elem_of_In, in_map_iff in Hrow as (row' & <- & Hrow').
        rewrite width_filled, length_map. apply (Hrect row'). by apply list_elem_of_In. }
    2:{ rewrite width_filled. exact HX1. }
    2:{ rewrite length_map. exact HY1. }
    rewrite width_filled, length_map, cell_filled.
    by destruct (cell (dq_array w) j i). }
  assert (Hsame : Forall2 (fun r s => length r = length s) temp (dq_array w)).
  { apply same_rows_clearSubarray, same_rows_filled. }
  assert (Hidx : subarray_indices phdr (PStr "NUV") (PInt 1) = Ok [0%nat]) by done.
  assert (Hlocs : subarray_locations hdr (PStr "NUV") xwidth ywidth [0%nat] =
                  Ok [Sub (Int x0) (Int (x0 + xsize - xwidth)) (Int y0)
                          (Int (y0 + ysize - ywidth))]).
  { cbn [subarray_locations].
    change ("corner" +:+ pretty 0%nat +:+ "x") with "corner0x"%string.
    change ("corner" +:+ pretty 0%nat +:+ "y") with "corner0y"%string.
    change ("size" +:+ pretty 0%nat +:+ "x") with "size0x"%string.
    change ("size" +:+ pretty 0%nat +:+ "y") with "size0y"%string.
    unfold getitem. rewrite Hcx, Hcy, Hsx, Hsy. cbn [mbind result_bind].
    assert (Hle : py_le_num (PInt xsize) (Int 0) || py_le_num (PInt ysize) (Int 0) = false).
    { unfold py_le_num, num_leb, num_ltb. cbn [as_num].
      rewrite !bool_decide_eq_true_2 by lia. done. }
    rewrite Hle.
    change (py_eqb (PStr "NUV") (PStr "FUV")) with false. cbn [andb].
    assert (Hf : py_eqb (PStr "NUV") (PStr "NUV")
                 && (py_eqb (PInt ysize) (PInt NUV_Y) && py_eqb (PInt xsize) (PInt NUV_X))
                 = false).
    { unfold py_eqb at 2 3. cbn [as_num num_eqb]. apply not_true_is_false.
      rewrite !andb_true_iff, !bool_decide_eq_true. tauto. }
    rewrite Hf. cbn [need_num as_num mbind result_bind num_add num_sub num_arith].
    done. }
  assert (Hth : forall subs, thermal_subarrays switches stim subs w = (Ok subs, w)).
  { intros subs. unfold thermal_subarrays, getitem. rewrite Htc.
    rewrite bind_lift_Ok. rewrite Htcv. reflexivity. }
  assert (Hact : activeArea seg brftab w =
                 (Ok (Int 0, Int (NUV_Y - 1), Int 0, Int (NUV_X - 1)), w)).
  { unfold activeArea. rewrite Hseg0. rewrite bool_decide_eq_true_2 by done. reflexivity. }
  unfold flagOutOfBounds. rewrite Hsub, Htruth. cbn [negb].
  unfold header_get. rewrite Hn.
  change (py_lt_num (PInt 1) (Int 1)) with false. cbv iota.
  unfold getitem. rewrite Hxo, Hdet, Hseg, Hgc.
  do 3 (rewrite bind_lift_Ok; cbv beta).
  rewrite Hidx, bind_lift_Ok. cbv beta.
  rewrite bind_get_dq. cbv beta.
  destruct (shape (dq_array w)) as [ny nx] eqn:Hshape. fold dx dy xwidth ywidth.
  rewrite Hlocs, bind_lift_Ok. cbv beta. cbn [or_full_size].
  rewrite (bind_eval_Ok _ _ _ _ _ (Hth _)).
  rewrite bind_lift_Ok. cbv beta.
  rewrite (bind_eval_Ok _ _ _ _ _ Hact). cbv beta iota.
  fold filled. cbn [scan_subarrays sub_x0 sub_x1 sub_y0 sub_y1].
  destruct (num_ltb (Int (y0 + ysize - ywidth)) (Int 0)
            || num_ltb (Int (NUV_Y - 1)) (Int y0)).
  - cbn [need_num as_num mbind result_bind]. fold temp.
    rewrite bind_lift_Ok. cbv beta iota.
    rewrite (bool_decide_eq_true_2 (0%nat = 0%nat)) by done.
    rewrite (bool_decide_eq_false_2 (1 < 0)%nat) by lia.
    rewrite bind_printWarning, bind_ret, bind_lift_Ok. cbv beta. rewrite Hgcv.
    rewrite bind_ret, bind_get_dq. cbv beta. cbn [dq_array warned_with].
    rewrite (bool_decide_eq_true_2 _ Hsame).
    eexists. split; [reflexivity|]. exact Hcells.
  - rewrite bind_lift_Ok. cbv beta iota.
    rewrite (bool_decide_eq_false_2 (1%nat = 0%nat)) by lia.
    rewrite (bool_decide_eq_false_2 (1 < 1)%nat) by lia.
    rewrite !bind_ret, bind_lift_Ok. cbv beta. rewrite Hgcv.
    cbn [need_num as_num sub_x0 sub_x1 sub_y0 sub_y1]. cbv iota.
    rewrite bind_assoc, bind_lift_Ok. cbv beta. rewrite bind_ret. cbv beta. fold temp.
    rewrite bind_get_dq. cbv beta.
    rewrite (bool_decide_eq_true_2 _ Hsame).
    eexists. split; [reflexivity|]. exact Hcells.
Qed.

End OneSubarray.

Lemma flagOutOfBounds_one_subarray_witness :
  exists w',
    flagOutOfBounds (H := cos_constants) (H0 := ccos_absent) subarray_phdr one_subarray_hdr ∅
      nuv_info omit_switches "brf.fits" "geo.fits" no_shift no_doppler (empty_world zeros4)
    = (Ok tt, w') /\
    forall j i,
      cell (dq_array w') j i =
      (fun c => Z.lor c (if bool_decide
                              (Z.max (1 - py_round 0) 0 <= Z.of_nat j
                               < Z.min (1 + 2 - py_round (0 - 0) - py_round 0) (Z.of_nat 4) /\
                               Z.max (1 + 0 - py_round (0 - 0)) 0 <= Z.of_nat i
                               < Z.min (1 + 2 - py_round (0 - 0 + 0 - 0) + 0 - py_round (0 - 0))
                                       (Z.of_nat 4))
                         then 0 else 128)) <$> cell zeros4 j i.
Proof.
  apply (flagOutOfBounds_one_subarray (H := cos_constants) (H0 := ccos_absent)
           subarray_phdr one_subarray_hdr ∅ nuv_info omit_switches "brf.fits" "geo.fits"
           0%Qc 0%Qc 0%Qc 0%Qc 0%Qc 0%Qc (PBool true) 0 "NUVA" 1 1 2 2
           (PStr "OMIT") (PStr "OMIT") (empty_world zeros4));
    try reflexivity; try (vm_compute; congruence).
  - intros [Hy _]. vm_compute in Hy. congruence.
  - intros row Hrow. apply elem_of_replicate in Hrow as [-> _]. reflexivity.
Defined.

(** ** VersionComparison: the order of parts and of versions *)

Lemma app_String c (d t : string) : String c d +:+ t = String c (d +:+ t).
Proof. reflexivity. Qed.

Lemma app_empty (t : string) : "" +:+ t = t.
Proof. reflexivity. Qed.

Lemma app_snoc_app (p : string) c (s : string) :
  (p +:+ String c "") +:+ s = p +:+ String c s.
Proof.
  induction p as [|c' p IH]; rewrite ?app_String, ?app_empty; [done|]. by rewrite IH.
Qed.

Lemma string_length_app (d t : string) :
  String.length (d +:+ t) = (String.length d + String.length t)%nat.
Proof. induction d as [|c d IH]; rewrite ?app_String, ?app_empty; cbn; [done|]. by rewrite IH. Qed.

Lemma string_get_app_l (d t : string) i :
  (i < String.length d)%nat -> String.get i (d +:+ t) = String.get i d.
Proof. intros Hi. symmetry. by apply String.append_correct1. Qed.

Lemma string_get_app_r (d t : string) :
  String.get (String.length d) (d +:+ t) = String.get 0 t.
Proof. by rewrite (String.append_correct2 d t 0). Qed.

Lemma substring_0_app (d t : string) k :
  (k <= String.length d)%nat -> String.substring 0 k (d +:+ t) = String.substring 0 k d.
Proof.
  revert k. induction d as [|c d IH]; intros k Hk; cbn in Hk.
  - assert (k = 0%nat) as -> by lia. by destruct t.
  - destruct k as [|k]; [done|]. rewrite app_String. cbn. rewrite IH by lia. done.
Qed.

Lemma substring_0_all (d : string) : String.substring 0 (String.length d) d = d.
Proof. induction d as [|c d IH]; cbn; [done|]. by rewrite IH. Qed.

Lemma substring_drop_app (d t : string) :
  String.substring (String.length d) (String.length (d +:+ t) - String.length d) (d +:+ t) = t.
Proof.
  induction d as [|c d IH]; rewrite ?app_String, ?app_empty; cbn.
  - rewrite Nat.sub_0_r. apply substring_0_all.
  - exact IH.
Qed.

Lemma all_digits_prefix (d : string) k :
  all_digits d = true -> all_digits (String.substring 0 k d) = true.
Proof.
  revert k. induction d as [|c d IH]; intros k Hd; [by destruct k|].
  destruct k as [|k]; [done|]. cbn in Hd |- *.
  apply andb_true_iff in Hd as [Hc Hd]. rewrite Hc. cbn. by apply IH.
Qed.

Lemma prefix_nonempty (d : string) k :
  (k < String.length d)%nat -> String.substring 0 (S k) d <> ""%string.
Proof. destruct d; cbn; [lia|done]. Qed.

Lemma all_digits_get (d : string) i c :
  all_digits d = true -> String.get i d = Some c -> is_digit c = true.
Proof.
  revert i. induction d as [|c' d IH]; intros i Hd Hc; [done|].
  cbn in Hd. apply andb_true_iff in Hd as [Hc' Hd].
  destruct i as [|i]; cbn in Hc; [by injection Hc as <-|by eapply IH].
Qed.

Lemma string_get_lt (d : string) i :
  (i < String.length d)%nat -> exists c, String.get i d = Some c.
Proof.
  revert i. induction d as [|c d IH]; intros i Hi; cbn in Hi; [lia|].
  destruct i as [|i]; cbn; [by eexists|]. apply IH. lia.
Qed.

Lemma ord_inj c1 c2 : ord c1 = ord c2 -> c1 = c2.
Proof.
  unfold ord. intros Heq. apply N2Z.inj in Heq.
  rewrite <- (ascii_N_embedding c1), <- (ascii_N_embedding c2). by rewrite Heq.
Qed.

Lemma ascii_compare_ord c1 c2 : Ascii.compare c1 c2 = (ord c1 ?= ord c2).
Proof. unfold Ascii.compare, ord. by rewrite N2Z.inj_compare. Qed.

Section PartOrder.
Context `{Builtin}.
Hypothesis Hint_decimal : int_reads_decimal.

(** The first loop of [cmpPart] on a part [d ++ t]: the number [d] writes
    and the appended string [t]. *)
Lemma split_part_spec (d t : string) :
  all_digits d = true -> letters t ->
  forall k i acc,
    (i + k = String.length d)%nat ->
    acc = decimal (String.substring 0 i d) ->
    split_part (d +:+ t) (String.length (d +:+ t) - i) i acc = Ok (decimal d, t).
Proof.
  intros Hd Ht. induction k as [|k IH]; intros i acc Hik Hacc.
  - assert (i = String.length d) as -> by lia. rewrite substring_0_all in Hacc.
    rewrite string_length_app.
    replace (String.length d + String.length t - String.length d)%nat
      with (String.length t) by lia.
    destruct t as [|c r]; cbn [String.length split_part]; [by rewrite Hacc|].
    rewrite string_get_app_r. cbn [String.get].
    cbn in Ht. rewrite bool_decide_eq_true_2 by done.
    replace (String.length (d +:+ String c r) - String.length d)%nat
      with (String.length (d +:+ String c r) - String.length d)%nat by done.
    rewrite substring_drop_app.
    case_bool_decide as Hpos.
    + rewrite substring_0_app, substring_0_all by lia.
      rewrite Hint_decimal; [done| |done]. destruct d; [cbn in Hpos; lia|done].
    + cbn [mbind result_bind]. by rewrite Hacc.
  - assert (Hi : (i < String.length d)%nat) by lia.
    rewrite string_length_app.
    replace (String.length d + String.length t - i)%nat
      with (S (String.length d + String.length t - S i)) by lia.
    cbn [split_part]. rewrite string_get_app_l by done.
    destruct (string_get_lt d i Hi) as [c Hc]. rewrite Hc.
    pose proof (all_digits_get d i c Hd Hc) as Hdig.
    unfold is_digit in Hdig. apply bool_decide_eq_true in Hdig.
    rewrite bool_decide_eq_false_2 by lia.
    rewrite Nat.add_1_r, substring_0_app by lia.
    rewrite Hint_decimal; [|by apply prefix_nonempty|by apply all_digits_prefix].
    cbn [mbind result_bind]. rewrite <- string_length_app.
    apply IH; [lia|done].
Qed.

Lemma split_part_part (d t : string) :
  all_digits d = true -> letters t ->
  split_part (d +:+ t) (String.length (d +:+ t)) 0 0 = Ok (decimal d, t).
Proof.
  intros Hd Ht.
  rewrite <- (Nat.sub_0_r (String.length (d +:+ t))) at 1.
  apply (split_part_spec d t Hd Ht (String.length d) 0%nat 0); [lia|by destruct d].
Qed.

End PartOrder.

(** The second loop: byte order on two different strings with a common
    prefix [p] already compared. *)
Lemma cmp_letters_spec (a b : string) :
  forall p : string, a <> b ->
    cmp_letters (p +:+ a) (p +:+ b) (Nat.min (String.length a) (String.length b))
      (String.length p) = Ok (sign_of (String.compare a b)).
Proof.
  revert b. induction a as [|c1 a IH]; intros b p Hne.
  - destruct b as [|c2 b]; [done|]. cbn [String.length Nat.min cmp_letters String.compare].
    rewrite !string_length_app. cbn [String.length].
    rewrite bool_decide_eq_true_2 by lia. done.
  - destruct b as [|c2 b].
    + cbn [String.length Nat.min cmp_letters String.compare].
      rewrite !string_length_app. cbn [String.length].
      rewrite bool_decide_eq_false_2 by lia. done.
    + cbn [String.length Nat.min cmp_letters String.compare].
      rewrite !string_get_app_r. cbn [String.get].
      rewrite ascii_compare_ord.
      destruct (Z.compare_spec (ord c1) (ord c2)) as [Heq|Hlt|Hgt].
      * rewrite !bool_decide_eq_false_2 by lia.
        apply ord_inj in Heq as ->.
        assert (Hab : a <> b) by congruence.
        specialize (IH b (p +:+ String c2 "") Hab).
        rewrite string_length_app in IH. cbn [String.length] in IH.
        rewrite Nat.add_1_r in IH.
        rewrite !app_snoc_app in IH. exact IH.
      * rewrite bool_decide_eq_true_2 by done. done.
      * rewrite bool_decide_eq_false_2 by lia. rewrite bool_decide_eq_true_2 by done. done.
Qed.

Lemma string_compare_refl (s : string) : String.compare s s = Eq.
Proof.
  induction s as [|c s IH]; cbn; [done|].
  rewrite ascii_compare_ord, Z.compare_refl. exact IH.
Qed.

(** A part has one decomposition into digits and an appended string. *)
Lemma part_decomposition_unique (d1 t1 d2 t2 : string) :
  all_digits d1 = true -> all_digits d2 = true -> letters t1 -> letters t2 ->
  d1 +:+ t1 = d2 +:+ t2 -> d1 = d2 /\ t1 = t2.
Proof.
  revert d2. induction d1 as [|c1 d1 IH]; intros d2 Hd1 Hd2 Ht1 Ht2 Heq.
  - destruct d2 as [|c2 d2]; [done|]. rewrite app_String, app_empty in Heq.
    subst t1. cbn in Ht1, Hd2.
    apply andb_true_iff in Hd2 as [Hc _]. unfold is_digit in Hc.
    apply bool_decide_eq_true in Hc. lia.
  - destruct d2 as [|c2 d2].
    + rewrite app_String, app_empty in Heq. subst t2. cbn in Ht2, Hd1.
      apply andb_true_iff in Hd1 as [Hc _]. unfold is_digit in Hc.
      apply bool_decide_eq_true in Hc. lia.
    + rewrite !app_String in Heq. injection Heq as -> Heq. cbn in Hd1, Hd2.
      apply andb_true_iff in Hd1 as [_ Hd1]. apply andb_true_iff in Hd2 as [_ Hd2].
      destruct (IH d2 Hd1 Hd2 Ht1 Ht2 Heq) as [-> ->]. done.
Qed.

(** X20.  On parts made of decimal digits followed by an appended string
    (empty, or starting with a character after ['9']), [cmpPart] is the
    order by number first and by the appended strings, in byte order, second:
    -1, 0 or 1 as the first part is less than, equal to or greater than the
    second.  ([int] is taken to read strings of digits as decimal numbers.) *)
Theorem cmpPart_order `{Builtin} (d1 t1 d2 t2 : string) :
  int_reads_decimal ->
  all_digits d1 = true -> all_digits d2 = true -> letters t1 -> letters t2 ->
  cmpPart (d1 +:+ t1) (d2 +:+ t2) =
  Ok (match decimal d1 ?= decimal d2 with
      | Eq => sign_of (String.compare t1 t2)
      | c => sign_of c
      end).
Proof.
  intros Hint Hd1 Hd2 Ht1 Ht2. unfold cmpPart. case_bool_decide as Heq.
  - destruct (part_decomposition_unique d1 t1 d2 t2 Hd1 Hd2 Ht1 Ht2 Heq) as [-> ->].
    by rewrite Z.compare_refl, string_compare_refl.
  - rewrite (split_part_part Hint d1 t1 Hd1 Ht1), (split_part_part Hint d2 t2 Hd2 Ht2).
    cbn [mbind result_bind].
    destruct (Z.compare_spec (decimal d1) (decimal d2)) as [Hz|Hz|Hz].
    + rewrite !bool_decide_eq_false_2 by lia.
      case_bool_decide as Ht; [subst; by rewrite string_compare_refl|].
      case_bool_decide as Ht1e; [subst t1; by destruct t2|].
      case_bool_decide as Ht2e; [subst t2; by destruct t1|].
      apply (cmp_letters_spec t1 t2 "" Ht).
    + by rewrite bool_decide_eq_true_2.
    + rewrite bool_decide_eq_false_2 by lia. by rewrite bool_decide_eq_true_2.
Qed.

Lemma int_decimal_only_reads : @int_reads_decimal int_decimal_only.
Proof.
  intros s Hs Hd. cbn. rewrite Hd. by rewrite bool_decide_eq_false_2.
Qed.

(** The docstring's [cmpPart ("13a", "13b")]. *)
Lemma cmpPart_order_witness :
  cmpPart (H := int_decimal_only) ("13" +:+ "a") ("13" +:+ "b") =
  Ok (match decimal "13" ?= decimal "13" with
      | Eq => sign_of (String.compare "a" "b")
      | c => sign_of c
      end).
Proof.
  apply (cmpPart_order (H := int_decimal_only) "13" "a" "13" "b").
  - exact int_decimal_only_reads.
  - reflexivity.
  - reflexivity.
  - reflexivity.
  - reflexivity.
Defined.

Section VersionOrder.
Context `{Builtin}.

Lemma cmpPart_same s : cmpPart s s = Ok 0.
Proof. unfold cmpPart. by rewrite bool_decide_eq_true_2. Qed.

Lemma cmp_parts_same l n i :
  (i + n <= length l)%nat -> cmp_parts l l l n i false false = Ok (Finished false false).
Proof.
  revert i. induction n as [|n IH]; intros i Hi; [done|].
  cbn [cmp_parts]. destruct (lookup_lt_is_Some_2 l i) as [s Hs]; [lia|].
  rewrite Hs, cmpPart_same. cbn [mbind result_bind].
  rewrite !(bool_decide_eq_false_2 (0 < 0)) by lia.
  apply IH. lia.
Qed.

(** X21.  A version is compatible with itself: [cmpVersion (v, v, v)] is
    0 for every string [v], without a call of [int]. *)
Theorem cmpVersion_same v : cmpVersion v v v = Ok 0.
Proof.
  unfold cmpVersion. rewrite !Nat.min_id, cmp_parts_same by lia.
  cbn [mbind result_bind orb]. rewrite !bool_decide_eq_false_2 by lia. done.
Qed.

(** X22.  The numbers of parts are compared only when no part has decided
    either test.  For a one-part minimum version [m], a one-part calcos
    version [c] and a reference-file version of several parts whose first
    part [p] compares equal to [c]: the result is +1 (too new) when [m]
    compares equal to [p], but 0 (compatible) when [m] compares below [p]. *)
Theorem cmpVersion_length_test min_ver phdr_ver calcos_ver m p c rest r :
  split_dot min_ver = [m] ->
  split_dot phdr_ver = p :: rest -> rest <> [] ->
  split_dot calcos_ver = [c] ->
  cmpPart p c = Ok 0 ->
  cmpPart m p = Ok r -> r <= 0 ->
  cmpVersion min_ver phdr_ver calcos_ver = Ok (if bool_decide (r < 0) then 0 else 1).
Proof.
  intros Hm Hp Hrest Hc Hpc Hmp Hr. unfold cmpVersion. rewrite Hm, Hp, Hc.
  assert (Hlen : (1 < length (p :: rest))%nat) by (destruct rest; [done|cbn; lia]).
  replace (Nat.min (Nat.min (length [m]) (length (p :: rest))) (length [c])) with 1%nat
    by (cbn [length] in *; lia).
  cbn [cmp_parts lookup list_lookup]. rewrite Hmp, Hpc. cbn [mbind result_bind].
  rewrite !(bool_decide_eq_false_2 (0 < 0)) by lia.
  rewrite (bool_decide_eq_false_2 (length (p :: rest) < length [m])%nat)
    by (cbn [length] in *; lia).
  rewrite (bool_decide_eq_true_2 (length [c] < length (p :: rest))%nat)
    by (cbn [length] in *; lia).
  destruct (decide (r < 0)) as [Hneg|Hneg].
  - rewrite !(bool_decide_eq_true_2 (r < 0)) by done. done.
  - rewrite !(bool_decide_eq_false_2 (r < 0)) by done.
    rewrite (bool_decide_eq_false_2 (0 < r)) by lia. done.
Qed.

End VersionOrder.

(** [cmpVersion ("1", "1.1", "1")] is 1 in the docstring; with the minimum
    version "0" the same reference-file version is compatible. *)
Lemma cmpVersion_length_test_witness :
  cmpVersion (H := int_decimal_only) "0" "1.1" "1" = Ok (if bool_decide (-1 < 0) then 0 else 1).
Proof.
  apply (cmpVersion_length_test (H := int_decimal_only) "0" "1.1" "1" "0" "1" "1"
           ["1"%string] (-1)).
  - reflexivity.
  - reflexivity.
  - discriminate.
  - reflexivity.
  - reflexivity.
  - reflexivity.
  - lia.
Defined.

(** The examples of the two docstrings, evaluated. *)
Example cmpPart_doctests :
  map (fun '(s1, s2) => cmpPart (H := int_decimal_only) s1 s2)
      [("1", "01"); ("14", "104"); ("9", "13a"); ("13", "13a"); ("13a", "14");
       ("13a", "13b")]%string
  = [Ok 0; Ok (-1); Ok (-1); Ok (-1); Ok (-1); Ok (-1)].
Proof. reflexivity. Qed.

Example cmpVersion_doctests :
  map (fun '(min_ver, phdr_ver, calcos_ver) =>
         cmpVersion (H := int_decimal_only) min_ver phdr_ver calcos_ver)
      [("1", "1", "1.1"); ("1", "1.1", "1"); ("1.1", "1", "1"); ("1.1", "1.1", "1.2");
       ("1.1", "1.2", "1.1"); ("1.2", "1.1", "1.1"); ("1.0", "1", "1a");
       ("1.0", "1.0a", "1"); ("1.0a", "1", "1"); ("1.0a", "1.0a", "1b");
       ("1a", "1.0a", "1b")]%string
  = [Ok 0; Ok 1; Ok (-1); Ok 0; Ok 1; Ok (-1); Ok 0; Ok 1; Ok (-1); Ok 0; Ok (-1)].
Proof. reflexivity. Qed.

(** ** Template spectrum *)

(** X23.  When the raw template fits ([0 <= x_offset] and
    [x_offset + len (raw_template) <= nelem]), [getTemplate] returns an
    array of [nelem] elements: [x_offset] zeros, the raw template, and zeros
    to the end. *)
Theorem getTemplate_embeds raw_template x_offset nelem :
  0 <= x_offset ->
  x_offset + Z.of_nat (length raw_template) <= nelem ->
  getTemplate raw_template x_offset nelem =
  Ok (replicate (Z.to_nat x_offset) 0%Qc ++ raw_template ++
      replicate (Z.to_nat (nelem - x_offset - Z.of_nat (length raw_template))) 0%Qc).
Proof.
  intros Hoff Hfit. unfold getTemplate.
  destruct (bool_decide (x_offset = 0) && bool_decide (nelem = Z.of_nat (length raw_template)))
    eqn:Hcopy.
  - apply andb_true_iff in Hcopy as [H0 Hn]. apply bool_decide_eq_true in H0, Hn.
    subst x_offset. rewrite Hn. replace (Z.of_nat (length raw_template) - 0 -
      Z.of_nat (length raw_template)) with 0 by lia. cbn. by rewrite app_nil_r.
  - clear Hcopy. rewrite (bool_decide_eq_false_2 (nelem < 0)) by lia. unfold assign_slice.
    rewrite length_replicate. unfold slice_index.
    rewrite (bool_decide_eq_false_2 (x_offset < 0)) by lia.
    rewrite (bool_decide_eq_false_2 (Z.of_nat (length raw_template) + x_offset < 0)) by lia.
    rewrite !Z2Nat.id by lia.
    replace (Z.to_nat (Z.min (Z.of_nat (length raw_template) + x_offset) nelem) -
             Z.to_nat (Z.min x_offset nelem))%nat with (length raw_template) by lia.
    rewrite bool_decide_eq_true_2 by done.
    rewrite take_replicate, drop_replicate.
    apply (f_equal Ok). apply (f_equal2 app); [apply (f_equal2 replicate); [lia|done]|].
    apply (f_equal2 app); [done|]. apply (f_equal2 replicate); [lia|done].
Qed.

Lemma getTemplate_embeds_witness :
  getTemplate [Zf 5; Zf 7] 1 4 =
  Ok (replicate (Z.to_nat 1) 0%Qc ++ [Zf 5; Zf 7] ++
      replicate (Z.to_nat (4 - 1 - Z.of_nat (length [Zf 5; Zf 7]))) 0%Qc).
Proof. apply (getTemplate_embeds [Zf 5; Zf 7] 1 4); cbn; lia. Defined.

(** X24.  When a raw template of two elements or more does not fit
    ([x_offset + len (raw_template) > nelem], with [x_offset] and [nelem]
    not negative), [getTemplate] does not truncate it: the assignment to the
    slice raises ValueError. *)
Theorem getTemplate_too_long raw_template x_offset nelem :
  0 <= x_offset -> 0 <= nelem ->
  (1 < length raw_template)%nat ->
  nelem < x_offset + Z.of_nat (length raw_template) ->
  getTemplate raw_template x_offset nelem = Raise ValueError.
Proof.
  intros Hoff Hn Hlen Hlong. unfold getTemplate.
  rewrite (proj2 (andb_false_iff _ _)).
  2:{ destruct (decide (x_offset = 0)) as [->|Hne].
      - right. apply bool_decide_eq_false. lia.
      - left. by apply bool_decide_eq_false. }
  rewrite (bool_decide_eq_false_2 (nelem < 0)) by lia. unfold assign_slice.
  rewrite length_replicate. unfold slice_index.
  rewrite (bool_decide_eq_false_2 (x_offset < 0)) by lia.
  rewrite (bool_decide_eq_false_2 (Z.of_nat (length raw_template) + x_offset < 0)) by lia.
  rewrite !Z2Nat.id by lia.
  rewrite bool_decide_eq_false_2 by lia.
  destruct raw_template as [|a [|b rest]]; cbn in Hlen; [lia|lia|done].
Qed.

Lemma getTemplate_too_long_witness : getTemplate [Zf 5; Zf 7] 3 4 = Raise ValueError.
Proof. apply (getTemplate_too_long [Zf 5; Zf 7] 3 4); cbn; lia. Defined.

(** ** The DQ array of an input file *)

Section InputDQFlags.
Context `{Calcosparam} `{ExtendedFormat}.

Lemma zeros_nonneg ny nx : 0 <= ny -> 0 <= nx -> exists g, zeros (ny, nx) = Ok g.
Proof.
  intros Hy Hx. unfold zeros. rewrite !bool_decide_eq_false_2 by lia. by eexists.
Qed.

(** X25.  When the DQ extension has data (NAXIS > 0) whose width is not
    the width [getInputDQ] expects for the detector and observation mode,
    the function raises NameError: the branch that should embed the data in
    a larger array uses the name [len_raw], which is defined nowhere. *)
Theorem getInputDQ_undefined_name phdr hdr data detector obsmode naxis :
  sizes_nonneg ->
  phdr !! "detector" = Some detector ->
  phdr !! "obsmode" = Some obsmode ->
  hdr !! "naxis" = Some naxis -> py_le_num naxis (Int 0) = false ->
  Z.of_nat (length (hd [] data)) <>
    (if py_eqb detector (PStr "FUV") then FUV_EXTENDED_X
     else if py_eqb obsmode (PStr "IMAGING") then NUV_X else NUV_EXTENDED_X) ->
  getInputDQ phdr hdr data = Raise NameError.
Proof.
  intros (Hfy & Hfx & Hny & Hnx & Hnex) Hdet Hobs Hnaxis Hpos Hwidth.
  unfold getInputDQ, getitem. rewrite Hdet, Hobs. cbn [mbind result_bind].
  destruct (py_eqb detector (PStr "FUV")); [|destruct (py_eqb obsmode (PStr "IMAGING"))];
    rewrite Hnaxis; cbn [mbind result_bind]; rewrite Hpos; cbn [negb shape snd];
    rewrite bool_decide_eq_false_2 by done.
  - destruct (zeros_nonneg FUV_Y FUV_EXTENDED_X Hfy Hfx) as [g ->]. done.
  - destruct (zeros_nonneg NUV_Y NUV_X Hny Hnx) as [g ->]. done.
  - destruct (zeros_nonneg NUV_Y NUV_EXTENDED_X Hny Hnex) as [g ->]. done.
Qed.

Lemma cell_map_map (f : Z -> Z) (g : dqgrid) j i :
  cell (map (map f) g) j i = f <$> cell g j i.
Proof.
  unfold cell. change map with (@fmap list _). rewrite list_lookup_fmap.
  destruct (g !! j) as [row|]; cbn; [|done]. by rewrite list_lookup_fmap.
Qed.

(** X26.  When the DQ extension has data (NAXIS > 0) and [getInputDQ]
    returns, the array has the shape of the data, no pixel has the flags 64
    or 128 (nor a bit from 2^14 on), and the other flags are those of the
    data. *)
Theorem getInputDQ_flags_removed phdr hdr data naxis dq :
  hdr !! "naxis" = Some naxis -> py_le_num naxis (Int 0) = false ->
  getInputDQ phdr hdr data = Ok dq ->
  forall j i,
    match cell dq j i with
    | Some v =>
        exists u, cell data j i = Some u /\
          forall n, 0 <= n ->
            Z.testbit v n = Z.testbit u n && negb (bool_decide (n = 6 \/ n = 7 \/ 14 <= n))
    | None => cell data j i = None
    end.
Proof.
  intros Hnaxis Hpos Hrun j i. unfold getInputDQ, getitem in Hrun.
  destruct (phdr !! "detector") as [detector|]; [|done].
  destruct (phdr !! "obsmode") as [obsmode|]; [|done]. cbn [mbind result_bind] in Hrun.
  assert (Hdq : dq = map (map (fun v => Z.land v (16383 - (64 + 128)))) data).
  { destruct (if py_eqb detector (PStr "FUV")
              then (FUV_Y, FUV_EXTENDED_X, FUV_X_OFFSET)
              else if py_eqb obsmode (PStr "IMAGING")
                   then (NUV_Y, NUV_X, 0) else (NUV_Y, NUV_EXTENDED_X, NUV_X_OFFSET))
      as [npix x_offset].
    rewrite Hnaxis in Hrun. cbn [mbind result_bind] in Hrun. rewrite Hpos in Hrun.
    cbn [negb] in Hrun. case_bool_decide; [by injection Hrun|].
    by destruct (zeros npix). }
  subst dq. rewrite cell_map_map. destruct (cell data j i) as [u|]; [|done]. cbn.
  exists u. split; [done|]. intros n Hn. rewrite Z.land_spec. f_equal.
  change (16383 - (64 + 128)) with 16191.
  rewrite <- (Z2Nat.id n Hn). generalize (Z.to_nat n). clear. intros k.
  do 14 (destruct k as [|k]; [reflexivity|]).
  rewrite bool_decide_eq_true_2 by lia. cbn [negb].
  apply Z.bits_above_log2; [lia|]. change (Z.log2 16191) with 13. lia.
Qed.

End InputDQFlags.

Lemma cos_sizes_nonneg : @sizes_nonneg cos_constants cos_extended.
Proof. repeat split; cbn; lia. Qed.

(** A DQ image of width 4 where 1274 columns are expected. *)
Lemma getInputDQ_undefined_name_witness :
  getInputDQ (H := cos_constants) (H0 := cos_extended) nuv_spec_phdr dq_image_hdr flagged4
  = Raise NameError.
Proof.
  apply (getInputDQ_undefined_name (H := cos_constants) (H0 := cos_extended)
           nuv_spec_phdr dq_image_hdr flagged4 (PStr "NUV") (PStr "ACCUM") (PInt 2)).
  - exact cos_sizes_nonneg.
  - reflexivity.
  - reflexivity.
  - reflexivity.
  - reflexivity.
  - vm_compute. discriminate.
Defined.

(** An NUV image of one row whose pixels carry the flags 1, 4, 64 and 128,
    at its first pixel. *)
Lemma getInputDQ_flags_removed_witness :
  match cell [replicate 1024 5] 0 0 with
  | Some v =>
      exists u, cell [replicate 1024 (1 + 4 + 64 + 128)] 0 0 = Some u /\
        forall n, 0 <= n ->
          Z.testbit v n = Z.testbit u n && negb (bool_decide (n = 6 \/ n = 7 \/ 14 <= n))
  | None => cell [replicate 1024 (1 + 4 + 64 + 128)] 0 0 = None
  end.
Proof.
  apply (getInputDQ_flags_removed (H := cos_constants) (H0 := cos_extended)
           {[ "detector" := PStr "NUV"; "obsmode" := PStr "IMAGING" ]} dq_image_hdr
           [replicate 1024 (1 + 4 + 64 + 128)] (PInt 2) [replicate 1024 5]).
  - reflexivity.
  - reflexivity.
  - vm_compute. reflexivity.
Defined.

(** ** Header keywords *)

Lemma lookup_del_keys (hdr : pydict) keys k :
  del_keys hdr keys !! k = if bool_decide (k ∈ keys) then None else hdr !! k.
Proof.
  unfold del_keys. revert hdr. induction keys as [|key keys IH]; intros hdr; cbn [foldl].
  - by rewrite bool_decide_eq_false_2 by (apply not_elem_of_nil).
  - rewrite IH. destruct (decide (k ∈ keys)) as [Hin|Hnin].
    + rewrite (bool_decide_eq_true_2 (k ∈ keys)) by done.
      rewrite (bool_decide_eq_true_2 (k ∈ key :: keys)) by (apply elem_of_cons; by right).
      done.
    + rewrite (bool_decide_eq_false_2 (k ∈ keys)) by done.
      destruct (decide (k = key)) as [->|Hne].
      * rewrite (bool_decide_eq_true_2 (key ∈ key :: keys)) by (apply elem_of_cons; by left).
        clear IH. case_bool_decide as Hsome; [apply lookup_delete_eq|].
        by apply eq_None_not_Some.
      * rewrite (bool_decide_eq_false_2 (k ∈ key :: keys))
          by (intros Hin; apply elem_of_cons in Hin as [?|?]; done).
        clear IH. case_bool_decide; [by rewrite lookup_delete_ne|done].
Qed.

(** The header after one pair: the table keyword is gone, the image keyword
    holds its own value if it had one and that of the table keyword
    otherwise, and no other keyword has changed. *)
Lemma rename_step_spec (hdr : pydict) t i w :
  t <> i ->
  exists hdr' w', rename_step hdr t i w = (Ok hdr', w') /\
    dq_array w' = dq_array w /\
    hdr' !! t = None /\
    hdr' !! i = match hdr !! i with Some v => Some v | None => hdr !! t end /\
    forall k, k <> t -> k <> i -> hdr' !! k = hdr !! k.
Proof.
  intros Hne. unfold rename_step. destruct (hdr !! t) as [v|] eqn:Ht.
  - case_bool_decide as Hi.
    + eexists _, _. split; [reflexivity|]. destruct Hi as [u Hu].
      repeat split.
      * apply lookup_delete_eq.
      * rewrite lookup_delete_ne by done. by rewrite Hu.
      * intros k Hkt Hki. by rewrite lookup_delete_ne.
    + eexists _, _. split; [reflexivity|].
      apply eq_None_not_Some in Hi. repeat split.
      * rewrite lookup_insert_ne by done. apply lookup_delete_eq.
      * rewrite lookup_insert_eq. by rewrite Hi.
      * intros k Hkt Hki. rewrite lookup_insert_ne by done. by rewrite lookup_delete_ne.
  - eexists _, _. split; [reflexivity|]. repeat split; try done.
    by destruct (hdr !! i).
Qed.

Lemma rename_keys_spec (pairs : list (string * string)) :
  NoDup (pairs.*1 ++ pairs.*2) ->
  forall (hdr : pydict) w,
  exists hdr' w', rename_keys hdr pairs w = (Ok hdr', w') /\
    dq_array w' = dq_array w /\
    (forall t, t ∈ pairs.*1 -> hdr' !! t = None) /\
    (forall t i, (t, i) ∈ pairs ->
       hdr' !! i = match hdr !! i with Some v => Some v | None => hdr !! t end) /\
    (forall k, k ∉ pairs.*1 -> k ∉ pairs.*2 -> hdr' !! k = hdr !! k).
Proof.
  induction pairs as [|[t i] pairs IH]; intros Hnd hdr w.
  - exists hdr, w. split; [done|]. repeat split; try done.
    + intros t Ht. by apply elem_of_nil in Ht.
    + intros t i Hti. by apply elem_of_nil in Hti.
  - cbn [fmap list_fmap fst snd] in Hnd.
    assert (Hparts : t <> i /\ (t ∉ pairs.*1) /\ (t ∉ pairs.*2) /\ (i ∉ pairs.*1) /\
                     (i ∉ pairs.*2) /\ NoDup (pairs.*1 ++ pairs.*2)).
    { change ((t :: pairs.*1) ++ i :: pairs.*2) with (t :: (pairs.*1 ++ i :: pairs.*2)) in Hnd.
      apply NoDup_cons in Hnd as [Ht Hnd].
      apply not_elem_of_app in Ht as [Ht1 Ht2].
      apply not_elem_of_cons in Ht2 as [Hti Ht2].
      apply NoDup_app in Hnd as (Hn1 & Hdis & Hn2).
      apply NoDup_cons in Hn2 as [Hi Hn2].
      repeat split; try done.
      - intros Hin. apply (Hdis i Hin). apply elem_of_cons. by left.
      - apply NoDup_app. repeat split; [done| |done].
        intros x Hx1 Hx2. apply (Hdis x Hx1). apply elem_of_cons. by right. }
    destruct Hparts as (Hti & Ht1 & Ht2 & Hi1 & Hi2 & Hnd').
    destruct (rename_step_spec hdr t i w Hti) as (h1 & w1 & Hstep & Hdq1 & Hh1t & Hh1i & Hh1k).
    destruct (IH Hnd' h1 w1) as (h2 & w2 & Hrest & Hdq2 & Hh2t & Hh2i & Hh2k).
    exists h2, w2. split.
    { cbn [rename_keys]. unfold mbind, M_bind. by rewrite Hstep. }
    split; [congruence|]. repeat split.
    + intros k Hk. cbn in Hk. apply elem_of_cons in Hk as [->|Hk]; [|by apply Hh2t].
      by rewrite Hh2k.
    + intros t' i' Hin. apply elem_of_cons in Hin as [[= -> ->]|Hin].
      * by rewrite Hh2k.
      * assert (Ht' : t' ∈ pairs.*1) by (apply list_elem_of_fmap; by exists (t', i')).
        assert (Hi' : i' ∈ pairs.*2) by (apply list_elem_of_fmap; by exists (t', i')).
        rewrite (Hh2i t' i' Hin).
        rewrite !Hh1k by (intros ->; done). done.
    + intros k Hk1 Hk2. cbn in Hk1, Hk2.
      rewrite not_elem_of_cons in Hk1, Hk2.
      rewrite Hh2k by tauto. apply Hh1k; tauto.
Qed.

Lemma wcs_keys_distinct : NoDup ((zip tkey ikey).*1 ++ (zip tkey ikey).*2).
Proof. apply (bool_decide_unpack _). by vm_compute. Qed.

Lemma wcs_tkeys : (zip tkey ikey).*1 = tkey.
Proof. reflexivity. Qed.

Lemma wcs_ikeys : (zip tkey ikey).*2 = ikey.
Proof. reflexivity. Qed.

(** X27.  [tableHeaderToImage] returns a header without any of the 14
    table WCS keywords; each image WCS keyword holds the value it had in the
    table header if it was there, and the value of its table counterpart
    otherwise; every other keyword is as in the table header.  The DQ array
    of the state is untouched. *)
Theorem tableHeaderToImage_keywords thdr w :
  exists hdr w', tableHeaderToImage thdr w = (Ok hdr, w') /\
    dq_array w' = dq_array w /\
    (forall t, t ∈ tkey -> hdr !! t = None) /\
    (forall t i, (t, i) ∈ zip tkey ikey ->
       hdr !! i = match thdr !! i with Some v => Some v | None => thdr !! t end) /\
    (forall k, k ∉ tkey -> k ∉ ikey -> hdr !! k = thdr !! k).
Proof.
  destruct (rename_keys_spec (zip tkey ikey) wcs_keys_distinct thdr w)
    as (hdr & w' & Hrun & Hdq & Ht & Hi & Hk).
  rewrite wcs_tkeys in Ht, Hk. rewrite wcs_ikeys in Hk.
  exists hdr, w'. done.
Qed.

(** X28.  Turning a table header into an image header and back loses the
    world coordinate system: [imageHeaderToTable] of the result of
    [tableHeaderToImage] is [imageHeaderToTable] of the result of
    [delCorrtagWCS], the table header without the keywords of either
    family and without BUNIT. *)
Theorem header_round_trip thdr w hdr w' :
  tableHeaderToImage thdr w = (Ok hdr, w') ->
  imageHeaderToTable hdr = imageHeaderToTable (delCorrtagWCS thdr) /\
  forall k, imageHeaderToTable hdr !! k =
            if bool_decide (k ∈ tkey ++ ikey ++ ["BUNIT"%string]) then None else thdr !! k.
Proof.
  intros Hrun.
  destruct (rename_keys_spec (zip tkey ikey) wcs_keys_distinct thdr w) as (hdr0 & w0 & Hrun0 & _ & Ht & _ & Hk).
  unfold tableHeaderToImage in Hrun. rewrite Hrun in Hrun0. injection Hrun0 as <- <-.
  rewrite wcs_tkeys in Ht, Hk. rewrite wcs_ikeys in Hk.
  assert (Hlook : forall k, imageHeaderToTable hdr !! k =
            if bool_decide (k ∈ tkey ++ ikey ++ ["BUNIT"%string]) then None else thdr !! k).
  { intros k. unfold imageHeaderToTable. rewrite lookup_del_keys.
    destruct (decide (k ∈ ikey ++ ["BUNIT"%string])) as [Hin|Hnin].
    - rewrite (bool_decide_eq_true_2 _ Hin).
      rewrite bool_decide_eq_true_2 by (apply elem_of_app; by right). done.
    - rewrite (bool_decide_eq_false_2 _ Hnin).
      destruct (decide (k ∈ tkey)) as [Hkt|Hkt].
      + rewrite bool_decide_eq_true_2 by (apply elem_of_app; by left). by apply Ht.
      + rewrite bool_decide_eq_false_2 by (rewrite elem_of_app; tauto).
        apply Hk; [done|]. intros Hki. apply Hnin, elem_of_app. by left. }
  split; [|done]. apply map_eq. intros k. rewrite Hlook.
  unfold imageHeaderToTable, delCorrtagWCS. rewrite !lookup_del_keys.
  destruct (decide (k ∈ ikey ++ ["BUNIT"%string])) as [Hin|Hnin].
  - rewrite (bool_decide_eq_true_2 _ Hin).
    rewrite bool_decide_eq_true_2 by (apply elem_of_app; by right). done.
  - rewrite (bool_decide_eq_false_2 _ Hnin).
    destruct (decide (k ∈ tkey)) as [Hkt|Hkt].
    + rewrite (bool_decide_eq_true_2 _ Hkt).
      rewrite bool_decide_eq_true_2 by (apply elem_of_app; by left). done.
    + rewrite (bool_decide_eq_false_2 _ Hkt).
      rewrite bool_decide_eq_false_2 by (rewrite elem_of_app; tauto). done.
Qed.

Lemma tableHeaderToImage_keywords_witness :
  exists hdr w', tableHeaderToImage corrtag_hdr (empty_world []) = (Ok hdr, w') /\
    dq_array w' = dq_array (empty_world []) /\
    (forall t, t ∈ tkey -> hdr !! t = None) /\
    (forall t i, (t, i) ∈ zip tkey ikey ->
       hdr !! i = match corrtag_hdr !! i with Some v => Some v | None => corrtag_hdr !! t end) /\
    (forall k, k ∉ tkey -> k ∉ ikey -> hdr !! k = corrtag_hdr !! k).
Proof. apply (tableHeaderToImage_keywords corrtag_hdr (empty_world [])). Defined.

(** [corrtag_hdr] as an image header: TCTYP2 has become CTYPE1, and TCRVL2
    is dropped with a warning because CRVAL1 was there. *)
Lemma header_round_trip_witness :
  imageHeaderToTable {[ "CTYPE1" := PStr "WAVE"; "CRVAL1" := PFloat 1%Qc;
                        "EXPTIME" := PFloat 1%Qc ]}
  = imageHeaderToTable (delCorrtagWCS corrtag_hdr) /\
  forall k,
    imageHeaderToTable {[ "CTYPE1" := PStr "WAVE"; "CRVAL1" := PFloat 1%Qc;
                          "EXPTIME" := PFloat 1%Qc ]} !! k =
    if bool_decide (k ∈ tkey ++ ikey ++ ["BUNIT"%string]) then None else corrtag_hdr !! k.
Proof.
  apply (header_round_trip corrtag_hdr (empty_world [])
           {[ "CTYPE1" := PStr "WAVE"; "CRVAL1" := PFloat 1%Qc; "EXPTIME" := PFloat 1%Qc ]}
           (warned_with ["keyword already exists"%string;
                         "Can't rename TCRVL2 to CRVAL1"%string] (empty_world []))).
  vm_compute. reflexivity.
Defined.

(** ** [modifyAsnMtyp] *)

Lemma prefix_nil (s : string) : String.prefix "" s = true.
Proof. by destruct s. Qed.

Lemma prefix_same (a : ascii) (s1 s2 : string) :
  String.prefix (String a s1) (String a s2) = String.prefix s1 s2.
Proof. cbn. by destruct (Ascii.ascii_dec a a). Qed.

Lemma prefix_4 (a b c d : ascii) (s : string) :
  String.prefix (String a (String b (String c (String d "")))) s = true ->
  exists r, s = String a (String b (String c (String d r))).
Proof.
  intros Hp. apply String.prefix_correct in Hp. cbn [String.length] in Hp.
  destruct s as [|c1 [|c2 [|c3 [|c4 r]]]]; try discriminate Hp.
  cbn in Hp. injection Hp as -> -> -> ->. by exists r.
Qed.

(** X29.  [modifyAsnMtyp] turns "EXP-..." into "PROD-..." and "EXP_..."
    into "PROD_...", leaves every other string as it is, and applying it a
    second time changes nothing. *)
Theorem modifyAsnMtyp_idempotent asn_mtyp :
  (forall rest, modifyAsnMtyp ("EXP-" +:+ rest) = "PROD-" +:+ rest) /\
  (forall rest, modifyAsnMtyp ("EXP_" +:+ rest) = "PROD_" +:+ rest) /\
  modifyAsnMtyp (modifyAsnMtyp asn_mtyp) = modifyAsnMtyp asn_mtyp.
Proof.
  assert (Hsub : forall c r,
    String.substring 3 (String.length (String "E" (String "X" (String "P" (String c r)))) - 3)
      (String "E" (String "X" (String "P" (String c r)))) = String c r).
  { intros c r. cbn [String.length Nat.sub String.substring]. f_equal.
    clear. induction r as [|c r IH]; cbn; [done|]. by rewrite IH. }
  assert (Hminus : forall rest, modifyAsnMtyp ("EXP-" +:+ rest) = "PROD-" +:+ rest).
  { intros rest. unfold modifyAsnMtyp.
    change ("EXP-" +:+ rest) with (String "E" (String "X" (String "P" (String "-" rest)))).
    replace (String.prefix "EXP-" (String "E" (String "X" (String "P" (String "-" rest)))))
      with true by (by rewrite !prefix_same, prefix_nil).
    cbn [orb]. by rewrite Hsub. }
  assert (Hunder : forall rest, modifyAsnMtyp ("EXP_" +:+ rest) = "PROD_" +:+ rest).
  { intros rest. unfold modifyAsnMtyp.
    change ("EXP_" +:+ rest) with (String "E" (String "X" (String "P" (String "_" rest)))).
    replace (String.prefix "EXP_" (String "E" (String "X" (String "P" (String "_" rest)))))
      with true by (by rewrite !prefix_same, prefix_nil).
    rewrite orb_true_r. by rewrite Hsub. }
  split; [done|]. split; [done|].
  unfold modifyAsnMtyp at 2 3.
  destruct (String.prefix "EXP-" asn_mtyp) eqn:Hm.
  - apply prefix_4 in Hm as [r ->]. cbn [orb]. rewrite Hsub. reflexivity.
  - destruct (String.prefix "EXP_" asn_mtyp) eqn:Hu; cbn [orb].
    + apply prefix_4 in Hu as [r ->]. rewrite Hsub. reflexivity.
    + unfold modifyAsnMtyp. by rewrite Hm, Hu.
Qed.

(** ** ActiveAreaLimits *)

Lemma selected_rows_from mask k :
  omap (fun '(i, b) => if b : bool then Some i else None) (zip (seq k (length mask)) mask)
  = (fun i => (k + i)%nat) <$> selected_rows mask.
Proof.
  unfold selected_rows. revert k. induction mask as [|b mask IH]; intros k; [done|].
  cbn [length seq zip zip_with omap list_omap].
  rewrite (IH (S k)), (IH 1%nat). destruct b; cbn [fmap list_fmap].
  - f_equal; [lia|]. rewrite <- list_fmap_compose. apply list_fmap_ext. intros; cbn; lia.
  - rewrite <- list_fmap_compose. apply list_fmap_ext. intros; cbn; lia.
Qed.

(** The first selected row is the first row of the mask that is true. *)
Lemma selected_rows_head mask r :
  mask !! r = Some true -> (forall r', (r' < r)%nat -> mask !! r' <> Some true) ->
  exists rest, selected_rows mask = r :: rest.
Proof.
  revert r. induction mask as [|b mask IH]; intros r Hr Hfirst; [done|].
  unfold selected_rows. cbn [length seq zip zip_with omap list_omap].
  rewrite (selected_rows_from mask 1). destruct r as [|r].
  - cbn in Hr. injection Hr as ->. by eexists.
  - destruct b; [by destruct (Hfirst 0%nat); [lia|]|].
    destruct (IH r Hr) as [rest Hrest].
    { intros r' Hr'. apply (Hfirst (S r')). lia. }
    rewrite Hrest. cbn. by eexists.
Qed.

Section ActiveArea.
Context `{Calcosparam}.

Lemma field0_first_row data mask key col r rest v :
  fields data !! key = Some (IntCol col) ->
  selected_rows mask = r :: rest -> col !! r = Some v ->
  field0 (mask_rows mask data) key = Ok (Int v).
Proof.
  intros Hcol Hsel Hv. unfold field0, field, mask_rows. cbn [fields].
  rewrite lookup_fmap, Hcol. cbn [fmap option_fmap option_map mbind result_bind].
  rewrite Hsel. unfold take_rows. cbn [omap list_omap]. by rewrite Hv.
Qed.

(** X30.  For a segment whose name starts with "N", [activeArea] is
    [(0, NUV_Y - 1, 0, NUV_X - 1)] and no file is opened.  For any other
    segment, with a well-formed baseline reference frame table on disk:
    when [r] is the first row whose SEGMENT cell is the segment or the
    wildcard, [activeArea] returns the integers A_LOW, A_HIGH, A_LEFT and
    A_RIGHT of row [r]; the table has been opened and the DQ array is
    untouched. *)
Theorem activeArea_first_row segment brftab w :
  (forall rest, segment = String "N" rest ->
     activeArea segment brftab w =
     (Ok (Int 0, Int (NUV_Y - 1), Int 0, Int (NUV_X - 1)), w)) /\
  (forall c rest data r lows highs lefts rights a_low a_high a_left a_right,
     segment = String c rest -> c <> "N"%char ->
     tables w !! brftab = Some data -> well_formed_table data ->
     (r < nrows data)%nat ->
     criterion data r "segment" (PStr segment) ->
     (forall r', (r' < r)%nat -> ~ criterion data r' "segment" (PStr segment)) ->
     fields data !! "a_low" = Some (IntCol lows) -> lows !! r = Some a_low ->
     fields data !! "a_high" = Some (IntCol highs) -> highs !! r = Some a_high ->
     fields data !! "a_left" = Some (IntCol lefts) -> lefts !! r = Some a_left ->
     fields data !! "a_right" = Some (IntCol rights) -> rights !! r = Some a_right ->
     exists w',
       activeArea segment brftab w =
       (Ok (Int a_low, Int a_high, Int a_left, Int a_right), w') /\
       opened w' = brftab :: opened w /\ dq_array w' = dq_array w).
Proof.
  split.
  - intros rest ->. unfold activeArea. cbn [String.get].
    by rewrite bool_decide_eq_true_2.
  - intros c rest data r lows highs lefts rights a_low a_high a_left a_right
           Hseg Hc Htab Hwf Hr Hcrit Hfirst Hlow Hlowr Hhigh Hhighr Hleft Hleftr Hright Hrightr.
    assert (Hmask : exists mask, row_mask data {[ "segment" := PStr segment ]} = Ok mask).
    { unfold row_mask. rewrite map_to_list_singleton. cbn [select_arrays].
      fold (filter_wildcard (PStr segment)).
      destruct (filter_wildcard (PStr segment)) eqn:Hw; [by eexists|].
      destruct Hcrit as [Hw'|(col & Hcol & _)]; [congruence|].
      unfold field. rewrite Hcol. by eexists. }
    destruct Hmask as [mask Hmask].
    destruct (row_mask_spec data _ mask Hwf Hmask) as [Hlen Hrows].
    assert (Hone : forall i, (i < nrows data)%nat ->
              (mask !! i = Some true <-> criterion data i "segment" (PStr segment))).
    { intros i Hi. rewrite (Hrows i Hi). split.
      - intros Hall. apply Hall. apply lookup_singleton_eq.
      - intros Hi' key v Hkv. apply lookup_singleton_Some in Hkv as [<- <-]. done. }
    destruct (selected_rows_head mask r) as [others Hsel].
    { by apply Hone. }
    { intros r' Hr' Hm. apply (Hfirst r' Hr'). apply Hone; [lia|done]. }
    unfold activeArea. rewrite Hseg. cbn [String.get]. rewrite <- Hseg.
    rewrite bool_decide_eq_false_2 by done.
    unfold mbind at 1. unfold M_bind at 1.
    rewrite (getTable_eval _ _ _ _ _ _ Htab Hwf), Hmask. cbv zeta. rewrite Hsel.
    rewrite (bool_decide_eq_false_2 (length (r :: others) < 1)%nat) by (cbn [length]; lia).
    rewrite <- Hsel.
    unfold mbind, M_bind, lift.
    rewrite (field0_first_row data mask "a_low" lows r others a_low Hlow Hsel Hlowr).
    rewrite (field0_first_row data mask "a_high" highs r others a_high Hhigh Hsel Hhighr).
    rewrite (field0_first_row data mask "a_left" lefts r others a_left Hleft Hsel Hleftr).
    rewrite (field0_first_row data mask "a_right" rights r others a_right Hright Hsel Hrightr).
    eexists. split; [reflexivity|].
    destruct (true && bool_decide (1 < length (selected_rows mask))%nat);
      split; reflexivity.
Qed.

End ActiveArea.

Lemma activeArea_first_row_witness :
  activeArea (H := cos_constants) "NUVA" "brf.fits" (brf_world [])
  = (Ok (Int 0, Int (1024 - 1), Int 0, Int (1024 - 1)), brf_world []) /\
  exists w',
    activeArea (H := cos_constants) "FUVA" "brf.fits" (brf_world [])
    = (Ok (Int 1, Int 5, Int 2, Int 6), w') /\
    opened w' = "brf.fits"%string :: opened (brf_world []) /\
    dq_array w' = dq_array (brf_world []).
Proof.
  split.
  - apply (proj1 (activeArea_first_row (H := cos_constants) "NUVA" "brf.fits" (brf_world []))
             "UVA"%string).
    reflexivity.
  - apply (proj2 (activeArea_first_row (H := cos_constants) "FUVA" "brf.fits" (brf_world []))
             "F"%char "UVA"%string brf_table 0%nat [1; 2] [5; 6] [2; 2] [6; 6] 1 5 2 6);
      try reflexivity.
    + discriminate.
    + exact brf_table_well_formed.
    + cbn. lia.
    + right. exists (StrCol ["FUVA"%string; "FUVB"%string]). split; reflexivity.
    + intros r' Hr'. lia.
Defined.
